(** * fetch_rates.py: a shallow embedding and its verified properties

    The script backfills per-month CSV archives of daily exchange rates
    from a quota-limited HTTP API.  Its functions are embedded below as
    Rocq functions over an explicit program state (clock, rate-limiter
    timestamps, file system) and an environment of oracles standing for
    everything the script cannot control (the remote API, the wall
    clock, other processes, I/O faults). *)

From Stdlib Require Import ZArith QArith Qminmax Lqa Lia Bool.
From Stdlib Require Import String Ascii DecimalString.
From stdpp Require Import gmap strings list sorting.

Local Open Scope Z_scope.

(** ** Configuration (module-level constants read from the environment) *)

Record config := Config {
  BASE_CURRENCY : string;
  START_YEAR : Z;
  DATA_DIR : string;
  MAX_PER_MINUTE : Z;
  SAFETY_BUFFER : Z;
  ALLOW_PARTIAL_MONTH : bool;
  MAX_RETRIES : Z;
  RETRY_BASE_SECONDS : Q;
  CURRENCIES : list string
}.

(** The values the script uses when the environment sets nothing. *)
Definition default_config : config := {|
  BASE_CURRENCY := "USD";
  START_YEAR := 2023;
  DATA_DIR := "/data";
  MAX_PER_MINUTE := 10;
  SAFETY_BUFFER := 1;
  ALLOW_PARTIAL_MONTH := false;
  MAX_RETRIES := 4;
  RETRY_BASE_SECONDS := 1%Q;
  CURRENCIES :=
    ["USD"; "EUR"; "GBP"; "JPY"; "CNY"; "INR"; "AUD"; "CAD"; "CHF";
     "SEK"; "NOK"; "DKK"; "SGD"; "HKD"; "KRW"; "ZAR"; "BRL"; "MXN"; "TRY"]
|}.

(** ** Python primitives used by the script *)

(** [f"{z:0{width}d}"]: decimal digits, zero-padded to [width]
    characters, the sign counting as one of them. *)
Fixpoint zeros (n : nat) : string :=
  match n with O => "" | S n => String "0" (zeros n) end.

Definition digits (n : N) : string := NilZero.string_of_uint (N.to_uint n).

Definition zfill (width : nat) (s : string) : string :=
  zeros (width - String.length s) +:+ s.

Definition fmt_int (width : nat) (z : Z) : string :=
  if z <? 0 then "-" +:+ zfill (width - 1) (digits (Z.abs_N z))
  else zfill width (digits (Z.abs_N z)).

(** [l[:n]] for a Python int [n]. *)
Definition slice_to {A} (l : list A) (n : Z) : list A :=
  if 0 <=? n then take (Z.to_nat n) l
  else take (length l - Z.to_nat (- n)) l.

(** [list.sort()] / [sorted()] on strings: ascending, by code points. *)
Definition sort_strings (l : list string) : list string :=
  merge_sort String.le l.

(** [calendar.isleap] and [calendar.monthrange(year, month)[1]]. *)
Definition isleap (year : Z) : bool :=
  (year mod 4 =? 0) && (negb (year mod 100 =? 0) || (year mod 400 =? 0)).

Definition mdays (month : Z) : Z :=
  match month with
  | 1 => 31 | 2 => 28 | 3 => 31 | 4 => 30 | 5 => 31 | 6 => 30
  | 7 => 31 | 8 => 31 | 9 => 30 | 10 => 31 | 11 => 30 | 12 => 31
  | _ => 0
  end.

Definition monthrange_days (year month : Z) : Z :=
  mdays month + (if (month =? 2) && isleap year then 1 else 0).

(** [date(y, m, d).isoformat()]; [date] raises [ValueError] outside
    years 1..9999 ([None] here). *)
Definition isoformat (y m d : Z) : option string :=
  if (1 <=? y) && (y <=? 9999) then
    Some (fmt_int 4 y +:+ "-" +:+ fmt_int 2 m +:+ "-" +:+ fmt_int 2 d)
  else None.

(** [range(1, nd + 1)] *)
Definition range1 (nd : Z) : list Z :=
  (fun i => Z.of_nat (S i)) <$> seq 0 (Z.to_nat nd).

(** [dates_in_month] (source lines 276-278). *)
Definition dates_in_month (year month : Z) : option (list string) :=
  let nd := monthrange_days year month in
  mapM (isoformat year month) (range1 nd).

(** ** Data model *)

(** The float operations the script relies on, kept abstract:
    [float(s)] on a string ([None] when it raises), [repr] as the csv
    writer prints a float, and the literal [1.0]. *)
Class FloatOps := {
  float : Type;
  float_of_string : string -> option float;
  float_repr : float -> string;
  float_one : float
}.

Inductive exn :=
  | RequestException          (* requests: transport failure *)
  | RuntimeError (status : Z) (* raised by get_historical_for_date *)
  | ValueError
  | TypeError
  | KeyError
  | JSONDecodeError
  | OSError
  | OutOfFuel.                (* a bounded loop ran out of fuel; never raised, see [do_request_loop_spec] *)

(** [pathlib.Path], as far as the script looks into it. *)
Record Path := MkPath { parent : string; stem : string; suffix : string }.

Definition path_str (p : Path) : string :=
  parent p +:+ "/" +:+ stem p +:+ suffix p.

Definition with_suffix (p : Path) (sfx : string) : Path :=
  MkPath (parent p) (stem p) sfx.

Inductive result (A : Type) :=
  | Ok (a : A)
  | Raise (e : exn).
Arguments Ok {A} a.
Arguments Raise {A} e.

(** What the budgeting step of [main] decides. *)
Inductive decision :=
  | Stop (code : Z)
  | Fetch (dates : list string).

Inductive sleep_kind := RateLimitSleep | RetrySleep.

Section Model.
Context `{FloatOps}.

(** A cell of a row dict: a string (the blank sentinel is [""]) or a float. *)
Inductive value :=
  | VStr (s : string)
  | VFloat (f : float).

Definition blank : value := VStr "".

(** A value found under a currency code in the API's JSON. *)
Inductive jval :=
  | JNull
  | JNumber (f : float)     (* [float(v)] succeeds with [f] *)
  | JNonNumeric.            (* [float(v)] raises *)

(** What the script reads out of a response body: [BodyInvalid] when
    [resp.json()] raises or the JSON is not an object of objects;
    otherwise [quotas.month.remaining] ([None] when a key on the way is
    absent or the value is null) and the [data] object (empty when
    absent or null). *)
Inductive body :=
  | BodyInvalid
  | BodyObject (remaining : option Z) (data : gmap string (gmap string jval)).

Record response := Response { status_code : Z; resp_body : body }.

Inductive http_result :=
  | TransportFailure
  | Answered (r : response).

(** A CSV file as the csv module sees it: its records (lists of
    fields), and whether reading raises once they have been yielded
    (a truncated or undecodable tail). *)
Record file := File { records : list (list string); torn : bool }.

Inductive event :=
  | EvGet (path : string) (date : option string)
  | EvSleep (why : sleep_kind) (secs : Q)
  | EvWriteCsv (path : string) (rows : gmap string (gmap string value)).

(** Everything outside the script's control. *)
Record env := Env {
  today : Z * Z;                           (* date.today(): year, month *)
  drift : nat -> Q;                        (* time elapsed before the n-th clock read *)
  http : nat -> string -> option string -> http_result;
                                           (* the n-th requests.get *)
  lock_free : bool;                        (* FileLock acquired within its timeout *)
  interfere : gmap string file -> gmap string file;
                                           (* writes of other runs before the lock is held *)
  io_fault : nat -> bool                   (* the n-th file operation raises OSError *)
}.

Record state := State {
  clock : Q;                               (* time.time() at the last read *)
  stamps : list Q;                         (* _request_timestamps *)
  fs : gmap string file;                   (* DATA_DIR *)
  ticks : nat;                             (* clock reads so far *)
  sent : nat;                              (* requests.get calls so far *)
  ios : nat;                               (* file operations so far *)
  issued : list Q;                         (* ghost: every timestamp ever recorded *)
  fs_hist : list (gmap string file);       (* ghost: every file-system state so far *)
  log : list event                         (* ghost: chronological trace *)
}.

Variable cfg : config.
Variable E : env.

(** ** A state-and-exception monad *)

Definition M (A : Type) : Type := state -> result A * state.

Definition ret {A} (a : A) : M A := fun s => (Ok a, s).
Definition raise {A} (e : exn) : M A := fun s => (Raise e, s).
Definition bind {A B} (m : M A) (k : A -> M B) : M B :=
  fun s => match m s with
           | (Ok a, s') => k a s'
           | (Raise e, s') => (Raise e, s')
           end.
(** [try m except Exception as e: h e] *)
Definition try_except {A} (m : M A) (h : exn -> M A) : M A :=
  fun s => match m s with
           | (Ok a, s') => (Ok a, s')
           | (Raise e, s') => h e s'
           end.
(** [try m finally: f] *)
Definition try_finally {A} (m : M A) (f : M unit) : M A :=
  fun s => match m s with
           | (r, s') =>
               match f s' with
               | (Ok _, s'') => (r, s'')
               | (Raise e, s'') => (Raise e, s'')
               end
           end.

#[global] Instance M_ret : MRet M := @ret.
#[global] Instance M_bind : MBind M := fun A B k m => bind m k.

Definition when_ (b : bool) (m : M unit) : M unit := if b then m else ret tt.

(** ** State primitives *)

Definition emit (ev : event) : M unit := fun s =>
  (Ok tt, State (clock s) (stamps s) (fs s) (ticks s) (sent s) (ios s)
                (issued s) (fs_hist s) (log s ++ [ev])).

(** [time.time()] *)
Definition time_time : M Q := fun s =>
  let now := (clock s + drift E (ticks s))%Q in
  (Ok now, State now (stamps s) (fs s) (S (ticks s)) (sent s) (ios s)
                 (issued s) (fs_hist s) (log s)).

(** [time.sleep(secs)]; raises [ValueError] on a negative length. *)
Definition time_sleep (why : sleep_kind) (secs : Q) : M unit := fun s =>
  if Qlt_le_dec secs 0 then (Raise ValueError, s)
  else (Ok tt, State (clock s + secs)%Q (stamps s) (fs s) (ticks s) (sent s) (ios s)
                     (issued s) (fs_hist s) (log s ++ [EvSleep why secs])).

Definition set_stamps (l : list Q) : M unit := fun s =>
  (Ok tt, State (clock s) l (fs s) (ticks s) (sent s) (ios s)
                (issued s) (fs_hist s) (log s)).

Definition get_stamps : M (list Q) := fun s => (Ok (stamps s), s).

(** [requests.get(url, params=..., ...)]: the transport failure is
    returned here and raised by the caller's [match]. *)
Definition requests_get (path : string) (date : option string) : M http_result :=
  fun s =>
  (Ok (http E (sent s) path date),
   State (clock s) (stamps s) (fs s) (ticks s) (S (sent s)) (ios s)
         (issued s) (fs_hist s) (log s ++ [EvGet path date])).

(** ** Rate limiter (source lines 79-100) *)

Definition in_window (now t : Q) : bool :=
  if Qlt_le_dec (now - t) 60 then true else false.

(** [min(l)]; raises [ValueError] on an empty list. *)
Definition qmin (a b : Q) : Q := if Qlt_le_dec b a then b else a.
Definition min_list (l : list Q) : option Q :=
  match l with
  | [] => None
  | t :: l' => Some (fold_left qmin l' t)
  end.

Definition wait_for_rate_slot : M unit :=
  now ← time_time;
  ts ← get_stamps;
  set_stamps (List.filter (in_window now) ts);;
  ts ← get_stamps;
  if Z.of_nat (length ts) <? MAX_PER_MINUTE cfg then ret tt
  else
    match min_list ts with
    | None => raise ValueError
    | Some oldest =>
        let wait_seconds := (60 - (now - oldest) + (5 # 100))%Q in
        time_sleep RateLimitSleep wait_seconds;;
        now ← time_time;
        ts ← get_stamps;
        set_stamps (List.filter (in_window now) ts)
    end.

(** [_request_timestamps.append(t)] *)
Definition append_stamp (t : Q) : M unit := fun s =>
  (Ok tt, State (clock s) (stamps s ++ [t]) (fs s) (ticks s) (sent s) (ios s)
                (issued s ++ [t]) (fs_hist s) (log s)).

Definition record_request_timestamp : M unit :=
  t ← time_time;
  append_stamp t.

(** ** Resilient request (source lines 103-134) *)

Definition backoff (attempt : Z) : Q :=
  (RETRY_BASE_SECONDS cfg * inject_Z (2 ^ (attempt - 1)))%Q.

(** The [while True] loop; [attempt] is the counter before its
    increment.  [fuel] bounds the iterations; [do_request] gives it
    enough for the loop to leave by itself. *)
Fixpoint do_request_loop (fuel : nat) (attempt : Z) (path : string)
    (date : option string) (count_against_rate : bool) : M response :=
  match fuel with
  | O => raise OutOfFuel
  | S fuel =>
      let attempt := attempt + 1 in
      when_ count_against_rate wait_for_rate_slot;;
      got ← requests_get path date;
      match got with
      | TransportFailure =>
          if attempt <=? MAX_RETRIES cfg then
            time_sleep RetrySleep (backoff attempt);;
            do_request_loop fuel attempt path date count_against_rate
          else raise RequestException
      | Answered resp =>
          when_ count_against_rate record_request_timestamp;;
          if (status_code resp >=? 500) && (attempt <=? MAX_RETRIES cfg) then
            time_sleep RetrySleep (backoff attempt);;
            do_request_loop fuel attempt path date count_against_rate
          else ret resp
      end
  end.

Definition do_request (path : string) (date : option string)
    (count_against_rate : bool) : M response :=
  do_request_loop (S (Z.to_nat (MAX_RETRIES cfg))) 0 path date count_against_rate.

(** ** API helpers (source lines 140-191) *)

Definition get_status : M (option (option Z)) :=
  r ← try_except (resp ← do_request "/status" None false; ret (Some resp))
                 (fun _ => ret None);
  match r with
  | None => ret None
  | Some r =>
      if negb (status_code r =? 200) then ret None
      else match resp_body r with
           | BodyInvalid => raise JSONDecodeError
           | BodyObject remaining _ => ret (Some remaining)
           end
  end.

(** The [for c in CURRENCIES] loop building [row]. *)
Fixpoint fill_row (day : gmap string jval) (row : gmap string value)
    (cs : list string) : result (gmap string value) :=
  match cs with
  | [] => Ok row
  | c :: cs =>
      match day !! c with
      | None | Some JNull => fill_row day (<[c := blank]> row) cs
      | Some (JNumber f) => fill_row day (<[c := VFloat f]> row) cs
      | Some JNonNumeric => Raise TypeError
      end
  end.

Definition get_historical_for_date (date_iso : string) : M (gmap string value) :=
  resp ← do_request "/historical" (Some date_iso) true;
  if status_code resp =? 429 then raise (RuntimeError 429)
  else if negb (status_code resp =? 200) then raise (RuntimeError (status_code resp))
  else
    match resp_body resp with
    | BodyInvalid => raise JSONDecodeError
    | BodyObject _ data =>
        let day := default ∅ (data !! date_iso) in
        let day := <[BASE_CURRENCY cfg := JNumber float_one]> day in
        match fill_row day {["date" := VStr date_iso]} (CURRENCIES cfg) with
        | Ok row => ret row
        | Raise e => raise e
        end
    end.

(** ** CSV helpers (source lines 197-254) *)

Definition csv_path_for (year month : Z) : Path :=
  MkPath (DATA_DIR cfg) (fmt_int 4 year +:+ "-" +:+ fmt_int 2 month) ".csv".

(** One row of [csv.DictReader]: [dict(zip(fieldnames, row))], then the
    fields missing from a short row set to [None].  (The surplus of a
    long row goes under the key [None], which the script never reads.) *)
Definition dict_row (fieldnames row : list string) : gmap string (option string) :=
  foldl (fun d key => <[key := None]> d)
        (list_to_map (reverse (zip fieldnames (Some <$> row))))
        (drop (length row) fieldnames).

(** The rows [csv.DictReader] yields: the first record is the header,
    empty records are skipped. *)
Definition dict_reader (recs : list (list string)) : list (gmap string (option string)) :=
  match recs with
  | [] => []
  | fieldnames :: rows =>
      dict_row fieldnames <$> List.filter (fun r => negb (bool_decide (r = []))) rows
  end.

(** The body of the [for c in CURRENCIES] loop of [read_csv_rows]. *)
Definition normalize_cell (r : gmap string (option string)) (c : string) : value :=
  match default (Some "") (r !! c) with
  | None => blank
  | Some val =>
      if bool_decide (val = "") then blank
      else match float_of_string val with
           | Some f => VFloat f
           | None => VStr val
           end
  end.

Definition normalize_row (d : string) (r : gmap string (option string)) : gmap string value :=
  foldl (fun normalized c => <[c := normalize_cell r c]> normalized)
        {["date" := VStr d]} (CURRENCIES cfg).

(** The body of the [for r in reader] loop. *)
Definition read_step (result : gmap string (gmap string value))
    (r : gmap string (option string)) : gmap string (gmap string value) :=
  match mjoin (r !! "date") with
  | None => result
  | Some d =>
      if bool_decide (d = "") then result
      else <[d := normalize_row d r]> result
  end.

(** [read_csv_rows]: the dict it returns, and whether it logged the
    "Failed to read CSV" warning. *)
Definition read_csv_rows (files : gmap string file) (path : Path)
    : gmap string (gmap string value) * bool :=
  match files !! path_str path with
  | None => (∅, false)
  | Some f => (foldl read_step ∅ (dict_reader (records f)), torn f)
  end.

(** File operations.  Each consults the fault oracle once; every change
    of the file system is recorded in [fs_hist]. *)
Definition io_step : M bool := fun s =>
  (Ok (io_fault E (ios s)),
   State (clock s) (stamps s) (fs s) (ticks s) (sent s) (S (ios s))
         (issued s) (fs_hist s) (log s)).

Definition set_fs (files : gmap string file) : M unit := fun s =>
  (Ok tt, State (clock s) (stamps s) files (ticks s) (sent s) (ios s)
                (issued s) (fs_hist s ++ [files]) (log s)).

Definition get_fs : M (gmap string file) := fun s => (Ok (fs s), s).

Definition mark_torn (p : string) (files : gmap string file) : gmap string file :=
  match files !! p with
  | None => files
  | Some f => <[p := File (records f) true]> files
  end.

(** [open(p, "w")] *)
Definition fs_open_w (p : string) : M unit :=
  bad ← io_step;
  if bad : bool then raise OSError
  else files ← get_fs; set_fs (<[p := File [] false]> files).

(** One [writer.writerow] reaching the file; a failing write may leave
    a truncated record behind. *)
Definition fs_write (p : string) (rec : list string) : M unit :=
  bad ← io_step;
  files ← get_fs;
  if bad : bool then set_fs (mark_torn p files);; raise OSError
  else match files !! p with
       | None => raise OSError
       | Some f => set_fs (<[p := File (records f ++ [rec]) (torn f)]> files)
       end.

(** Leaving the [with open(...)] block: flush and close. *)
Definition fs_close (p : string) : M unit :=
  bad ← io_step;
  files ← get_fs;
  if bad : bool then set_fs (mark_torn p files);; raise OSError
  else ret tt.

(** [src.replace(dst)]: an atomic rename. *)
Definition fs_replace (src dst : string) : M unit :=
  bad ← io_step;
  files ← get_fs;
  if bad : bool then raise OSError
  else match files !! src with
       | None => raise OSError
       | Some f => set_fs (<[dst := f]> (delete src files))
       end.

Definition fs_exists (p : string) : M bool :=
  files ← get_fs; ret (bool_decide (is_Some (files !! p))).

Definition fs_unlink (p : string) : M unit :=
  bad ← io_step;
  files ← get_fs;
  if bad : bool then raise OSError
  else set_fs (delete p files).

(** What [csv.writer] prints for a cell. *)
Definition render (v : option value) : string :=
  match v with
  | None => ""
  | Some (VStr s) => s
  | Some (VFloat f) => float_repr f
  end.

(** [csv.DictWriter._dict_to_list] with [extrasaction="raise"]. *)
Definition dict_to_list (fieldnames : list string) (rowdict : gmap string value)
    : option (list string) :=
  if decide (dom rowdict ⊆ list_to_set fieldnames) then
    Some ((fun key => render (rowdict !! key)) <$> fieldnames)
  else None.

(** The [for d in dates_sorted] loop of [write_csv_rows]. *)
Fixpoint write_rows (tmp : string) (header : list string)
    (rows_by_date : gmap string (gmap string value)) (dates : list string) : M unit :=
  match dates with
  | [] => ret tt
  | d :: dates =>
      match rows_by_date !! d with
      | None => raise KeyError
      | Some row =>
          match dict_to_list header row with
          | None => raise ValueError
          | Some rec => fs_write tmp rec;; write_rows tmp header rows_by_date dates
          end
      end
  end.

Definition write_csv_rows (path : Path) (rows_by_date : gmap string (gmap string value))
    : M unit :=
  emit (EvWriteCsv (path_str path) rows_by_date);;
  let header := "date" :: CURRENCIES cfg in
  let tmp := path_str (with_suffix path ".tmp") in
  let dates_sorted := sort_strings (map_to_list rows_by_date).*1 in
  try_finally
    (fs_open_w tmp;;
     fs_write tmp header;;
     write_rows tmp header rows_by_date dates_sorted;;
     fs_close tmp;;
     fs_replace tmp (path_str path))
    (there ← fs_exists tmp;
     if there : bool then try_except (fs_unlink tmp) (fun _ => ret tt) else ret tt).

(** ** Month iteration (source lines 260-278) *)

(** The [while] loop of [months_since], from the point where the
    generator holds [(y, m)]. *)
Fixpoint months_loop (fuel : nat) (ty tm y m : Z) : list (Z * Z) :=
  match fuel with
  | O => []
  | S fuel =>
      if (y <? ty) || ((y =? ty) && (m <=? tm)) then
        (y, m) :: (if m =? 12 then months_loop fuel ty tm (y + 1) 1
                   else months_loop fuel ty tm y (m + 1))
      else []
  end.

Definition months_since (year_start : Z) : list (Z * Z) :=
  let '(ty, tm) := today E in
  months_loop (Z.to_nat ((ty - year_start + 1) * 12)) ty tm year_start 1.

(** ** Main logic (source lines 284-391) *)

(** [[d for d in all_dates if d not in existing]] *)
Definition missing_in (existing : gmap string (gmap string value))
    (all_dates : list string) : list string :=
  List.filter (fun d => bool_decide (existing !! d = None)) all_dates.

(** The [for (y, m) in months_since(START_YEAR)] loop (lines 296-305):
    the first month with a missing day. *)
Fixpoint find_target (files : gmap string file) (months : list (Z * Z))
    : result (option (Z * Z * list string * gmap string (gmap string value))) :=
  match months with
  | [] => Ok None
  | (y, m) :: months =>
      let existing := (read_csv_rows files (csv_path_for y m)).1 in
      match dates_in_month y m with
      | None => Raise ValueError
      | Some all_dates =>
          match missing_in existing all_dates with
          | [] => find_target files months
          | missing => Ok (Some (y, m, missing, existing))
          end
      end
  end.

Definition locate : M (option (Z * Z * list string * gmap string (gmap string value))) :=
  files ← get_fs;
  match find_target files (months_since (START_YEAR cfg)) with
  | Ok target => ret target
  | Raise e => raise e
  end.

(** Lines 316-341, on the sorted list of missing dates. *)
Definition budget (remaining : option Z) (missing_dates : list string) : decision :=
  let need := Z.of_nat (length missing_dates) in
  match remaining with
  | None => Stop 1
  | Some remaining =>
      if remaining <? SAFETY_BUFFER cfg then Stop 0
      else
        let available := remaining - SAFETY_BUFFER cfg in
        if available <=? 0 then Stop 0
        else if available <? need then
          if negb (ALLOW_PARTIAL_MONTH cfg) then Stop 0
          else Fetch (slice_to missing_dates available)
        else Fetch missing_dates
  end.

(** Lines 311-341: sort the target's missing dates, then budget. *)
Definition plan (remaining : option Z) (missing : list string) : decision :=
  budget remaining (sort_strings missing).

(** The [for dt in missing_dates] loop with its [except Exception]
    (lines 362-371): the rows fetched, and the exception that ended the
    loop early, if any. *)
Fixpoint fetch_loop (dates : list string) (rows_fetched : gmap string (gmap string value))
    : M (option exn * gmap string (gmap string value)) :=
  match dates with
  | [] => ret (None, rows_fetched)
  | dt :: dates =>
      r ← try_except (row ← get_historical_for_date dt; ret (Ok row))
                     (fun e => ret (Raise e));
      match r with
      | Ok row => fetch_loop dates (<[dt := row]> rows_fetched)
      | Raise e => ret (Some e, rows_fetched)
      end
  end.

(** The dates still to fetch once the month has been re-read
    (lines 351-357). *)
Definition revalidate (existing_rows : gmap string (gmap string value))
    (all_dates missing_dates : list string) : list string :=
  let missing_dates_current := missing_in existing_rows all_dates in
  sort_strings
    (List.filter (fun d => bool_decide (d ∈ missing_dates_current)) missing_dates).

(** The body of [with lock:] (lines 349-382). *)
Definition locked_section (year month : Z) (missing_dates : list string) : M Z :=
  let path := csv_path_for year month in
  files ← get_fs;
  let existing_rows := (read_csv_rows files path).1 in
  match dates_in_month year month with
  | None => raise ValueError
  | Some all_dates =>
      match revalidate existing_rows all_dates missing_dates with
      | [] => ret 0
      | missing_dates =>
          '(err, rows_fetched) ← fetch_loop missing_dates ∅;
          match err with
          | Some _ =>
              when_ (negb (size rows_fetched =? 0)%nat)
                    (write_csv_rows path (rows_fetched ∪ existing_rows));;
              ret 1
          | None =>
              write_csv_rows path (rows_fetched ∪ existing_rows);;
              ret 0
          end
      end
  end.

(** [FileLock.acquire]: by the time the lock is held, other runs may
    have changed the archive. *)
Definition acquire_lock : M bool :=
  if lock_free E then
    files ← get_fs; set_fs (interfere E files);; ret true
  else ret false.

(** Lines 343-391. *)
Definition under_lock (year month : Z) (missing_dates : list string) : M Z :=
  held ← acquire_lock;
  if held : bool then
    try_except (locked_section year month missing_dates) (fun _ => ret 1)
  else ret 1.

(** Lines 285-341: everything before the lock; an exit code, or the
    target month with the dates planned for this run. *)
Definition pre_lock : M (Z + Z * Z * list string) :=
  status ← get_status;
  match status with
  | None => ret (inl 1)
  | Some remaining =>
      target ← locate;
      match target with
      | None => ret (inl 0)
      | Some (year, month, missing_dates, _) =>
          match plan remaining missing_dates with
          | Stop code => ret (inl code)
          | Fetch dates => ret (inr (year, month, dates))
          end
      end
  end.

(** [main]: [Ok code] is [return code]; [Raise e] is an exception that
    leaves [main] uncaught. *)
Definition main : M Z :=
  r ← pre_lock;
  match r with
  | inl code => ret code
  | inr (year, month, dates) => under_lock year month dates
  end.

(** The state in which a fresh process starts [main]. *)
Definition initial_state (t0 : Q) (files : gmap string file) : state :=
  State t0 [] files 0 0 0 [] [files] [].

End Model.

(** ** A concrete float interface and concrete worlds, for closed examples *)

(** Floats stood for by the decimal literal that denotes them:
    [float(s)] succeeds on an optional sign followed by digits with at
    most one point and at least one digit (Python accepts more
    spellings; none is used below), and [repr] prints the literal. *)
Definition is_digit (a : ascii) : bool :=
  let n := nat_of_ascii a in (48 <=? n)%nat && (n <=? 57)%nat.

Fixpoint scan_literal (s : string) (ndigits ndots : nat) : bool :=
  match s with
  | EmptyString => (0 <? ndigits)%nat && (ndots <=? 1)%nat
  | String a s =>
      if is_digit a then scan_literal s (S ndigits) ndots
      else if Ascii.eqb a "."%char then scan_literal s ndigits (S ndots)
      else false
  end.

Definition literal_of_string (s : string) : option string :=
  match s with
  | String a s' =>
      if Ascii.eqb a "-"%char || Ascii.eqb a "+"%char
      then (if scan_literal s' 0 0 then Some s else None)
      else (if scan_literal s 0 0 then Some s else None)
  | EmptyString => None
  end.

Definition LiteralFloat : FloatOps :=
  {| float := string;
     float_of_string := literal_of_string;
     float_repr := fun f => f;
     float_one := "1.0" |}.

(** * Properties *)

Section Properties.
Context `{FloatOps}.
Variable cfg : config.
Variable E : env.

Lemma sort_strings_perm (l : list string) : sort_strings l ≡ₚ l.
Proof. apply merge_sort_Permutation. Qed.

Lemma sort_strings_sorted (l : list string) : StronglySorted String.le (sort_strings l).
Proof. apply StronglySorted_merge_sort; apply _. Qed.

Lemma sort_strings_length (l : list string) : length (sort_strings l) = length l.
Proof. apply Permutation_length, sort_strings_perm. Qed.

Lemma slice_to_pos {A} (l : list A) (n : Z) :
  0 <= n -> slice_to l n = take (Z.to_nat n) l.
Proof. intros Hn. unfold slice_to. destruct (Z.leb_spec 0 n); [done | lia]. Qed.

(** The four outcomes of the budgeting step, as equations. *)
Lemma plan_cases (remaining : Z) (missing : list string) :
  let available := remaining - SAFETY_BUFFER cfg in
  let need := Z.of_nat (length missing) in
  plan cfg (Some remaining) missing =
    if decide (remaining < SAFETY_BUFFER cfg \/ available <= 0) then Stop 0
    else if decide (need <= available) then Fetch (sort_strings missing)
    else if ALLOW_PARTIAL_MONTH cfg
         then Fetch (take (Z.to_nat available) (sort_strings missing))
         else Stop 0.
Proof.
  intros available need. unfold plan, budget.
  rewrite sort_strings_length. fold need. fold available.
  destruct (Z.ltb_spec remaining (SAFETY_BUFFER cfg)).
  { rewrite decide_True by auto. done. }
  destruct (Z.leb_spec available 0).
  { rewrite decide_True by auto. done. }
  rewrite decide_False by lia.
  destruct (Z.ltb_spec available need).
  - rewrite decide_False by lia.
    destruct (ALLOW_PARTIAL_MONTH cfg); simpl; [|done].
    by rewrite slice_to_pos by lia.
  - by rewrite decide_True by lia.
Qed.

(** Calendar order on (year, month) pairs. *)
Definition month_lt (a b : Z * Z) : Prop :=
  a.1 < b.1 \/ (a.1 = b.1 /\ a.2 < b.2).
Definition month_le (a b : Z * Z) : Prop :=
  a.1 < b.1 \/ (a.1 = b.1 /\ a.2 <= b.2).

Lemma months_loop_elem (ty tm : Z) (fuel : nat) : forall y0 m0 y m,
  1 <= m0 <= 12 -> 1 <= tm <= 12 ->
  (ty - y0) * 12 + tm - m0 + 1 <= Z.of_nat fuel ->
  ((y, m) ∈ months_loop fuel ty tm y0 m0 <->
   month_le (y0, m0) (y, m) /\ 1 <= m <= 12 /\ month_le (y, m) (ty, tm)).
Proof.
  unfold month_le. induction fuel as [|fuel IH]; intros y0 m0 y m Hm0 Htm Hfuel; simpl.
  { rewrite elem_of_nil. lia. }
  destruct ((y0 <? ty) || ((y0 =? ty) && (m0 <=? tm))) eqn:Hc.
  - rewrite elem_of_cons. destruct (Z.eqb_spec m0 12).
    + rewrite IH by lia. simpl.
      split; [intros [[= -> ->] | ?]|intros ?]; [lia | lia |].
      destruct (decide (y = y0 /\ m = m0)) as [[-> ->]|]; [by left | right; lia].
    + rewrite IH by lia. simpl.
      split; [intros [[= -> ->] | ?]|intros ?]; [lia | lia |].
      destruct (decide (y = y0 /\ m = m0)) as [[-> ->]|]; [by left | right; lia].
  - rewrite elem_of_nil. simpl. lia.
Qed.

Lemma months_loop_sorted (ty tm : Z) (fuel : nat) : forall y0 m0,
  1 <= m0 <= 12 ->
  StronglySorted month_lt (months_loop fuel ty tm y0 m0) /\
  Forall (month_le (y0, m0)) (months_loop fuel ty tm y0 m0).
Proof.
  unfold month_lt, month_le.
  induction fuel as [|fuel IH]; intros y0 m0 Hm0; simpl.
  { split; constructor. }
  destruct ((y0 <? ty) || ((y0 =? ty) && (m0 <=? tm))); [|split; constructor].
  destruct (Z.eqb_spec m0 12).
  - destruct (IH (y0 + 1) 1) as [Hs Hf]; [lia|].
    split; constructor; simpl; try done; try lia.
    + eapply Forall_impl; [exact Hf|]. simpl. intros [??]; simpl. lia.
    + eapply Forall_impl; [exact Hf|]. simpl. intros [??]; simpl. lia.
  - destruct (IH y0 (m0 + 1)) as [Hs Hf]; [lia|].
    split; constructor; simpl; try done; try lia.
    + eapply Forall_impl; [exact Hf|]. simpl. intros [??]; simpl. lia.
    + eapply Forall_impl; [exact Hf|]. simpl. intros [??]; simpl. lia.
Qed.

(** [months_since] yields exactly the months from January of the start
    year through the current month, in strictly ascending order. *)
Lemma months_since_spec (year_start : Z) :
  1 <= (today E).2 <= 12 ->
  (forall y m, (y, m) ∈ months_since E year_start <->
     year_start <= y /\ 1 <= m <= 12 /\ month_le (y, m) (today E)) /\
  StronglySorted month_lt (months_since E year_start).
Proof.
  unfold months_since. destruct (today E) as [ty tm]; simpl. intros Htm. split.
  - intros y m.
    destruct (decide (year_start <= ty)).
    + rewrite months_loop_elem by lia. unfold month_le; simpl. lia.
    + replace (Z.to_nat ((ty - year_start + 1) * 12)) with 0%nat by lia.
      simpl. rewrite elem_of_nil. unfold month_le; simpl. lia.
  - apply months_loop_sorted. lia.
Qed.

(** The dates of a month that the archive does not hold. *)
Definition month_missing (files : gmap string file) (y m : Z) : list string :=
  missing_in (read_csv_rows cfg files (csv_path_for cfg y m)).1
             (default [] (dates_in_month y m)).

Lemma isoformat_is_Some (y m d : Z) : 1 <= y <= 9999 -> is_Some (isoformat y m d).
Proof.
  intros Hy. unfold isoformat.
  destruct (Z.leb_spec 1 y); [|lia]. destruct (Z.leb_spec y 9999); [|lia]. simpl. eauto.
Qed.

Lemma dates_in_month_is_Some (y m : Z) : 1 <= y <= 9999 -> is_Some (dates_in_month y m).
Proof.
  intros Hy. unfold dates_in_month. apply mapM_is_Some.
  apply Forall_forall. intros d _. by apply isoformat_is_Some.
Qed.

Lemma find_target_spec (files : gmap string file) (months : list (Z * Z)) :
  Forall (fun ym => is_Some (dates_in_month ym.1 ym.2)) months ->
  match find_target cfg files months with
  | Ok None => Forall (fun ym => month_missing files ym.1 ym.2 = []) months
  | Ok (Some (y, m, missing, existing)) =>
      exists pre post, months = pre ++ (y, m) :: post /\
        Forall (fun ym => month_missing files ym.1 ym.2 = []) pre /\
        missing = month_missing files y m /\ missing <> [] /\
        existing = (read_csv_rows cfg files (csv_path_for cfg y m)).1
  | Raise _ => False
  end.
Proof.
  induction months as [|[y m] months IH]; intros Hv; simpl; [constructor|].
  inversion Hv as [|?? [dates Hd] Hv']; subst. simpl in Hd. rewrite Hd.
  destruct (missing_in _ dates) as [|d0 rest] eqn:Hmiss.
  - specialize (IH Hv').
    destruct (find_target cfg files months) as [[[[[y' m'] missing] existing]|]|]; [| |done].
    + destruct IH as (pre & post & -> & Hpre & ?).
      exists ((y, m) :: pre), post. split; [done|]. split; [|done].
      constructor; [|done]. unfold month_missing. simpl. by rewrite Hd.
    + constructor; [|done]. unfold month_missing. simpl. by rewrite Hd.
  - exists [], months. split_and!; try done.
    unfold month_missing. by rewrite Hd.
Qed.

(** ** Reasoning about computations *)

Lemma bind_unfold {A B} (m : M A) (k : A -> M B) (s : state) :
  (m ≫= k) s = match m s with
               | (Ok a, s') => k a s'
               | (Raise e, s') => (Raise e, s')
               end.
Proof. reflexivity. Qed.

(** [steps R m]: running [m] takes any state to an [R]-related one. *)
Definition steps (R : relation state) {A} (m : M A) : Prop :=
  forall s, R s (m s).2.

Section Steps.
Context (R : relation state) `{!PreOrder R}.

Lemma steps_ret {A} (a : A) : steps R (ret a : M A).
Proof. intros s. simpl. reflexivity. Qed.

Lemma steps_mret {A} (a : A) : steps R (mret a : M A).
Proof. intros s. simpl. reflexivity. Qed.

Lemma steps_raise {A} (e : exn) : steps R (raise e : M A).
Proof. intros s. simpl. reflexivity. Qed.

Lemma steps_bind {A B} (m : M A) (k : A -> M B) :
  steps R m -> (forall a, steps R (k a)) -> steps R (m ≫= k).
Proof.
  intros Hm Hk s. rewrite bind_unfold. specialize (Hm s).
  destruct (m s) as [[a|e] s1]; simpl in *; [|done].
  etrans; [exact Hm | apply Hk].
Qed.

Lemma steps_try_except {A} (m : M A) (h : exn -> M A) :
  steps R m -> (forall e, steps R (h e)) -> steps R (try_except m h).
Proof.
  intros Hm Hh s. unfold try_except. specialize (Hm s).
  destruct (m s) as [[a|e] s1]; simpl in *; [done|].
  etrans; [exact Hm | apply Hh].
Qed.

Lemma steps_try_finally {A} (m : M A) (f : M unit) :
  steps R m -> steps R f -> steps R (try_finally m f).
Proof.
  intros Hm Hf s. unfold try_finally. specialize (Hm s).
  destruct (m s) as [r s1]; simpl in *. specialize (Hf s1).
  destruct (f s1) as [[[]|e] s2]; simpl in *; by etrans.
Qed.

Lemma steps_when_ (b : bool) (m : M unit) : steps R m -> steps R (when_ b m).
Proof. intros Hm. destruct b; [done | apply steps_ret]. Qed.
End Steps.

(** A step that only talks to the network, and only to [path]: files
    untouched, and the trace grows by requests to [path] and sleeps. *)
Definition net_event (path : string) (ev : event) : Prop :=
  match ev with
  | EvGet p _ => p = path
  | EvSleep _ _ => True
  | EvWriteCsv _ _ => False
  end.

Definition net_only (path : string) (s s' : state) : Prop :=
  fs s' = fs s /\ fs_hist s' = fs_hist s /\ ios s' = ios s /\
  exists evs, log s' = log s ++ evs /\ Forall (net_event path) evs.

#[local] Instance net_only_preorder (path : string) : PreOrder (net_only path).
Proof.
  split.
  - intros s. unfold net_only. split_and!; try done.
    exists []. by rewrite app_nil_r.
  - intros s1 s2 s3 (? & ? & ? & evs & ? & ?) (? & ? & ? & evs' & ? & ?).
    unfold net_only. split_and!; try congruence.
    exists (evs ++ evs'). split; [|by apply Forall_app].
    rewrite app_assoc. congruence.
Qed.

Lemma net_only_quiet (path : string) (s s' : state) :
  fs s' = fs s -> fs_hist s' = fs_hist s -> ios s' = ios s -> log s' = log s ->
  net_only path s s'.
Proof.
  intros. unfold net_only. split_and!; try done.
  exists []. by rewrite app_nil_r.
Qed.

Lemma net_only_emit (path : string) (s s' : state) (ev : event) :
  fs s' = fs s -> fs_hist s' = fs_hist s -> ios s' = ios s ->
  log s' = log s ++ [ev] -> net_event path ev ->
  net_only path s s'.
Proof.
  intros. unfold net_only. split_and!; try done.
  exists [ev]. split; [done | by constructor].
Qed.

(** Decomposes a [steps] goal along the structure of the computation;
    the leaves are closed from the hint database [frame]. *)
Create HintDb frame.

Ltac frame_step :=
  first
    [ solve [auto with frame]
    | apply steps_ret | apply steps_mret | apply steps_raise
    | apply steps_bind | apply steps_try_except | apply steps_try_finally
    | apply steps_when_
    | match goal with |- PreOrder _ => typeclasses eauto end
    | match goal with |- steps _ (match ?x with _ => _ end) => destruct x end
    | match goal with |- steps _ (let _ := _ in _) => cbv zeta end
    | progress intros ].

Ltac frame := repeat frame_step.

Lemma time_time_net path : steps (net_only path) (time_time E).
Proof. intros s. by apply net_only_quiet. Qed.

Lemma time_sleep_net path why secs : steps (net_only path) (time_sleep why secs).
Proof.
  intros s. unfold time_sleep. destruct (Qlt_le_dec secs 0); simpl.
  - reflexivity.
  - by eapply net_only_emit.
Qed.

Lemma set_stamps_net path l : steps (net_only path) (set_stamps l).
Proof. intros s. by apply net_only_quiet. Qed.

Lemma get_stamps_net path : steps (net_only path) get_stamps.
Proof. intros s. by apply net_only_quiet. Qed.

Lemma append_stamp_net path t : steps (net_only path) (append_stamp t).
Proof. intros s. by apply net_only_quiet. Qed.

Lemma requests_get_net path date : steps (net_only path) (requests_get E path date).
Proof. intros s. by eapply net_only_emit. Qed.

Hint Resolve time_time_net time_sleep_net set_stamps_net get_stamps_net
  append_stamp_net requests_get_net : frame.

Lemma wait_for_rate_slot_net path : steps (net_only path) (wait_for_rate_slot cfg E).
Proof. unfold wait_for_rate_slot. frame. Qed.

Lemma record_request_timestamp_net path :
  steps (net_only path) (record_request_timestamp E).
Proof. unfold record_request_timestamp. frame. Qed.

Hint Resolve wait_for_rate_slot_net record_request_timestamp_net : frame.

Lemma do_request_loop_net fuel : forall attempt path date count,
  steps (net_only path) (do_request_loop cfg E fuel attempt path date count).
Proof.
  induction fuel as [|fuel IH]; intros attempt path date count; simpl; frame.
Qed.

Lemma do_request_net path date count :
  steps (net_only path) (do_request cfg E path date count).
Proof. apply do_request_loop_net. Qed.

Hint Resolve do_request_net : frame.

Lemma get_status_net : steps (net_only "/status") (get_status cfg E).
Proof. unfold get_status. frame. Qed.

Lemma get_historical_net date_iso :
  steps (net_only "/historical") (get_historical_for_date cfg E date_iso).
Proof. unfold get_historical_for_date. frame. Qed.

Hint Resolve get_status_net get_historical_net : frame.

Lemma fetch_loop_net dates : forall rows,
  steps (net_only "/historical") (fetch_loop cfg E dates rows).
Proof. induction dates as [|dt dates IH]; intros rows; simpl; frame. Qed.

(** ** Unfolding [main] *)

Lemma pre_lock_eval (s : state) :
  pre_lock cfg E s =
    match get_status cfg E s with
    | (Ok None, s1) => (Ok (inl 1), s1)
    | (Ok (Some remaining), s1) =>
        match find_target cfg (fs s1) (months_since E (START_YEAR cfg)) with
        | Ok None => (Ok (inl 0), s1)
        | Ok (Some (year, month, missing_dates, _)) =>
            match plan cfg remaining missing_dates with
            | Stop code => (Ok (inl code), s1)
            | Fetch dates => (Ok (inr (year, month, dates)), s1)
            end
        | Raise e => (Raise e, s1)
        end
    | (Raise e, s1) => (Raise e, s1)
    end.
Proof.
  unfold pre_lock. rewrite bind_unfold.
  destruct (get_status cfg E s) as [[[remaining|]|e] s1]; try reflexivity.
  unfold locate, get_fs, mbind, M_bind, bind.
  destruct (find_target cfg (fs s1) _) as [[[[[y m] missing] existing]|]|];
    try reflexivity.
  unfold ret; simpl. by destruct (plan cfg remaining missing).
Qed.

Lemma main_eval (s : state) :
  main cfg E s =
    match pre_lock cfg E s with
    | (Ok (inl code), s1) => (Ok code, s1)
    | (Ok (inr (year, month, dates)), s1) => under_lock cfg E year month dates s1
    | (Raise e, s1) => (Raise e, s1)
    end.
Proof.
  unfold main. rewrite bind_unfold.
  by destruct (pre_lock cfg E s) as [[[code|[[y m] dates]]|e] s1].
Qed.

(** ** Quota budgeting *)

(** C1. The quota budgeting step: with [available = remaining -
    SAFETY_BUFFER] it stops with exit code 0 when [remaining] is below
    the buffer or [available <= 0], and when [available] is less than
    the number of missing dates while partial months are not allowed;
    otherwise it proceeds with all missing dates when they fit and with
    [available] of them when partial months are allowed.  The dates it
    proceeds with are a prefix of the ascending sort of the missing
    dates, that is the N earliest ones; with remaining 5, buffer 1, ten
    missing dates and partial months allowed these are the 4 earliest. *)
Theorem budget_decides_as_specified (remaining : Z) (missing : list string) :
  let available := remaining - SAFETY_BUFFER cfg in
  let need := Z.of_nat (length missing) in
  (remaining < SAFETY_BUFFER cfg \/ available <= 0 ->
     plan cfg (Some remaining) missing = Stop 0) /\
  (0 < available -> available < need -> ALLOW_PARTIAL_MONTH cfg = false ->
     plan cfg (Some remaining) missing = Stop 0) /\
  (0 < available -> need <= available ->
     plan cfg (Some remaining) missing = Fetch (sort_strings missing)) /\
  (0 < available -> available < need -> ALLOW_PARTIAL_MONTH cfg = true ->
     plan cfg (Some remaining) missing =
       Fetch (take (Z.to_nat available) (sort_strings missing))) /\
  (forall dates, plan cfg (Some remaining) missing = Fetch dates ->
     0 < available /\
     (available < need -> ALLOW_PARTIAL_MONTH cfg = true) /\
     Z.of_nat (length dates) = Z.min available need /\
     exists rest, dates ++ rest = sort_strings missing /\
                  dates ++ rest ≡ₚ missing /\
                  StronglySorted String.le (dates ++ rest) /\
                  (forall d d', d ∈ dates -> d' ∈ rest -> String.le d d')) /\
  (remaining = 5 -> SAFETY_BUFFER cfg = 1 -> length missing = 10%nat ->
   ALLOW_PARTIAL_MONTH cfg = true ->
     plan cfg (Some remaining) missing = Fetch (take 4 (sort_strings missing))) /\
  (forall s s1 y m existing code,
     get_status cfg E s = (Ok (Some (Some remaining)), s1) ->
     find_target cfg (fs s1) (months_since E (START_YEAR cfg))
       = Ok (Some (y, m, missing, existing)) ->
     plan cfg (Some remaining) missing = Stop code ->
     main cfg E s = (Ok code, s1) /\ net_only "/status" s s1).
Proof.
  intros available need. pose proof (plan_cases remaining missing) as Hp.
  cbv zeta in Hp. fold available need in Hp.
  split_and!.
  - intros Hc. rewrite Hp. by rewrite decide_True.
  - intros ? ? Hno. rewrite Hp, decide_False, decide_False, Hno by lia. done.
  - intros ? ?. rewrite Hp, decide_False, decide_True by lia. done.
  - intros ? ? Hyes. rewrite Hp, decide_False, decide_False, Hyes by lia. done.
  - intros dates Hd. rewrite Hp in Hd.
    assert (0 < available /\ (available < need -> ALLOW_PARTIAL_MONTH cfg = true) /\
            exists n, dates = take n (sort_strings missing) /\
                      Z.of_nat (length dates) = Z.min available need)
      as (Hpos & Hpart & n & -> & Hlen).
    { repeat case_decide; try done.
      - injection Hd as <-. split_and!; [lia..|].
        exists (length (sort_strings missing)).
        rewrite firstn_all, sort_strings_length. split; [done | lia].
      - destruct (ALLOW_PARTIAL_MONTH cfg); [|done]. injection Hd as <-.
        split_and!; [lia | done |]. eexists; split; [done|].
        rewrite length_take, sort_strings_length. lia. }
    split_and!; try done.
    exists (drop n (sort_strings missing)).
    rewrite take_drop. split_and!; [done | apply sort_strings_perm | apply sort_strings_sorted |].
    intros d d' Hin Hin'.
    pose proof (sort_strings_sorted missing) as Hs.
    rewrite <- (take_drop n (sort_strings missing)) in Hs.
    by eapply (StronglySorted_app_1_elem_of String.le) in Hs.
  - intros -> Hb Hl Hyes. rewrite Hp.
    subst available need. rewrite Hb, Hl, Hyes.
    rewrite decide_False, decide_False by lia. done.
  - intros s s1 y m existing code Hstatus Htarget Hstop.
    pose proof (get_status_net s) as Hnet. rewrite Hstatus in Hnet.
    split; [|done].
    by rewrite main_eval, pre_lock_eval, Hstatus, Htarget, Hstop.
Qed.


(** ** Month location *)

Lemma month_lt_asym (a b : Z * Z) : month_lt a b -> month_lt b a -> False.
Proof. unfold month_lt. lia. Qed.

Lemma month_lt_irrefl (a : Z * Z) : month_lt a a -> False.
Proof. unfold month_lt. lia. Qed.

Lemma months_since_valid :
  1 <= START_YEAR cfg -> (today E).1 <= 9999 -> 1 <= (today E).2 <= 12 ->
  Forall (fun ym => is_Some (dates_in_month ym.1 ym.2))
         (months_since E (START_YEAR cfg)).
Proof.
  intros Hs Hy Hm. apply Forall_forall. intros [y m] Hin. simpl.
  apply (months_since_spec (START_YEAR cfg) Hm) in Hin.
  apply dates_in_month_is_Some. unfold month_le in Hin. simpl in Hin. lia.
Qed.

(** C4 (as amended). [months_since] enumerates the months from
    January of the start year through the current month, in strictly
    ascending order; the scan selects the earliest enumerated month
    with at least one date missing from the archive, whether or not
    that month holds any record, never a month without a missing date;
    and when no enumerated month has a missing date it selects nothing
    and the run returns 0 having only queried the status endpoint. *)
Theorem locate_selects_earliest_missing_month :
  1 <= START_YEAR cfg -> (today E).1 <= 9999 -> 1 <= (today E).2 <= 12 ->
  let months := months_since E (START_YEAR cfg) in
  (forall y m, (y, m) ∈ months <->
     START_YEAR cfg <= y /\ 1 <= m <= 12 /\ month_le (y, m) (today E)) /\
  StronglySorted month_lt months /\
  (forall files,
     match find_target cfg files months with
     | Ok (Some (y, m, missing, existing)) =>
         (y, m) ∈ months /\
         missing = month_missing files y m /\ missing <> [] /\
         existing = (read_csv_rows cfg files (csv_path_for cfg y m)).1 /\
         (forall y' m', (y', m') ∈ months -> month_lt (y', m') (y, m) ->
            month_missing files y' m' = [])
     | Ok None => forall y m, (y, m) ∈ months -> month_missing files y m = []
     | Raise _ => False
     end) /\
  (forall s remaining s1,
     get_status cfg E s = (Ok (Some remaining), s1) ->
     (forall y m, (y, m) ∈ months -> month_missing (fs s) y m = []) ->
     main cfg E s = (Ok 0, s1) /\ net_only "/status" s s1).
Proof.
  intros Hs Hy Hm months.
  destruct (months_since_spec (START_YEAR cfg) Hm) as [Helem Hsorted].
  fold months in Helem, Hsorted.
  assert (Hscan : forall files,
     match find_target cfg files months with
     | Ok (Some (y, m, missing, existing)) =>
         (y, m) ∈ months /\
         missing = month_missing files y m /\ missing <> [] /\
         existing = (read_csv_rows cfg files (csv_path_for cfg y m)).1 /\
         (forall y' m', (y', m') ∈ months -> month_lt (y', m') (y, m) ->
            month_missing files y' m' = [])
     | Ok None => forall y m, (y, m) ∈ months -> month_missing files y m = []
     | Raise _ => False
     end).
  { intros files.
    pose proof (find_target_spec files months (months_since_valid Hs Hy Hm)) as Hft.
    destruct (find_target cfg files months) as [[[[[y m] missing] existing]|]|]; [| |done].
    - destruct Hft as (pre & post & Hmonths & Hpre & Hmiss & Hne & Hex).
      split_and!; try done.
      + rewrite Hmonths. apply elem_of_app. right. by left.
      + intros y' m' Hin Hlt. rewrite Hmonths in Hin, Hsorted.
        apply elem_of_app in Hin as [Hin|Hin].
        { by apply (proj1 (Forall_forall _ _) Hpre (y', m')). }
        apply StronglySorted_app_1_r in Hsorted.
        apply elem_of_cons in Hin as [[= -> ->]|Hin].
        { by apply month_lt_irrefl in Hlt. }
        apply StronglySorted_inv in Hsorted as [_ Hall].
        apply (proj1 (Forall_forall _ _) Hall) in Hin.
        destruct (month_lt_asym _ _ Hin Hlt).
    - intros y m Hin. by apply (proj1 (Forall_forall _ _) Hft (y, m)). }
  split_and!; try done.
  intros s remaining s1 Hstatus Hcomplete.
  pose proof (get_status_net s) as Hnet. rewrite Hstatus in Hnet. simpl in Hnet.
  split; [|done].
  rewrite main_eval, pre_lock_eval, Hstatus.
  destruct Hnet as (Hfs & _). rewrite Hfs.
  specialize (Hscan (fs s)). fold months.
  destruct (find_target cfg (fs s) months) as [[[[[y m] missing] existing]|]|];
    [|done|done].
  destruct Hscan as (Hin & -> & Hne & _). destruct Hne. by apply Hcomplete.
Qed.

(** ** Archive read *)

Lemma normalize_cell_cases (r : gmap string (option string)) (c : string) :
  let raw := default "" (default (Some "") (r !! c)) in
  (raw = "" /\ normalize_cell r c = blank) \/
  (raw <> "" /\ exists f, float_of_string raw = Some f /\ normalize_cell r c = VFloat f) \/
  (raw <> "" /\ float_of_string raw = None /\ normalize_cell r c = VStr raw).
Proof.
  unfold normalize_cell.
  destruct (default (Some "") (r !! c)) as [val|]; simpl; [|by left].
  case_bool_decide; [by left | right].
  destruct (float_of_string val) as [f|] eqn:Hf; [left | right]; eauto.
Qed.

Lemma normalize_fold_lookup (r : gmap string (option string)) (cs : list string) :
  forall (acc : gmap string value) (k : string),
  foldl (fun normalized c => <[c := normalize_cell r c]> normalized) acc cs !! k =
    if decide (k ∈ cs) then Some (normalize_cell r k) else acc !! k.
Proof.
  induction cs as [|c cs IH]; intros acc k; cbn [foldl].
  { by rewrite decide_False by apply not_elem_of_nil. }
  rewrite IH. destruct (decide (k ∈ cs)) as [Hin|Hnin].
  - by rewrite decide_True by (by right).
  - destruct (decide (k = c)) as [->|Hne].
    + rewrite decide_True by (by left). by rewrite lookup_insert_eq.
    + rewrite decide_False by (by intros [?|?]%elem_of_cons).
      by rewrite lookup_insert_ne.
Qed.

Lemma normalize_row_lookup (d : string) (r : gmap string (option string)) (k : string) :
  normalize_row cfg d r !! k =
    if decide (k ∈ CURRENCIES cfg) then Some (normalize_cell r k)
    else if decide (k = "date") then Some (VStr d) else None.
Proof.
  unfold normalize_row. rewrite normalize_fold_lookup.
  destruct (decide (k ∈ CURRENCIES cfg)); [done|].
  destruct (decide (k = "date")) as [->|Hne].
  - by rewrite lookup_singleton_eq.
  - by rewrite lookup_singleton_ne.
Qed.

Lemma read_step_lookup (acc : gmap string (gmap string value))
    (r : gmap string (option string)) (d : string) (row : gmap string value) :
  read_step cfg acc r !! d = Some row ->
  acc !! d = Some row \/
  (mjoin (r !! "date") = Some d /\ d <> "" /\ row = normalize_row cfg d r).
Proof.
  unfold read_step. destruct (mjoin (r !! "date")) as [d'|]; [|by left].
  case_bool_decide; [by left|].
  destruct (decide (d' = d)) as [->|Hne].
  - rewrite lookup_insert_eq. intros [= <-]. by right.
  - rewrite lookup_insert_ne by done. by left.
Qed.

Lemma read_fold_lookup (rows : list (gmap string (option string))) :
  forall (acc : gmap string (gmap string value)) (d : string) (row : gmap string value),
  foldl (read_step cfg) acc rows !! d = Some row ->
  acc !! d = Some row \/
  exists r, r ∈ rows /\ mjoin (r !! "date") = Some d /\ d <> "" /\
            row = normalize_row cfg d r.
Proof.
  induction rows as [|r rows IH]; intros acc d row Hl; simpl in *; [by left|].
  apply IH in Hl as [Hl|(r' & ? & ?)].
  - apply read_step_lookup in Hl as [?|?]; [by left | right].
    exists r. split; [by left | done].
  - right. exists r'. split; [by right | done].
Qed.

(** C7 (as amended). [read_csv_rows] returns the empty dict when the
    month's file does not exist; it returns a dict for every file,
    readable to the end or not (a read error ends the scan with a
    warning and keeps the rows read so far; a row without a date is
    skipped); and every currency cell of every returned row is the
    blank sentinel when the cell is empty or absent, the parsed float
    when [float] accepts its text, and the text itself, unparsed, when
    [float] rejects it -- never a number for an empty or absent cell. *)
Theorem read_csv_rows_cells (files : gmap string file) (path : Path) :
  (files !! path_str path = None -> read_csv_rows cfg files path = (∅, false)) /\
  (forall f, files !! path_str path = Some f ->
     read_csv_rows cfg files path =
       (foldl (read_step cfg) ∅ (dict_reader (records f)), torn f)) /\
  (forall acc r, mjoin (r !! "date") = None \/ mjoin (r !! "date") = Some "" ->
     read_step cfg acc r = acc) /\
  (forall d row, (read_csv_rows cfg files path).1 !! d = Some row ->
     exists f r, files !! path_str path = Some f /\ r ∈ dict_reader (records f) /\
       mjoin (r !! "date") = Some d /\ d <> "" /\
       forall c, c ∈ CURRENCIES cfg ->
         let raw := default "" (default (Some "") (r !! c)) in
         (raw = "" /\ row !! c = Some blank) \/
         (raw <> "" /\ exists x, float_of_string raw = Some x /\ row !! c = Some (VFloat x)) \/
         (raw <> "" /\ float_of_string raw = None /\ row !! c = Some (VStr raw))).
Proof.
  split_and!.
  - intros Hnone. unfold read_csv_rows. by rewrite Hnone.
  - intros f Hf. unfold read_csv_rows. by rewrite Hf.
  - intros acc r Hd. unfold read_step. by destruct Hd as [-> | ->].
  - intros d row. unfold read_csv_rows.
    destruct (files !! path_str path) as [f|] eqn:Hf; simpl.
    2:{ by rewrite lookup_empty. }
    intros Hl. apply read_fold_lookup in Hl as [Hl|(r & Hin & Hd & Hne & ->)].
    { by rewrite lookup_empty in Hl. }
    exists f, r. split_and!; try done.
    intros c Hc. rewrite normalize_row_lookup, decide_True by done.
    destruct (normalize_cell_cases r c) as [[? ->]|[(? & x & ? & ->)|(? & ? & ->)]];
      [left | right; left | right; right]; eauto.
Qed.

(** ** Historical fetch *)

Definition cell_of_json (v : option jval) : option value :=
  match v with
  | None | Some JNull => Some blank
  | Some (JNumber f) => Some (VFloat f)
  | Some JNonNumeric => None
  end.

Lemma fill_row_lookup (day : gmap string jval) (cs : list string) :
  forall (row row' : gmap string value) (k : string),
  fill_row day row cs = Ok row' ->
  row' !! k = if decide (k ∈ cs) then cell_of_json (day !! k) else row !! k.
Proof.
  induction cs as [|c cs IH]; intros row row' k; cbn [fill_row].
  { intros [= <-]. by rewrite decide_False by apply not_elem_of_nil. }
  intros Hfill.
  assert (exists v, cell_of_json (day !! c) = Some v /\
                    fill_row day (<[c := v]> row) cs = Ok row') as (v & Hv & Hrest).
  { destruct (day !! c) as [[|f|]|]; simpl; eauto. done. }
  rewrite (IH _ _ k Hrest).
  destruct (decide (k ∈ cs)) as [Hin|Hnin].
  - by rewrite decide_True by (by right).
  - destruct (decide (k = c)) as [->|Hne].
    + rewrite decide_True by (by left). by rewrite lookup_insert_eq.
    + rewrite decide_False by (by intros [?|?]%elem_of_cons).
      by rewrite lookup_insert_ne.
Qed.

Lemma fill_row_ok (day : gmap string jval) (cs : list string) :
  forall (row row' : gmap string value) (k : string),
  fill_row day row cs = Ok row' -> k ∈ cs -> is_Some (cell_of_json (day !! k)).
Proof.
  induction cs as [|c cs IH]; intros row row' k; cbn [fill_row].
  { by intros _ ?%elem_of_nil. }
  intros Hfill [->|Hin]%elem_of_cons.
  - destruct (day !! c) as [[|f|]|]; simpl; eauto. done.
  - destruct (day !! c) as [[|f|]|]; try done; by eapply IH.
Qed.

(** A successful fetch returns what the column loop builds from the
    day's rates with the base currency set to 1.0. *)
Lemma historical_fill (date_iso : string) (s s' : state) (row : gmap string value) :
  get_historical_for_date cfg E date_iso s = (Ok row, s') ->
  exists day : gmap string jval,
    fill_row (<[BASE_CURRENCY cfg := JNumber float_one]> day)
             {["date" := VStr date_iso]} (CURRENCIES cfg) = Ok row.
Proof.
  unfold get_historical_for_date. rewrite bind_unfold.
  destruct (do_request cfg E "/historical" (Some date_iso) true s) as [[resp|e] s1];
    [|done].
  destruct (status_code resp =? 429); [done|].
  destruct (negb (status_code resp =? 200)); [done|].
  destruct (resp_body resp) as [|remaining data]; [done|].
  destruct (fill_row _ _ _) as [row0|e] eqn:Hfill; [|done].
  intros [= <- <-]. eauto.
Qed.

Lemma fill_row_keys (day : gmap string jval) (cs : list string)
    (row row' : gmap string value) (k : string) :
  fill_row day row cs = Ok row' ->
  is_Some (row' !! k) <-> k ∈ cs \/ is_Some (row !! k).
Proof.
  intros Hfill. rewrite (fill_row_lookup _ _ _ _ k Hfill).
  destruct (decide (k ∈ cs)) as [Hin|Hnin].
  - split; [by left|]. intros _. by eapply fill_row_ok.
  - split; [by right | by intros [?|?]].
Qed.

(** C8 (as amended). A record returned by [get_historical_for_date]
    carries exactly the keys "date" and the configured currencies.
    When the base currency is one of the configured currencies its
    rate in the record is exactly 1.0, whatever the API answered; when
    it is not, the record has no entry for the base currency. *)
Theorem historical_base_rate (date_iso : string) (s s' : state)
    (row : gmap string value) :
  get_historical_for_date cfg E date_iso s = (Ok row, s') ->
  (BASE_CURRENCY cfg ∈ CURRENCIES cfg ->
     row !! BASE_CURRENCY cfg = Some (VFloat float_one)) /\
  (BASE_CURRENCY cfg ∉ CURRENCIES cfg -> BASE_CURRENCY cfg <> "date" ->
     row !! BASE_CURRENCY cfg = None) /\
  (forall k, is_Some (row !! k) <-> k ∈ CURRENCIES cfg \/ k = "date").
Proof.
  intros Hget. destruct (historical_fill _ _ _ _ Hget) as [day Hfill].
  pose proof (fun k => fill_row_lookup _ _ _ _ k Hfill) as Hrow.
  split_and!.
  - intros Hin. rewrite Hrow, decide_True by done. by rewrite lookup_insert_eq.
  - intros Hnin Hne. rewrite Hrow, decide_False by done. by rewrite lookup_singleton_ne.
  - intros k. rewrite (fill_row_keys _ _ _ _ k Hfill).
    destruct (decide (k = "date")) as [->|Hne].
    + rewrite lookup_singleton_eq. split; [by right | by right].
    + rewrite lookup_singleton_ne by done.
      split; [by intros [?|[? [=]]]; left | intros [?|?]; [by left | done]].
Qed.

(** ** Resilient request *)

(** What [do_request] does with the outcome of one attempt. *)
Definition retryable (o : http_result) : bool :=
  match o with
  | TransportFailure => true
  | Answered r => status_code r >=? 500
  end.

Definition final (o : http_result) : result response :=
  match o with
  | TransportFailure => Raise RequestException
  | Answered r => Ok r
  end.

(** The back-off sleeps and the requests in a piece of trace. *)
Definition retry_sleeps (evs : list event) : list Q :=
  omap (fun ev => match ev with EvSleep RetrySleep q => Some q | _ => None end) evs.

Definition requests_in (evs : list event) : list (string * option string) :=
  omap (fun ev => match ev with EvGet p d => Some (p, d) | _ => None end) evs.

Lemma retry_sleeps_app evs evs' :
  retry_sleeps (evs ++ evs') = retry_sleeps evs ++ retry_sleeps evs'.
Proof. apply omap_app. Qed.

Lemma requests_in_app evs evs' :
  requests_in (evs ++ evs') = requests_in evs ++ requests_in evs'.
Proof. apply omap_app. Qed.

(** Steps of the rate limiter: no request sent, no back-off sleep. *)
Definition rate_only (s s' : state) : Prop :=
  sent s' = sent s /\
  exists evs, log s' = log s ++ evs /\ retry_sleeps evs = [] /\ requests_in evs = [].

#[local] Instance rate_only_preorder : PreOrder rate_only.
Proof.
  split.
  - intros s. split; [done|]. exists []. by rewrite app_nil_r.
  - intros s1 s2 s3 (? & evs & ? & Hr & Hg) (? & evs' & ? & Hr' & Hg').
    split; [congruence|]. exists (evs ++ evs').
    rewrite retry_sleeps_app, requests_in_app, Hr, Hr', Hg, Hg', app_assoc.
    split_and!; [congruence | done | done].
Qed.

Lemma rate_only_quiet (s s' : state) :
  sent s' = sent s -> log s' = log s -> rate_only s s'.
Proof. intros ? ?. split; [done|]. exists []. by rewrite app_nil_r. Qed.

Lemma time_time_rate : steps rate_only (time_time E).
Proof. intros s. by apply rate_only_quiet. Qed.

Lemma rate_sleep_rate secs : steps rate_only (time_sleep RateLimitSleep secs).
Proof.
  intros s. unfold time_sleep. destruct (Qlt_le_dec secs 0); simpl; [reflexivity|].
  split; [done|]. by exists [EvSleep RateLimitSleep secs].
Qed.

Lemma set_stamps_rate l : steps rate_only (set_stamps l).
Proof. intros s. by apply rate_only_quiet. Qed.

Lemma get_stamps_rate : steps rate_only get_stamps.
Proof. intros s. by apply rate_only_quiet. Qed.

Lemma append_stamp_rate t : steps rate_only (append_stamp t).
Proof. intros s. by apply rate_only_quiet. Qed.

Hint Resolve time_time_rate rate_sleep_rate set_stamps_rate get_stamps_rate
  append_stamp_rate : frame.

Lemma wait_for_rate_slot_rate : steps rate_only (wait_for_rate_slot cfg E).
Proof. unfold wait_for_rate_slot. frame. Qed.

Lemma record_request_timestamp_rate : steps rate_only (record_request_timestamp E).
Proof. unfold record_request_timestamp. frame. Qed.

(** [min] returns an element of the list, below all the others. *)
Lemma qmin_fold_in (l : list Q) : forall t, In (fold_left qmin l t) (t :: l).
Proof.
  induction l as [|a l IH]; intros t; simpl; [by left|].
  destruct (IH (qmin t a)) as [Hm|Hm]; [|by right; right].
  rewrite <- Hm. unfold qmin. destruct (Qlt_le_dec a t); [right; by left | by left].
Qed.

Lemma min_list_in (l : list Q) (m : Q) : min_list l = Some m -> In m l.
Proof. destruct l as [|t l]; [done|]. intros [= <-]. apply qmin_fold_in. Qed.

Lemma filter_in_window (now : Q) (l : list Q) (t : Q) :
  In t (List.filter (in_window now) l) -> (now - t < 60)%Q.
Proof.
  intros [_ Hw]%filter_In. unfold in_window in Hw.
  by destruct (Qlt_le_dec (now - t) 60).
Qed.

(** With a positive cap the admission never raises. *)
Lemma wait_for_rate_slot_ok (s : state) :
  1 <= MAX_PER_MINUTE cfg ->
  exists s1, wait_for_rate_slot cfg E s = (Ok tt, s1).
Proof.
  intros Hmax. unfold wait_for_rate_slot.
  unfold mbind, M_bind, bind, time_time, get_stamps, set_stamps. simpl.
  set (now := (clock s + drift E (ticks s))%Q).
  destruct (_ <? _) eqn:Hlt; [by eexists|].
  destruct (min_list _) as [oldest|] eqn:Hmin.
  - apply min_list_in, filter_in_window in Hmin.
    unfold time_sleep. destruct (Qlt_le_dec _ 0) as [Hneg|_]; [|by eexists].
    exfalso. lra.
  - exfalso. apply Z.ltb_ge in Hlt. destruct (List.filter _ _); [|done].
    simpl length in Hlt. lia.
Qed.

Lemma backoff_nonneg (attempt : Z) :
  (0 <= RETRY_BASE_SECONDS cfg)%Q -> (0 <= backoff cfg attempt)%Q.
Proof.
  intros Hb. unfold backoff. apply Qmult_le_0_compat; [done|].
  change 0%Q with (inject_Z 0). rewrite <- Zle_Qle.
  destruct (Z.le_gt_cases 0 (attempt - 1)).
  - apply Z.pow_nonneg. lia.
  - rewrite Z.pow_neg_r by lia. done.
Qed.

Lemma retry_sleep_ok (s : state) (secs : Q) :
  (0 <= secs)%Q ->
  time_sleep RetrySleep secs s =
    (Ok tt, State (clock s + secs)%Q (stamps s) (fs s) (ticks s) (sent s) (ios s)
                  (issued s) (fs_hist s) (log s ++ [EvSleep RetrySleep secs])).
Proof.
  intros Hs. unfold time_sleep. destruct (Qlt_le_dec secs 0); [|done].
  exfalso. lra.
Qed.

(** The start of one attempt: admission (when counted), then the
    request; one request is sent and nothing else of note happens. *)
Lemma attempt_prefix {A} (path : string) (date : option string) (count : bool)
    (k : http_result -> M A) (s : state) :
  (count = true -> 1 <= MAX_PER_MINUTE cfg) ->
  exists s2,
    (when_ count (wait_for_rate_slot cfg E) ≫= fun _ => requests_get E path date ≫= k) s
      = k (http E (sent s) path date) s2 /\
    sent s2 = S (sent s) /\
    exists evs, log s2 = log s ++ evs /\ retry_sleeps evs = [] /\
                requests_in evs = [(path, date)].
Proof.
  intros Hmax.
  assert (exists s1, when_ count (wait_for_rate_slot cfg E) s = (Ok tt, s1) /\
                     rate_only s s1) as (s1 & Hw & Hs1 & evs & Hlog & Hr & Hg).
  { destruct count; simpl.
    - destruct (wait_for_rate_slot_ok s (Hmax eq_refl)) as [s1 Hs1].
      exists s1. split; [done|].
      pose proof (wait_for_rate_slot_rate s) as Hr. by rewrite Hs1 in Hr.
    - exists s. split; [done | reflexivity]. }
  rewrite bind_unfold, Hw, bind_unfold. simpl.
  eexists. split; [by rewrite Hs1|]. simpl. split; [done|].
  exists (evs ++ [EvGet path date]).
  rewrite retry_sleeps_app, requests_in_app, Hr, Hg, Hlog, app_assoc. done.
Qed.

Lemma record_suffix {A} (count : bool) (k : M A) (s : state) :
  exists s3,
    (when_ count (record_request_timestamp E) ≫= fun _ => k) s = k s3 /\
    sent s3 = sent s /\
    exists evs, log s3 = log s ++ evs /\ retry_sleeps evs = [] /\ requests_in evs = [].
Proof.
  destruct count; simpl.
  - eexists. split; [reflexivity|]. simpl. split; [done|].
    exists []. by rewrite app_nil_r.
  - exists s. split; [reflexivity|]. split; [done|].
    exists []. by rewrite app_nil_r.
Qed.

Lemma do_request_loop_spec (path : string) (date : option string) (count : bool) :
  (0 <= RETRY_BASE_SECONDS cfg)%Q ->
  (count = true -> 1 <= MAX_PER_MINUTE cfg) ->
  forall (fuel : nat) (attempt : Z) (s : state),
  0 <= attempt -> Z.max 0 (MAX_RETRIES cfg - attempt) < Z.of_nat fuel ->
  exists n : nat,
    (forall i, (i < n)%nat ->
       retryable (http E (sent s + i) path date) = true /\
       attempt + Z.of_nat i + 1 <= MAX_RETRIES cfg) /\
    ~ (retryable (http E (sent s + n) path date) = true /\
       attempt + Z.of_nat n + 1 <= MAX_RETRIES cfg) /\
    (do_request_loop cfg E fuel attempt path date count s).1
      = final (http E (sent s + n) path date) /\
    sent (do_request_loop cfg E fuel attempt path date count s).2 = (sent s + n + 1)%nat /\
    exists evs,
      log (do_request_loop cfg E fuel attempt path date count s).2 = log s ++ evs /\
      retry_sleeps evs = (fun i => backoff cfg (attempt + Z.of_nat i + 1)) <$> seq 0 n /\
      requests_in evs = replicate (S n) (path, date).
Proof.
  intros Hbase Hmax. induction fuel as [|fuel IH]; intros attempt s Hatt Hfuel; [lia|].
  cbn [do_request_loop].
  destruct (attempt_prefix path date count
              (fun got => match got with
                 | TransportFailure =>
                     if attempt + 1 <=? MAX_RETRIES cfg then
                       time_sleep RetrySleep (backoff cfg (attempt + 1));;
                       do_request_loop cfg E fuel (attempt + 1) path date count
                     else raise RequestException
                 | Answered resp =>
                     when_ count (record_request_timestamp E);;
                     if (status_code resp >=? 500) && (attempt + 1 <=? MAX_RETRIES cfg) then
                       time_sleep RetrySleep (backoff cfg (attempt + 1));;
                       do_request_loop cfg E fuel (attempt + 1) path date count
                     else ret resp
                 end) s Hmax)
    as (s2 & -> & Hsent2 & evs2 & Hlog2 & Hr2 & Hg2).
  (* the continuation after a retry sleep, shared by both branches *)
  assert (Hretry : forall s3,
    sent s3 = S (sent s) ->
    (exists evs, log s3 = log s ++ evs /\ retry_sleeps evs = [] /\
                 requests_in evs = [(path, date)]) ->
    retryable (http E (sent s) path date) = true ->
    attempt + 1 <= MAX_RETRIES cfg ->
    exists n : nat,
      (forall i, (i < n)%nat ->
         retryable (http E (sent s + i) path date) = true /\
         attempt + Z.of_nat i + 1 <= MAX_RETRIES cfg) /\
      ~ (retryable (http E (sent s + n) path date) = true /\
         attempt + Z.of_nat n + 1 <= MAX_RETRIES cfg) /\
      ((time_sleep RetrySleep (backoff cfg (attempt + 1));;
        do_request_loop cfg E fuel (attempt + 1) path date count) s3).1
        = final (http E (sent s + n) path date) /\
      sent ((time_sleep RetrySleep (backoff cfg (attempt + 1));;
        do_request_loop cfg E fuel (attempt + 1) path date count) s3).2
        = (sent s + n + 1)%nat /\
      exists evs,
        log ((time_sleep RetrySleep (backoff cfg (attempt + 1));;
          do_request_loop cfg E fuel (attempt + 1) path date count) s3).2 = log s ++ evs /\
        retry_sleeps evs = (fun i => backoff cfg (attempt + Z.of_nat i + 1)) <$> seq 0 n /\
        requests_in evs = replicate (S n) (path, date)).
  { intros s3 Hsent3 (evs3 & Hlog3 & Hr3 & Hg3) Hretr Hle.
    rewrite bind_unfold, retry_sleep_ok by (by apply backoff_nonneg).
    set (s4 := State _ _ _ _ _ _ _ _ _).
    destruct (IH (attempt + 1) s4) as (n & Hbefore & Hlast & Hres & Hsent & evs & Hlog & Hr & Hg);
      [lia | lia |].
    assert (Hidx : forall i, (sent s4 + i = sent s + S i)%nat).
    { intros i. subst s4. simpl. lia. }
    exists (S n). split_and!.
    - intros [|i] Hi.
      + rewrite Nat.add_0_r. split; [done | lia].
      + destruct (Hbefore i) as [Hb1 Hb2]; [lia|]. rewrite Hidx in Hb1. split; [done | lia].
    - rewrite Hidx in Hlast. intros [? ?]. apply Hlast. split; [done | lia].
    - by rewrite Hres, Hidx.
    - rewrite Hsent. subst s4. simpl. lia.
    - exists (evs3 ++ [EvSleep RetrySleep (backoff cfg (attempt + 1))] ++ evs).
      rewrite !retry_sleeps_app, !requests_in_app, Hr3, Hg3, Hr, Hg.
      rewrite Hlog. subst s4. cbn [log]. rewrite Hlog3. simpl.
      split_and!.
      + by rewrite <- !app_assoc.
      + f_equal; [f_equal; lia|].
        rewrite <- fmap_S_seq, <- list_fmap_compose. apply list_fmap_ext.
        intros _ i _. simpl. f_equal. lia.
      + done. }
  assert (Hstop : forall (r : result response) s3,
    sent s3 = S (sent s) ->
    (exists evs, log s3 = log s ++ evs /\ retry_sleeps evs = [] /\
                 requests_in evs = [(path, date)]) ->
    r = final (http E (sent s) path date) ->
    ~ (retryable (http E (sent s) path date) = true /\ attempt + 1 <= MAX_RETRIES cfg) ->
    exists n : nat,
      (forall i, (i < n)%nat ->
         retryable (http E (sent s + i) path date) = true /\
         attempt + Z.of_nat i + 1 <= MAX_RETRIES cfg) /\
      ~ (retryable (http E (sent s + n) path date) = true /\
         attempt + Z.of_nat n + 1 <= MAX_RETRIES cfg) /\
      r = final (http E (sent s + n) path date) /\
      sent s3 = (sent s + n + 1)%nat /\
      exists evs,
        log s3 = log s ++ evs /\
        retry_sleeps evs = (fun i => backoff cfg (attempt + Z.of_nat i + 1)) <$> seq 0 n /\
        requests_in evs = replicate (S n) (path, date)).
  { intros r s3 Hsent3 Hev -> Hno. exists 0%nat. rewrite Nat.add_0_r.
    split_and!; [lia | by rewrite Z.add_0_r | done | lia | done]. }
  destruct (http E (sent s) path date) as [|resp] eqn:Hout.
  - destruct (Z.leb_spec (attempt + 1) (MAX_RETRIES cfg)).
    + apply Hretry; eauto.
    + apply (Hstop (Raise RequestException) s2); eauto. simpl. lia.
  - destruct (record_suffix count
                (if (status_code resp >=? 500) && (attempt + 1 <=? MAX_RETRIES cfg) then
                   time_sleep RetrySleep (backoff cfg (attempt + 1));;
                   do_request_loop cfg E fuel (attempt + 1) path date count
                 else ret resp) s2)
      as (s3 & -> & Hsent3 & evs3 & Hlog3 & Hr3 & Hg3).
    assert (Hev3 : exists evs, log s3 = log s ++ evs /\ retry_sleeps evs = [] /\
                               requests_in evs = [(path, date)]).
    { exists (evs2 ++ evs3).
      rewrite retry_sleeps_app, requests_in_app, Hr2, Hr3, Hg2, Hg3, Hlog3, Hlog2, app_assoc.
      done. }
    destruct (status_code resp >=? 500) eqn:Hst; simpl.
    + destruct (Z.leb_spec (attempt + 1) (MAX_RETRIES cfg)).
      * apply Hretry; [congruence | done | done | done].
      * apply (Hstop (Ok resp) s3); [congruence | done | done | lia].
    + apply (Hstop (Ok resp) s3); [congruence | done | done |].
      simpl. rewrite Hst. by intros [? _].
Qed.


(** ** Rate limiter *)

(** The recorded timestamps within 60 seconds before [t]. *)
Definition window (t : Q) (l : list Q) : list Q := List.filter (in_window t) l.

(** Each timestamp, when it was recorded, had at most [MAX_PER_MINUTE]
    recorded timestamps (itself included) in its trailing window. *)
Definition window_ok (l : list Q) : Prop :=
  forall pre t post, l = pre ++ t :: post ->
    Z.of_nat (length (window t (pre ++ [t]))) <= MAX_PER_MINUTE cfg.

Record rate_inv (s : state) : Prop := {
  inv_stamps : forall c, (clock s <= c)%Q -> window c (stamps s) = window c (issued s);
  inv_issued : window_ok (issued s);
  inv_now : issued s <> [] ->
            Z.of_nat (length (window (clock s) (issued s))) <= MAX_PER_MINUTE cfg
}.

(** The state right after an admission. *)
Definition admitted (s : state) : Prop :=
  Z.of_nat (length (window (clock s) (issued s))) < MAX_PER_MINUTE cfg.

Lemma in_window_true (t u : Q) : in_window t u = true <-> (t - u < 60)%Q.
Proof. unfold in_window. destruct (Qlt_le_dec (t - u) 60); split; (done || lra). Qed.

Lemma in_window_mono (c c' u : Q) :
  (c <= c')%Q -> in_window c' u = true -> in_window c u = true.
Proof. rewrite !in_window_true. lra. Qed.

Lemma window_app (t : Q) (l l' : list Q) : window t (l ++ l') = window t l ++ window t l'.
Proof. apply List.filter_app. Qed.

Lemma window_window (c c' : Q) (l : list Q) :
  (c <= c')%Q -> window c' (window c l) = window c' l.
Proof.
  intros Hc. induction l as [|u l IH]; simpl; [done|].
  destruct (in_window c u) eqn:Hu; simpl; rewrite IH.
  - done.
  - destruct (in_window c' u) eqn:Hu'; [|done].
    apply (in_window_mono c c' u Hc) in Hu'. congruence.
Qed.

Lemma window_length_mono (c c' : Q) (l : list Q) :
  (c <= c')%Q -> (length (window c' l) <= length (window c l))%nat.
Proof.
  intros Hc. rewrite <- (window_window c c' l Hc). apply List.filter_length_le.
Qed.

Lemma window_length_drop (c c' : Q) (l : list Q) (u : Q) :
  (c <= c')%Q -> In u (window c l) -> in_window c' u = false ->
  (length (window c' l) < length (window c l))%nat.
Proof.
  intros Hc Hin Hout. rewrite <- (window_window c c' l Hc).
  induction (window c l) as [|v l' IH]; simpl in *; [done|].
  destruct Hin as [->|Hin].
  - rewrite Hout. pose proof (List.filter_length_le (in_window c') l'). unfold window. lia.
  - specialize (IH Hin). destruct (in_window c' v); simpl; unfold window in *; lia.
Qed.

(** Steps that let time pass and leave the limiter's list alone. *)
Definition tick_rel (s s' : state) : Prop :=
  issued s' = issued s /\ stamps s' = stamps s /\ (clock s <= clock s')%Q.

#[local] Instance tick_rel_preorder : PreOrder tick_rel.
Proof.
  split.
  - intros s. split_and!; [done | done | lra].
  - intros s1 s2 s3 (? & ? & ?) (? & ? & ?). split_and!; [congruence | congruence | lra].
Qed.

Lemma rate_inv_filtered (s s' : state) :
  issued s' = issued s -> (clock s <= clock s')%Q ->
  stamps s' = stamps s \/ stamps s' = window (clock s') (stamps s) ->
  rate_inv s -> rate_inv s'.
Proof.
  intros Hi Hc Hst [H1 H2 H3]. split.
  - intros c Hcc. rewrite Hi. destruct Hst as [-> | ->].
    + apply H1. lra.
    + rewrite window_window by done. apply H1. lra.
  - by rewrite Hi.
  - rewrite Hi. intros Hne. specialize (H3 Hne).
    pose proof (window_length_mono _ _ (issued s) Hc). lia.
Qed.

Lemma tick_rel_inv (s s' : state) : tick_rel s s' -> rate_inv s -> rate_inv s'.
Proof. intros (? & ? & ?). apply rate_inv_filtered; auto. Qed.

Lemma tick_rel_admitted (s s' : state) : tick_rel s s' -> admitted s -> admitted s'.
Proof.
  intros (Hi & _ & Hc). unfold admitted. rewrite Hi.
  pose proof (window_length_mono _ _ (issued s) Hc). lia.
Qed.

Section Clock.
Hypothesis drift_nonneg : forall n, (0 <= drift E n)%Q.

Lemma time_time_tick : steps tick_rel (time_time E).
Proof.
  intros s. simpl. split_and!; [done | done |].
  pose proof (drift_nonneg (ticks s)). simpl. lra.
Qed.

Lemma time_sleep_tick why secs : steps tick_rel (time_sleep why secs).
Proof.
  intros s. unfold time_sleep. destruct (Qlt_le_dec secs 0); simpl; [reflexivity|].
  split_and!; [done | done | cbn [clock]; lra].
Qed.

Lemma requests_get_tick path date : steps tick_rel (requests_get E path date).
Proof. intros s. simpl. split_and!; [done | done | cbn [clock]; lra]. Qed.

(** The admission keeps the invariant, and when it returns the
    trailing window holds fewer than the cap. *)
Lemma wait_for_rate_slot_inv (s : state) :
  rate_inv s ->
  rate_inv (wait_for_rate_slot cfg E s).2 /\
  ((wait_for_rate_slot cfg E s).1 = Ok tt -> admitted (wait_for_rate_slot cfg E s).2).
Proof.
  intros Hinv. unfold wait_for_rate_slot.
  unfold mbind, M_bind, bind, time_time, get_stamps, set_stamps. simpl.
  set (now := (clock s + drift E (ticks s))%Q).
  assert (Hnow : (clock s <= now)%Q).
  { pose proof (drift_nonneg (ticks s)). subst now. lra. }
  set (F := List.filter (in_window now) (stamps s)).
  assert (HF : F = window now (issued s)).
  { apply (inv_stamps s Hinv now Hnow). }
  set (s2 := State now F _ _ _ _ _ _ _).
  assert (Hinv2 : rate_inv s2).
  { apply (rate_inv_filtered s s2); [done | done | by right | done]. }
  destruct (_ <? _) eqn:Hlt; simpl.
  { split; [done|]. intros _. unfold admitted. simpl. rewrite <- HF. lia. }
  apply Z.ltb_ge in Hlt.
  destruct (min_list F) as [oldest|] eqn:Hmin; simpl; [|done].
  apply min_list_in in Hmin.
  pose proof (filter_in_window _ _ _ Hmin) as Hold.
  unfold time_sleep. destruct (Qlt_le_dec _ 0) as [Hneg|_]; simpl; [done|].
  set (wait_seconds := (60 - (now - oldest) + (5 # 100))%Q).
  set (now' := (now + wait_seconds + drift E (S (ticks s)))%Q).
  assert (Hnow' : (now <= now')%Q).
  { pose proof (drift_nonneg (S (ticks s))). subst now' wait_seconds. lra. }
  set (s5 := State now' _ _ _ _ _ _ _ _).
  assert (Hinv5 : rate_inv s5).
  { apply (rate_inv_filtered s2 s5); [done | done | by right | done]. }
  split; [done|]. intros _. unfold admitted. simpl.
  assert (Hgone : in_window now' oldest = false).
  { destruct (in_window now' oldest) eqn:Hw; [|done].
    apply in_window_true in Hw. pose proof (drift_nonneg (S (ticks s))).
    subst now' wait_seconds. lra. }
  rewrite HF in Hmin.
  pose proof (window_length_drop now now' (issued s) oldest Hnow' Hmin Hgone) as Hdrop.
  assert (Hne : issued s <> []).
  { intros Hnil. by rewrite Hnil in Hmin. }
  pose proof (inv_now s Hinv Hne) as Hcap.
  pose proof (window_length_mono _ _ (issued s) Hnow). lia.
Qed.

(** Recording a timestamp after an admission keeps the invariant, so
    the new timestamp's trailing window holds at most the cap. *)
Lemma record_request_timestamp_inv (s : state) :
  rate_inv s -> admitted s -> rate_inv (record_request_timestamp E s).2.
Proof.
  intros Hinv Hadm. unfold record_request_timestamp.
  unfold mbind, M_bind, bind, time_time, append_stamp. simpl.
  set (t := (clock s + drift E (ticks s))%Q).
  assert (Ht : (clock s <= t)%Q).
  { pose proof (drift_nonneg (ticks s)). subst t. lra. }
  assert (Hself : in_window t t = true).
  { apply in_window_true. lra. }
  assert (Hlen : Z.of_nat (length (window t (issued s ++ [t]))) <= MAX_PER_MINUTE cfg).
  { rewrite window_app, length_app. simpl. rewrite Hself. simpl.
    pose proof (window_length_mono _ _ (issued s) Ht). unfold admitted in Hadm. lia. }
  split; simpl.
  - intros c Hc. rewrite !window_app. f_equal. apply (inv_stamps s Hinv). lra.
  - intros pre u post Heq.
    destruct post as [|v post _] using rev_ind.
    + apply app_inj_tail in Heq as [<- <-]. done.
    + rewrite app_comm_cons, app_assoc in Heq.
      apply app_inj_tail in Heq as [Heq _].
      by apply (inv_issued s Hinv pre u post).
  - intros _. done.
Qed.

Lemma do_request_loop_inv (fuel : nat) :
  forall attempt path date count s,
  rate_inv s -> rate_inv (do_request_loop cfg E fuel attempt path date count s).2.
Proof.
  induction fuel as [|fuel IH]; intros attempt path date count s Hinv; [done|].
  cbn [do_request_loop].
  assert (Htail : forall s3, rate_inv s3 ->
    rate_inv ((time_sleep RetrySleep (backoff cfg (attempt + 1));;
               do_request_loop cfg E fuel (attempt + 1) path date count) s3).2).
  { intros s3 Hinv3. rewrite bind_unfold.
    pose proof (time_sleep_tick RetrySleep (backoff cfg (attempt + 1)) s3) as Ht.
    destruct (time_sleep _ _ s3) as [[[]|e] s4]; simpl in *.
    - apply IH. by eapply tick_rel_inv.
    - by eapply tick_rel_inv. }
  destruct count; cbn [when_]; rewrite bind_unfold.
  - destruct (wait_for_rate_slot_inv s Hinv) as [Hinv1 Hadm1].
    destruct (wait_for_rate_slot cfg E s) as [[[]|e] s1]; simpl in *; [|done].
    specialize (Hadm1 eq_refl). rewrite bind_unfold.
    pose proof (requests_get_tick path date s1) as Ht.
    destruct (requests_get E path date s1) as [[got|e] s2] eqn:Hget; simpl in Ht;
      [|by eapply tick_rel_inv].
    assert (Hinv2 : rate_inv s2) by (by eapply tick_rel_inv).
    assert (Hadm2 : admitted s2) by (by eapply tick_rel_admitted).
    destruct got as [|resp].
    + destruct (_ <=? _); [by apply Htail | done].
    + rewrite bind_unfold.
      pose proof (record_request_timestamp_inv s2 Hinv2 Hadm2) as Hinv3.
      destruct (record_request_timestamp E s2) as [[[]|e] s3]; simpl in *; [|done].
      destruct (_ && _); [by apply Htail | done].
  - simpl. rewrite bind_unfold.
    pose proof (requests_get_tick path date s) as Ht.
    destruct (requests_get E path date s) as [[got|e] s2] eqn:Hget; simpl in Ht;
      [|by eapply tick_rel_inv].
    assert (Hinv2 : rate_inv s2) by (by eapply tick_rel_inv).
    destruct got as [|resp].
    + destruct (_ <=? _); [by apply Htail | done].
    + rewrite bind_unfold. simpl. destruct (_ && _); [by apply Htail | done].
Qed.

(** Computations that keep the limiter's invariant. *)
Definition keeps_inv (s s' : state) : Prop := rate_inv s -> rate_inv s'.

#[local] Instance keeps_inv_preorder : PreOrder keeps_inv.
Proof. split; unfold keeps_inv; [by intros s | intros s1 s2 s3; auto]. Qed.

Lemma do_request_keeps path date count :
  steps keeps_inv (do_request cfg E path date count).
Proof. intros s Hinv. by apply do_request_loop_inv. Qed.

Lemma tick_keeps {A} (m : M A) : steps tick_rel m -> steps keeps_inv m.
Proof. intros Hm s Hinv. eapply tick_rel_inv; [apply Hm | done]. Qed.

Lemma tick_rel_same (s s' : state) :
  issued s' = issued s -> stamps s' = stamps s -> clock s' = clock s -> tick_rel s s'.
Proof. intros ? ? Hc. split_and!; [done | done | rewrite Hc; lra]. Qed.

Lemma emit_tick ev : steps tick_rel (emit ev).
Proof. intros s. by apply tick_rel_same. Qed.

Lemma io_step_tick : steps tick_rel (io_step E).
Proof. intros s. by apply tick_rel_same. Qed.

Lemma set_fs_tick files : steps tick_rel (set_fs files).
Proof. intros s. by apply tick_rel_same. Qed.

Lemma get_fs_tick : steps tick_rel get_fs.
Proof. intros s. by apply tick_rel_same. Qed.

Hint Resolve emit_tick io_step_tick set_fs_tick get_fs_tick : frame.

Lemma fs_open_w_tick p : steps tick_rel (fs_open_w E p).
Proof. unfold fs_open_w. frame. Qed.

Lemma fs_write_tick p rec : steps tick_rel (fs_write E p rec).
Proof. unfold fs_write. frame. Qed.

Lemma fs_close_tick p : steps tick_rel (fs_close E p).
Proof. unfold fs_close. frame. Qed.

Lemma fs_replace_tick src dst : steps tick_rel (fs_replace E src dst).
Proof. unfold fs_replace. frame. Qed.

Lemma fs_exists_tick p : steps tick_rel (fs_exists p).
Proof. unfold fs_exists. frame. Qed.

Lemma fs_unlink_tick p : steps tick_rel (fs_unlink E p).
Proof. unfold fs_unlink. frame. Qed.

Hint Resolve fs_open_w_tick fs_write_tick fs_close_tick fs_replace_tick
  fs_exists_tick fs_unlink_tick : frame.

Lemma write_rows_tick tmp header rows dates :
  steps tick_rel (write_rows E tmp header rows dates).
Proof. induction dates as [|d dates IH]; simpl; frame. Qed.

Hint Resolve write_rows_tick : frame.

Lemma write_csv_rows_tick path rows : steps tick_rel (write_csv_rows cfg E path rows).
Proof. unfold write_csv_rows. frame. Qed.

Lemma locate_tick : steps tick_rel (locate cfg E).
Proof. unfold locate. frame. Qed.

Lemma acquire_lock_tick : steps tick_rel (acquire_lock E).
Proof. unfold acquire_lock. frame. Qed.

Hint Resolve write_csv_rows_tick locate_tick acquire_lock_tick : frame.
Hint Resolve tick_keeps do_request_keeps : frame.

Lemma get_status_keeps : steps keeps_inv (get_status cfg E).
Proof. unfold get_status. frame. Qed.

Lemma get_historical_keeps date_iso :
  steps keeps_inv (get_historical_for_date cfg E date_iso).
Proof. unfold get_historical_for_date. frame. Qed.

Hint Resolve get_status_keeps get_historical_keeps : frame.

Lemma fetch_loop_keeps dates : forall rows,
  steps keeps_inv (fetch_loop cfg E dates rows).
Proof. induction dates as [|dt dates IH]; intros rows; simpl; frame. Qed.

Hint Resolve fetch_loop_keeps : frame.

Lemma main_keeps : steps keeps_inv (main cfg E).
Proof.
  unfold main, pre_lock, under_lock, locked_section. frame.
Qed.


End Clock.

(** ** Archive write *)

(** The data rows [write_csv_rows] prints: one per key in ascending
    order, the cells in header order; [None] when a row has a key
    outside the header ([DictWriter] raises [ValueError]). *)
Definition rendered_rows (rows_by_date : gmap string (gmap string value))
    : option (list (list string)) :=
  mapM (fun d => rows_by_date !! d ≫= dict_to_list ("date" :: CURRENCIES cfg))
       (sort_strings (map_to_list rows_by_date).*1).

Definition new_file (recs : list (list string)) : file :=
  File (("date" :: CURRENCIES cfg) :: recs) false.

(** Steps that touch no file but [tmp]. *)
Definition wrel (tmp : string) (s s' : state) : Prop :=
  (forall p, p <> tmp -> fs s' !! p = fs s !! p) /\
  exists snaps, fs_hist s' = fs_hist s ++ snaps /\
    Forall (fun files : gmap string file =>
              forall p, p <> tmp -> files !! p = fs s !! p) snaps.

#[local] Instance wrel_preorder (tmp : string) : PreOrder (wrel tmp).
Proof.
  split.
  - intros s. split; [done|]. exists []. by rewrite app_nil_r.
  - intros s1 s2 s3 (H12 & snaps & Hh & Hf) (H23 & snaps' & Hh' & Hf').
    split.
    + intros p Hp. rewrite H23, H12 by done. done.
    + exists (snaps ++ snaps'). rewrite Hh', Hh, app_assoc. split; [done|].
      apply Forall_app. split; [done|].
      eapply Forall_impl; [exact Hf'|]. simpl. intros files Hfiles p Hp.
      rewrite Hfiles, H12 by done. done.
Qed.

Lemma wrel_same (tmp : string) (s s' : state) :
  fs s' = fs s -> fs_hist s' = fs_hist s -> wrel tmp s s'.
Proof.
  intros Hf Hh. split; [by rewrite Hf|]. exists []. by rewrite app_nil_r.
Qed.

Lemma wrel_set (tmp : string) (s s' : state) :
  fs_hist s' = fs_hist s ++ [fs s'] ->
  (forall p, p <> tmp -> fs s' !! p = fs s !! p) ->
  wrel tmp s s'.
Proof.
  intros Hh Hf. split; [done|]. exists [fs s']. split; [done|]. by constructor.
Qed.

Lemma mark_torn_other (tmp p : string) (files : gmap string file) :
  p <> tmp -> mark_torn tmp files !! p = files !! p.
Proof.
  intros Hp. unfold mark_torn. destruct (files !! tmp); [|done].
  by rewrite lookup_insert_ne.
Qed.

Lemma emit_wrel tmp ev : steps (wrel tmp) (emit ev).
Proof. intros s. by apply wrel_same. Qed.

Lemma fs_exists_wrel tmp p : steps (wrel tmp) (fs_exists p).
Proof. intros s. by apply wrel_same. Qed.

Lemma fs_open_w_wrel tmp : steps (wrel tmp) (fs_open_w E tmp).
Proof.
  intros s. unfold fs_open_w, mbind, M_bind, bind, io_step, get_fs, set_fs. simpl.
  destruct (io_fault E (ios s)); simpl.
  - by apply wrel_same.
  - apply wrel_set; [done|]. simpl. intros p Hp. by rewrite lookup_insert_ne.
Qed.

Lemma fs_write_wrel tmp rec : steps (wrel tmp) (fs_write E tmp rec).
Proof.
  intros s. unfold fs_write, mbind, M_bind, bind, io_step, get_fs, set_fs. simpl.
  destruct (io_fault E (ios s)); simpl.
  - apply wrel_set; [done|]. simpl. intros p Hp. by apply mark_torn_other.
  - destruct (fs s !! tmp); simpl.
    + apply wrel_set; [done|]. simpl. intros p Hp. by rewrite lookup_insert_ne.
    + by apply wrel_same.
Qed.

Lemma fs_close_wrel tmp : steps (wrel tmp) (fs_close E tmp).
Proof.
  intros s. unfold fs_close, mbind, M_bind, bind, io_step, get_fs, set_fs. simpl.
  destruct (io_fault E (ios s)); simpl.
  - apply wrel_set; [done|]. simpl. intros p Hp. by apply mark_torn_other.
  - by apply wrel_same.
Qed.

Lemma fs_unlink_wrel tmp : steps (wrel tmp) (fs_unlink E tmp).
Proof.
  intros s. unfold fs_unlink, mbind, M_bind, bind, io_step, get_fs, set_fs. simpl.
  destruct (io_fault E (ios s)); simpl.
  - by apply wrel_same.
  - apply wrel_set; [done|]. simpl. intros p Hp. by rewrite lookup_delete_ne.
Qed.

Hint Resolve emit_wrel fs_exists_wrel fs_open_w_wrel fs_write_wrel fs_close_wrel
  fs_unlink_wrel : frame.

Lemma write_rows_wrel tmp header rows dates :
  steps (wrel tmp) (write_rows E tmp header rows dates).
Proof. induction dates as [|d dates IH]; simpl; frame. Qed.

Hint Resolve write_rows_wrel : frame.

Lemma fs_open_w_inv tmp s s' :
  fs_open_w E tmp s = (Ok tt, s') -> fs s' !! tmp = Some (File [] false).
Proof.
  unfold fs_open_w, mbind, M_bind, bind, io_step, get_fs, set_fs. simpl.
  destruct (io_fault E (ios s)); [done|]. intros [= <-]. simpl.
  by rewrite lookup_insert_eq.
Qed.

Lemma fs_write_inv tmp rec s s' :
  fs_write E tmp rec s = (Ok tt, s') ->
  exists f, fs s !! tmp = Some f /\
            fs s' !! tmp = Some (File (records f ++ [rec]) (torn f)).
Proof.
  unfold fs_write, mbind, M_bind, bind, io_step, get_fs, set_fs. simpl.
  destruct (io_fault E (ios s)); [done|]. simpl.
  destruct (fs s !! tmp) as [f|]; [|done]. intros [= <-]. simpl.
  exists f. by rewrite lookup_insert_eq.
Qed.

Lemma fs_close_inv tmp s s' : fs_close E tmp s = (Ok tt, s') -> fs s' = fs s.
Proof.
  unfold fs_close, mbind, M_bind, bind, io_step, get_fs, set_fs. simpl.
  destruct (io_fault E (ios s)); [done|]. by intros [= <-].
Qed.

Lemma write_rows_inv tmp header rows dates : forall s s' f,
  write_rows E tmp header rows dates s = (Ok tt, s') ->
  fs s !! tmp = Some f ->
  exists recs,
    mapM (fun d => rows !! d ≫= dict_to_list header) dates = Some recs /\
    fs s' !! tmp = Some (File (records f ++ recs) (torn f)).
Proof.
  induction dates as [|d dates IH]; intros s s' f; cbn [write_rows].
  { intros [= <-] Hf. exists []. split; [done|]. rewrite app_nil_r, Hf. by destruct f. }
  destruct (rows !! d) as [row|] eqn:Hrow; [|done].
  destruct (dict_to_list header row) as [rec|] eqn:Hrec; [|done].
  rewrite bind_unfold.
  destruct (fs_write E tmp rec s) as [[[]|e] s1] eqn:Hw; [|done].
  intros Hrest Hf.
  apply fs_write_inv in Hw as (f' & Hf' & Hf1).
  assert (f' = f) as -> by congruence.
  destruct (IH _ _ _ Hrest Hf1) as (recs & Hrecs & Hfinal).
  exists (rec :: recs). split.
  - cbn [mapM]. rewrite Hrow. simpl. rewrite Hrec. simpl.
    rewrite Hrecs. done.
  - rewrite Hfinal. simpl. by rewrite <- app_assoc.
Qed.

(** Everything up to the rename. *)
Definition write_tmp (tmp : string) (header : list string)
    (rows : gmap string (gmap string value)) (dates : list string) : M unit :=
  fs_open_w E tmp;;
  fs_write E tmp header;;
  write_rows E tmp header rows dates;;
  fs_close E tmp.

Lemma write_tmp_wrel tmp header rows dates :
  steps (wrel tmp) (write_tmp tmp header rows dates).
Proof. unfold write_tmp. frame. Qed.

Lemma write_tmp_inv tmp header rows dates s s' :
  write_tmp tmp header rows dates s = (Ok tt, s') ->
  exists recs,
    mapM (fun d => rows !! d ≫= dict_to_list header) dates = Some recs /\
    fs s' !! tmp = Some (File (header :: recs) false).
Proof.
  unfold write_tmp. rewrite bind_unfold.
  destruct (fs_open_w E tmp s) as [[[]|e] s1] eqn:H1; [|done].
  rewrite bind_unfold.
  destruct (fs_write E tmp header s1) as [[[]|e] s2] eqn:H2; [|done].
  rewrite bind_unfold.
  destruct (write_rows E tmp header rows dates s2) as [[[]|e] s3] eqn:H3; [|done].
  intros H4.
  apply fs_open_w_inv in H1.
  apply fs_write_inv in H2 as (f & Hf & H2). rewrite H1 in Hf. injection Hf as <-.
  destruct (write_rows_inv _ _ _ _ _ _ _ H3 H2) as (recs & Hrecs & H3').
  apply fs_close_inv in H4. exists recs. split; [done|]. rewrite H4, H3'. reflexivity.
Qed.

Lemma write_regroup {A} (a b c d : M unit) (e : M A) (s : state) :
  (a;; b;; c;; d;; e) s = ((a;; b;; c;; d);; e) s.
Proof.
  unfold mbind, M_bind, bind.
  destruct (a s) as [[[]|?] s1]; [|done].
  destruct (b s1) as [[[]|?] s2]; [|done].
  destruct (c s2) as [[[]|?] s3]; [|done].
  by destruct (d s3) as [[[]|?] s4].
Qed.

Lemma fs_replace_cases tmp dst s :
  (exists f, fs s !! tmp = Some f /\ io_fault E (ios s) = false /\
     fs_replace E tmp dst s =
       (Ok tt, State (clock s) (stamps s) (<[dst := f]> (delete tmp (fs s)))
                     (ticks s) (sent s) (S (ios s)) (issued s)
                     (fs_hist s ++ [<[dst := f]> (delete tmp (fs s))]) (log s))) \/
  (exists e s', fs_replace E tmp dst s = (Raise e, s') /\
     fs s' = fs s /\ fs_hist s' = fs_hist s /\
     (io_fault E (ios s) = true \/ fs s !! tmp = None)).
Proof.
  unfold fs_replace, mbind, M_bind, bind, io_step, get_fs, set_fs. simpl.
  destruct (io_fault E (ios s)) eqn:Hbad; simpl.
  - right. eexists _, _. split; [done|]. simpl. auto.
  - destruct (fs s !! tmp) as [f|]; simpl.
    + left. exists f. done.
    + right. eexists _, _. split; [done|]. simpl. auto.
Qed.

(** The [finally] block. *)
Definition cleanup (tmp : string) : M unit :=
  there ← fs_exists tmp;
  if there : bool then try_except (fs_unlink E tmp) (fun _ => ret tt) else ret tt.

Lemma cleanup_spec tmp s :
  exists s', cleanup tmp s = (Ok tt, s') /\ wrel tmp s s' /\
    (fs s !! tmp = None -> s' = s) /\
    (fs s' !! tmp = None \/
     (is_Some (fs s' !! tmp) /\ ios s' = S (ios s) /\ io_fault E (ios s) = true)).
Proof.
  unfold cleanup, fs_exists, mbind, M_bind, bind, get_fs. simpl.
  case_bool_decide as Hex.
  - unfold try_except, fs_unlink, mbind, M_bind, bind, io_step, get_fs, set_fs. simpl.
    destruct (io_fault E (ios s)) eqn:Hbad; simpl.
    + eexists. split; [done|]. split_and!.
      * by apply wrel_same.
      * intros Hnone. rewrite Hnone in Hex. by destruct Hex.
      * right. simpl. done.
    + eexists. split; [done|]. split_and!.
      * apply wrel_set; [done|]. simpl. intros p Hp. by rewrite lookup_delete_ne.
      * intros Hnone. rewrite Hnone in Hex. by destruct Hex.
      * left. simpl. by rewrite lookup_delete_eq.
  - exists s. split; [done|]. split_and!; [reflexivity | done |].
    left. by apply eq_None_not_Some.
Qed.

Lemma tmp_path_ne (path : Path) :
  suffix path <> ".tmp" -> path_str (with_suffix path ".tmp") <> path_str path.
Proof.
  intros Hne Heq. unfold path_str, with_suffix in Heq. simpl in Heq.
  by repeat apply (inj (String.app _)) in Heq.
Qed.

Lemma write_csv_rows_eval (path : Path) (rows : gmap string (gmap string value))
    (s : state) :
  let tmp := path_str (with_suffix path ".tmp") in
  let s0 := (emit (EvWriteCsv (path_str path) rows) s).2 in
  write_csv_rows cfg E path rows s =
    match (write_tmp tmp ("date" :: CURRENCIES cfg) rows
                     (sort_strings (map_to_list rows).*1);;
           fs_replace E tmp (path_str path)) s0 with
    | (r, s2) =>
        match cleanup tmp s2 with
        | (Ok _, s3) => (r, s3)
        | (Raise e, s3) => (Raise e, s3)
        end
    end.
Proof.
  intros tmp s0. unfold write_csv_rows. rewrite bind_unfold.
  change (emit (EvWriteCsv (path_str path) rows) s) with (Ok tt, s0).
  cbv beta iota zeta. unfold try_finally. fold tmp. rewrite write_regroup. reflexivity.
Qed.

(** Without I/O faults the temporary file gets written. *)
Section NoFault.
Hypothesis no_fault : forall n, io_fault E n = false.

Lemma fs_write_ok tmp rec s :
  is_Some (fs s !! tmp) -> exists s', fs_write E tmp rec s = (Ok tt, s').
Proof.
  intros [f Hf]. unfold fs_write, mbind, M_bind, bind, io_step, get_fs, set_fs. simpl.
  rewrite no_fault, Hf. by eexists.
Qed.

Lemma write_rows_ok tmp header rows dates : forall s recs,
  is_Some (fs s !! tmp) ->
  mapM (fun d => rows !! d ≫= dict_to_list header) dates = Some recs ->
  exists s', write_rows E tmp header rows dates s = (Ok tt, s').
Proof.
  induction dates as [|d dates IH]; intros s recs Hf; cbn [write_rows mapM].
  { intros _. by eexists. }
  destruct (rows !! d) as [row|]; simpl; [|done].
  destruct (dict_to_list header row) as [rec|]; simpl; [|done].
  destruct (mapM _ dates) as [recs'|] eqn:Hrecs; simpl; [|done]. intros _.
  destruct (fs_write_ok tmp rec s Hf) as [s1 Hw].
  rewrite bind_unfold, Hw.
  apply fs_write_inv in Hw as (f & _ & Hf1).
  by apply (IH s1 recs').
Qed.

Lemma write_tmp_ok tmp header rows dates s recs :
  mapM (fun d => rows !! d ≫= dict_to_list header) dates = Some recs ->
  exists s', write_tmp tmp header rows dates s = (Ok tt, s').
Proof.
  intros Hrecs. unfold write_tmp.
  assert (exists s1, fs_open_w E tmp s = (Ok tt, s1)) as [s1 H1].
  { unfold fs_open_w, mbind, M_bind, bind, io_step, get_fs, set_fs. simpl.
    rewrite no_fault. by eexists. }
  rewrite bind_unfold, H1. apply fs_open_w_inv in H1.
  destruct (fs_write_ok tmp header s1) as [s2 H2]; [by eexists|].
  rewrite bind_unfold, H2. apply fs_write_inv in H2 as (f & _ & H2).
  destruct (write_rows_ok tmp header rows dates s2 recs) as [s3 H3]; [by eexists | done |].
  rewrite bind_unfold, H3.
  unfold fs_close, mbind, M_bind, bind, io_step, get_fs, set_fs. simpl.
  rewrite no_fault. by eexists.
Qed.

End NoFault.

Lemma rendered_rows_shape (header : list string)
    (rows : gmap string (gmap string value)) (dates : list string) :
  forall recs,
  mapM (fun d => rows !! d ≫= dict_to_list header) dates = Some recs ->
  recs = (fun d => (fun key => render (rows !! d ≫= (.!! key))) <$> header) <$> dates.
Proof.
  induction dates as [|d dates IH]; intros recs; cbn [mapM]; [by intros [= <-]|].
  destruct (rows !! d) as [row|] eqn:Hrow; simpl; [|done].
  destruct (dict_to_list header row) as [rec|] eqn:Hrec; simpl; [|done].
  destruct (mapM _ dates) as [recs'|]; simpl; [|done].
  intros [= <-]. f_equal; [|by apply IH].
  rewrite Hrow. simpl.
  unfold dict_to_list in Hrec. case_decide; [|done]. by injection Hrec as <-.
Qed.

(** The two ways a write ends.  Either the temporary file was written
    in full and renamed over the destination, or the call raised
    having touched the temporary file only. *)
Lemma write_csv_rows_cases (path : Path)
    (rows : gmap string (gmap string value)) (s : state) :
  suffix path <> ".tmp" ->
  let dst := path_str path in
  let tmp := path_str (with_suffix path ".tmp") in
  let out := write_csv_rows cfg E path rows s in
  (exists recs s1,
     rendered_rows rows = Some recs /\ wrel tmp s s1 /\ out.1 = Ok tt /\
     fs out.2 = <[dst := new_file recs]> (delete tmp (fs s1)) /\
     fs_hist out.2 = fs_hist s1 ++ [fs out.2]) \/
  (exists e,
     out.1 = Raise e /\ wrel tmp s out.2 /\
     (fs out.2 !! tmp = None \/
      (is_Some (fs out.2 !! tmp) /\ io_fault E (pred (ios out.2)) = true)) /\
     ((forall n, io_fault E n = false) -> is_Some (rendered_rows rows) -> False)).
Proof.
  intros Hsfx dst tmp out.
  assert (Hne : tmp <> dst) by (by apply tmp_path_ne).
  subst out. rewrite write_csv_rows_eval. fold tmp dst.
  set (s0 := (emit (EvWriteCsv dst rows) s).2).
  assert (Hs0 : wrel tmp s s0) by (by apply wrel_same).
  clearbody s0.
  set (header := "date" :: CURRENCIES cfg).
  set (dates := sort_strings (map_to_list rows).*1).
  rewrite bind_unfold.
  pose proof (write_tmp_wrel tmp header rows dates s0) as Hw.
  (* what happens once the body has raised in a state [s2] *)
  assert (Hfail : forall e s2, wrel tmp s0 s2 ->
    ((forall n, io_fault E n = false) -> is_Some (rendered_rows rows) -> False) ->
    let out := (let (r0, s3) := cleanup tmp s2 in
                match r0 with Ok _ => (Raise e : result unit, s3)
                            | Raise e' => (Raise e', s3) end) in
    exists e,
      out.1 = Raise e /\ wrel tmp s out.2 /\
      (fs out.2 !! tmp = None \/
       (is_Some (fs out.2 !! tmp) /\ io_fault E (pred (ios out.2)) = true)) /\
      ((forall n, io_fault E n = false) -> is_Some (rendered_rows rows) -> False)).
  { intros e s2 Hw2 Himp.
    destruct (cleanup_spec tmp s2) as (s3 & -> & Hw3 & _ & Htmp). simpl.
    exists e. split_and!; [done | by repeat (etrans; [eassumption|]) | | done].
    destruct Htmp as [?|(? & Hios & ?)]; [by left | right].
    split; [done|]. by rewrite Hios. }
  destruct (write_tmp tmp header rows dates s0) as [[[]|e1] s1] eqn:Htmp; simpl in Hw.
  2:{ right. apply Hfail; [done|]. intros Hnf [recs Hrecs].
      destruct (write_tmp_ok Hnf tmp header rows dates s0 recs Hrecs) as [s1' Hok].
      congruence. }
  destruct (write_tmp_inv _ _ _ _ _ _ Htmp) as (recs & Hrecs & Hf1).
  destruct (fs_replace_cases tmp dst s1)
    as [(f & Hf & Hnof & ->)|(e & s2 & -> & Hfs2 & Hh2 & Hwhy)].
  2:{ right. apply Hfail.
      - etrans; [exact Hw|]. by apply wrel_same.
      - intros Hnf _. destruct Hwhy as [Hbad|Hnone]; [|congruence].
        rewrite Hnf in Hbad. done. }
  assert (f = new_file recs) as ->.
  { rewrite Hf1 in Hf. by injection Hf as <-. }
  set (s2 := State _ _ _ _ _ _ _ _ _).
  destruct (cleanup_spec tmp s2) as (s3 & -> & _ & Hsame & _).
  assert (fs s2 !! tmp = None) as Hgone.
  { subst s2. simpl. rewrite lookup_insert_ne by done. apply lookup_delete_eq. }
  rewrite (Hsame Hgone). simpl.
  left. exists recs, s1. split_and!; [done | by etrans | done | done | done].
Qed.

(** The part of it the run coordinator relies on. *)
Lemma write_csv_rows_returns (path : Path)
    (rows : gmap string (gmap string value)) (s : state) :
  suffix path <> ".tmp" ->
  let out := write_csv_rows cfg E path rows s in
  (out.1 = Ok tt ->
     exists recs, rendered_rows rows = Some recs /\
       fs out.2 !! path_str path = Some (new_file recs)) /\
  ((forall n, io_fault E n = false) -> is_Some (rendered_rows rows) -> out.1 = Ok tt).
Proof.
  intros Hsfx out. subst out.
  destruct (write_csv_rows_cases path rows s Hsfx)
    as [(recs & s1 & Hrecs & _ & Hok & Hfs & _)|(e & Hraise & _ & _ & Himp)].
  - split; [|done]. intros _. exists recs. split; [done|].
    rewrite Hfs. apply lookup_insert_eq.
  - split; [congruence|]. intros Hnf Hsome. destruct (Himp Hnf Hsome).
Qed.

(** C5 (as amended). [write_csv_rows] prints the header ("date",
    then the configured currencies) and one row per key in ascending
    key order into a temporary file of the same directory and renames
    it over the destination.  Every file-system state during the call
    shows the destination either as it was or with the complete new
    content, and no other file than the two is touched.  When the call
    returns, the destination holds the new content and the temporary
    file is gone; when it raises, the destination is as it was, and
    the temporary file is gone unless its removal itself failed (the
    failure is ignored and the file stays).  Without I/O faults, and
    with rows whose keys are all in the header, the call returns. *)
Theorem write_csv_rows_atomic (path : Path)
    (rows : gmap string (gmap string value)) (s : state) :
  suffix path <> ".tmp" ->
  let dst := path_str path in
  let tmp := path_str (with_suffix path ".tmp") in
  let r := (write_csv_rows cfg E path rows s).1 in
  let s' := (write_csv_rows cfg E path rows s).2 in
  parent (with_suffix path ".tmp") = parent path /\
  (forall recs, rendered_rows rows = Some recs ->
     recs = (fun d => (fun key => render (rows !! d ≫= (.!! key)))
                        <$> ("date" :: CURRENCIES cfg))
              <$> sort_strings (map_to_list rows).*1) /\
  StronglySorted String.le (sort_strings (map_to_list rows).*1) /\
  (forall p, p <> dst -> p <> tmp -> fs s' !! p = fs s !! p) /\
  (exists snaps, fs_hist s' = fs_hist s ++ snaps /\
     Forall (fun files : gmap string file =>
               files !! dst = fs s !! dst \/
               exists recs, rendered_rows rows = Some recs /\
                            files !! dst = Some (new_file recs)) snaps) /\
  (r = Ok tt ->
     exists recs, rendered_rows rows = Some recs /\
       fs s' !! dst = Some (new_file recs) /\ fs s' !! tmp = None) /\
  (forall e, r = Raise e ->
     fs s' !! dst = fs s !! dst /\
     (fs s' !! tmp = None \/
      (is_Some (fs s' !! tmp) /\ io_fault E (pred (ios s')) = true))) /\
  ((forall n, io_fault E n = false) -> is_Some (rendered_rows rows) -> r = Ok tt).
Proof.
  intros Hsfx dst tmp r s'.
  assert (Hne : tmp <> dst) by (by apply tmp_path_ne).
  split; [done|]. split; [apply rendered_rows_shape|].
  split; [apply sort_strings_sorted|].
  destruct (write_csv_rows_cases path rows s Hsfx)
    as [(recs & s1 & Hrecs & Hw & Hok & Hfs & Hh)
       |(e & Hraise & Hw & Htmp & Himp)];
    fold dst tmp in Hw; subst r s'; cbv zeta in *;
    destruct Hw as (Hoff & snaps & Hsn & Hall).
  - split_and!.
    + intros p Hp Hp'. rewrite Hfs, lookup_insert_ne, lookup_delete_ne by done.
      by apply Hoff.
    + exists (snaps ++ [<[dst := new_file recs]> (delete tmp (fs s1))]).
      rewrite Hh, Hfs, Hsn, app_assoc. split; [done|].
      apply Forall_app. split.
      * eapply Forall_impl; [exact Hall|]. simpl. intros files Hfiles. left.
        by apply Hfiles.
      * constructor; [|done]. right. exists recs. split; [done|].
        apply lookup_insert_eq.
    + intros _. exists recs. split_and!; [done | |].
      * rewrite Hfs. apply lookup_insert_eq.
      * rewrite Hfs, lookup_insert_ne by done. apply lookup_delete_eq.
    + intros e He. congruence.
    + done.
  - split_and!.
    + intros p _ Hp. by apply Hoff.
    + exists snaps. split; [done|].
      eapply Forall_impl; [exact Hall|]. simpl. intros files Hfiles. left.
      by apply Hfiles.
    + intros Hok. congruence.
    + intros _ _. split; [by apply Hoff | done].
    + intros Hnf Hsome. destruct (Himp Hnf Hsome).
Qed.

(** ** The locked section *)

(** The state in which the lock is held: the archive as other runs
    left it. *)
Definition lock_state (s : state) : state :=
  State (clock s) (stamps s) (interfere E (fs s)) (ticks s) (sent s) (ios s)
        (issued s) (fs_hist s ++ [interfere E (fs s)]) (log s).

Lemma under_lock_eval (year month : Z) (planned : list string) (s : state) :
  under_lock cfg E year month planned s =
    if lock_free E then
      match locked_section cfg E year month planned (lock_state s) with
      | (Ok code, s2) => (Ok code, s2)
      | (Raise _, s2) => (Ok 1, s2)
      end
    else (Ok 1, s).
Proof.
  unfold under_lock, acquire_lock. rewrite bind_unfold.
  destruct (lock_free E); [|done].
  unfold try_except, mbind, M_bind, bind, get_fs, set_fs, ret. simpl.
  fold (lock_state s).
  by destruct (locked_section cfg E year month planned (lock_state s)) as [[?|?] ?].
Qed.

Lemma locked_section_eval (year month : Z) (planned : list string) (s1 : state) :
  let path := csv_path_for cfg year month in
  let existing_rows := (read_csv_rows cfg (fs s1) path).1 in
  locked_section cfg E year month planned s1 =
    match dates_in_month year month with
    | None => (Raise ValueError, s1)
    | Some all_dates =>
        match revalidate existing_rows all_dates planned with
        | [] => (Ok 0, s1)
        | d1 :: rest =>
            match fetch_loop cfg E (d1 :: rest) ∅ s1 with
            | (Ok (Some _, rows_fetched), s2) =>
                if negb (size rows_fetched =? 0)%nat then
                  match write_csv_rows cfg E path (rows_fetched ∪ existing_rows) s2 with
                  | (Ok _, s3) => (Ok 1, s3)
                  | (Raise e, s3) => (Raise e, s3)
                  end
                else (Ok 1, s2)
            | (Ok (None, rows_fetched), s2) =>
                match write_csv_rows cfg E path (rows_fetched ∪ existing_rows) s2 with
                | (Ok _, s3) => (Ok 0, s3)
                | (Raise e, s3) => (Raise e, s3)
                end
            | (Raise e, s2) => (Raise e, s2)
            end
        end
    end.
Proof.
  intros path existing_rows. unfold locked_section. rewrite bind_unfold.
  unfold get_fs. cbv beta iota zeta. fold path. fold existing_rows.
  destruct (dates_in_month year month) as [all_dates|]; [|done].
  destruct (revalidate existing_rows all_dates planned) as [|d1 rest]; [done|].
  rewrite bind_unfold.
  destruct (fetch_loop cfg E (d1 :: rest) ∅ s1) as [[[[e|] rows_fetched]|e] s2];
    [| |done].
  - rewrite bind_unfold. unfold when_.
    destruct (negb (size rows_fetched =? 0)%nat); [|done].
    by destruct (write_csv_rows cfg E path _ s2) as [[[]|?] ?].
  - rewrite bind_unfold.
    by destruct (write_csv_rows cfg E path _ s2) as [[[]|?] ?].
Qed.

Lemma missing_in_elem (existing : gmap string (gmap string value))
    (all_dates : list string) (d : string) :
  d ∈ missing_in existing all_dates <-> d ∈ all_dates /\ existing !! d = None.
Proof.
  unfold missing_in. rewrite !list_elem_of_In, filter_In, bool_decide_eq_true. done.
Qed.

(** The dates that survive the re-check are the planned dates that are
    a date of the month and still absent from the archive, ascending. *)
Lemma revalidate_elem (existing : gmap string (gmap string value))
    (all_dates planned : list string) (d : string) :
  d ∈ revalidate existing all_dates planned <->
  d ∈ planned /\ d ∈ all_dates /\ existing !! d = None.
Proof.
  unfold revalidate. rewrite (sort_strings_perm _).
  rewrite list_elem_of_In, filter_In, bool_decide_eq_true, <- list_elem_of_In.
  by rewrite missing_in_elem.
Qed.

Lemma revalidate_nil (existing : gmap string (gmap string value))
    (all_dates planned : list string) :
  (forall d, d ∈ planned -> is_Some (existing !! d)) ->
  revalidate existing all_dates planned = [].
Proof.
  intros Hall. destruct (revalidate existing all_dates planned) as [|d l] eqn:Hr; [done|].
  assert (Hd : d ∈ revalidate existing all_dates planned) by (rewrite Hr; by left).
  apply revalidate_elem in Hd as (Hp & _ & Hnone).
  destruct (Hall d Hp) as [? ?]. congruence.
Qed.

Lemma find_target_valid (files : gmap string file) (months : list (Z * Z)) :
  forall y m missing existing,
  find_target cfg files months = Ok (Some (y, m, missing, existing)) ->
  is_Some (dates_in_month y m).
Proof.
  induction months as [|[y0 m0] months IH]; intros y m missing existing; simpl; [done|].
  destruct (dates_in_month y0 m0) as [all_dates|] eqn:Hd; [|done].
  destruct (missing_in _ all_dates); [by apply IH|].
  intros [= <- <- _ _]. by rewrite Hd.
Qed.

Lemma pre_lock_valid (s s1 : state) (y m : Z) (planned : list string) :
  pre_lock cfg E s = (Ok (inr (y, m, planned)), s1) ->
  is_Some (dates_in_month y m) /\ net_only "/status" s s1.
Proof.
  intros Hpre. pose proof (get_status_net s) as Hnet.
  rewrite pre_lock_eval in Hpre.
  destruct (get_status cfg E s) as [[[remaining|]|e] s1']; [|done|done].
  destruct (find_target cfg (fs s1') _) as [[[[[y' m'] missing] existing]|]|] eqn:Hft;
    [|done|done].
  destruct (plan cfg remaining missing); [done|].
  injection Hpre as -> -> -> ->. split; [|done]. by eapply find_target_valid.
Qed.

(** C2. Once the lock is held the month is re-read and the planned
    dates are intersected with the dates still missing; when every
    planned date is present in the re-read archive, the run sends no
    request, writes nothing and returns 0. *)
Theorem lock_revalidation_noop (s s1 : state) (y m : Z) (planned : list string) :
  pre_lock cfg E s = (Ok (inr (y, m, planned)), s1) ->
  lock_free E = true ->
  (forall d, d ∈ planned ->
     is_Some ((read_csv_rows cfg (interfere E (fs s1)) (csv_path_for cfg y m)).1 !! d)) ->
  main cfg E s = (Ok 0, lock_state s1) /\
  sent (lock_state s1) = sent s1 /\
  log (lock_state s1) = log s1 /\
  Forall (net_event "/status") (drop (length (log s)) (log (lock_state s1))) /\
  fs (lock_state s1) = interfere E (fs s1).
Proof.
  intros Hpre Hlock Hpresent.
  destruct (pre_lock_valid _ _ _ _ _ Hpre) as [[all_dates Hdates] Hnet].
  split_and!; try done.
  - rewrite main_eval, Hpre, under_lock_eval, Hlock, locked_section_eval, Hdates.
    by rewrite revalidate_nil.
  - destruct Hnet as (_ & _ & _ & evs & Hlog & Hevs). simpl.
    by rewrite Hlog, drop_app_length.
Qed.

(** ** The fetch loop *)

Lemma fetch_loop_cons (dt : string) (dates : list string)
    (rows : gmap string (gmap string value)) (s : state) :
  fetch_loop cfg E (dt :: dates) rows s =
    match get_historical_for_date cfg E dt s with
    | (Ok row, s1) => fetch_loop cfg E dates (<[dt := row]> rows) s1
    | (Raise e, s1) => (Ok (Some e, rows), s1)
    end.
Proof.
  cbn [fetch_loop]. rewrite bind_unfold. unfold try_except. rewrite bind_unfold.
  by destruct (get_historical_for_date cfg E dt s) as [[row|e] s1].
Qed.

(** The loop never raises; it fetches a prefix of the dates, keeps one
    row per fetched date, and stops at the first date whose fetch
    raises. *)
Lemma fetch_loop_spec (dates : list string) :
  forall (rows0 : gmap string (gmap string value)) (s : state),
  exists err rows fetched pending,
    (fetch_loop cfg E dates rows0 s).1 = Ok (err, rows) /\
    dates = fetched ++ pending /\
    (forall d, d ∉ fetched -> rows !! d = rows0 !! d) /\
    (forall d, d ∈ fetched ->
       exists row sa, (get_historical_for_date cfg E d sa).1 = Ok row /\
                      rows !! d = Some row) /\
    match err with
    | None => pending = []
    | Some e => exists d rest sa, pending = d :: rest /\
                  (get_historical_for_date cfg E d sa).1 = Raise e
    end.
Proof.
  induction dates as [|dt dates IH]; intros rows0 s.
  { exists None, rows0, [], []. split_and!; try done. by intros d ?%elem_of_nil. }
  rewrite fetch_loop_cons.
  destruct (get_historical_for_date cfg E dt s) as [[row|e] s1] eqn:Hget.
  - destruct (IH (<[dt := row]> rows0) s1)
      as (err & rows & fetched & pending & Hres & -> & Hout & Hin & Herr).
    exists err, rows, (dt :: fetched), pending. split_and!; try done.
    + intros d Hd. rewrite Hout by (intros ?; apply Hd; by right).
      apply lookup_insert_ne. intros ->. apply Hd. by left.
    + intros d Hd. destruct (decide (d ∈ fetched)) as [Hf|Hf]; [by apply Hin|].
      apply elem_of_cons in Hd as [->|?]; [|done].
      exists row, s. rewrite Hget. split; [done|].
      rewrite Hout by done. apply lookup_insert_eq.
  - exists (Some e), rows0, [], (dt :: dates). split_and!; try done.
    + by intros d ?%elem_of_nil.
    + exists dt, dates, s. by rewrite Hget.
Qed.

(** Rows with exactly the columns of the header. *)
Definition wf_row (row : gmap string value) : Prop :=
  forall k, is_Some (row !! k) <-> k ∈ CURRENCIES cfg \/ k = "date".

Lemma wf_row_render (row : gmap string value) :
  wf_row row -> is_Some (dict_to_list ("date" :: CURRENCIES cfg) row).
Proof.
  intros Hwf. unfold dict_to_list. rewrite decide_True; [by eexists|].
  intros k Hk. apply elem_of_dom, Hwf in Hk. apply elem_of_list_to_set.
  destruct Hk as [?| ->]; [by right | by left].
Qed.

Lemma rendered_rows_wf (rows : gmap string (gmap string value)) :
  (forall d row, rows !! d = Some row -> wf_row row) ->
  is_Some (rendered_rows rows).
Proof.
  intros Hwf. unfold rendered_rows. apply mapM_is_Some, Forall_forall.
  intros d Hd. rewrite (sort_strings_perm _) in Hd.
  apply list_elem_of_fmap in Hd as ([d' row] & -> & Hin).
  apply elem_of_map_to_list in Hin. simpl. rewrite Hin. simpl.
  apply wf_row_render. by eapply Hwf.
Qed.

Lemma read_csv_rows_wf (files : gmap string file) (path : Path) (d : string)
    (row : gmap string value) :
  (read_csv_rows cfg files path).1 !! d = Some row -> wf_row row.
Proof.
  unfold read_csv_rows. destruct (files !! path_str path) as [f|]; simpl.
  2:{ by rewrite lookup_empty. }
  intros Hl. apply read_fold_lookup in Hl as [Hl|(r & _ & _ & _ & ->)].
  { by rewrite lookup_empty in Hl. }
  intros k. rewrite normalize_row_lookup.
  destruct (decide (k ∈ CURRENCIES cfg)); [by split; [left | eexists]|].
  destruct (decide (k = "date")); [by split; [right | eexists]|].
  split; [by intros [? ?] | by intros [?|?]].
Qed.

Lemma historical_wf (date_iso : string) (s : state) (row : gmap string value) :
  (get_historical_for_date cfg E date_iso s).1 = Ok row -> wf_row row.
Proof.
  destruct (get_historical_for_date cfg E date_iso s) as [r s'] eqn:Hget. simpl.
  intros ->. destruct (historical_fill _ _ _ _ Hget) as [day Hfill].
  intros k. rewrite (fill_row_keys _ _ _ _ k Hfill).
  destruct (decide (k = "date")) as [->|Hne].
  - rewrite lookup_singleton_eq. split; [by right | by right].
  - rewrite lookup_singleton_ne by done.
    split; [by intros [?|[? [=]]]; left | intros [?|?]; [by left | done]].
Qed.

(** Steps that add nothing to the trace. *)
Definition silent (s s' : state) : Prop := log s' = log s.

#[local] Instance silent_preorder : PreOrder silent.
Proof. split; unfold silent; [done | congruence]. Qed.

Lemma io_step_silent : steps silent (io_step E).
Proof. by intros s. Qed.
Lemma set_fs_silent files : steps silent (set_fs files).
Proof. by intros s. Qed.
Lemma get_fs_silent : steps silent get_fs.
Proof. by intros s. Qed.

Hint Resolve io_step_silent set_fs_silent get_fs_silent : frame.

Lemma write_rows_silent tmp header rows dates :
  steps silent (write_rows E tmp header rows dates).
Proof. induction dates as [|d dates IH]; simpl; unfold fs_write; frame. Qed.

Lemma write_csv_rows_log (path : Path) (rows : gmap string (gmap string value))
    (s : state) :
  log (write_csv_rows cfg E path rows s).2 = log s ++ [EvWriteCsv (path_str path) rows].
Proof.
  unfold write_csv_rows. rewrite bind_unfold.
  change (emit (EvWriteCsv (path_str path) rows) s)
    with (Ok tt, (emit (EvWriteCsv (path_str path) rows) s).2).
  cbv beta iota zeta.
  set (s0 := (emit (EvWriteCsv (path_str path) rows) s).2).
  change (log s ++ [EvWriteCsv (path_str path) rows]) with (log s0).
  generalize s0. change (steps silent
    (try_finally
       (fs_open_w E (path_str (with_suffix path ".tmp"));;
        fs_write E (path_str (with_suffix path ".tmp")) ("date" :: CURRENCIES cfg);;
        write_rows E (path_str (with_suffix path ".tmp")) ("date" :: CURRENCIES cfg)
          rows (sort_strings (map_to_list rows).*1);;
        fs_close E (path_str (with_suffix path ".tmp"));;
        fs_replace E (path_str (with_suffix path ".tmp")) (path_str path))
       (there ← fs_exists (path_str (with_suffix path ".tmp"));
        if there : bool
        then try_except (fs_unlink E (path_str (with_suffix path ".tmp")))
                        (fun _ => ret tt)
        else ret tt))).
  pose proof write_rows_silent.
  unfold fs_open_w, fs_write, fs_close, fs_replace, fs_exists, fs_unlink. frame.
Qed.

(** C9. When the fetch of the first date to fetch raises, so that no
    row has been collected, the run returns 1 without calling
    [write_csv_rows]: since the lock was taken it has only sent
    requests to the historical endpoint, and the file system is as it
    was when the lock was taken. *)
Theorem fetch_failure_before_any_row (s s1 : state) (y m : Z)
    (planned : list string) (d1 : string) (rest : list string) (e : exn) :
  pre_lock cfg E s = (Ok (inr (y, m, planned)), s1) ->
  lock_free E = true ->
  revalidate (read_csv_rows cfg (fs (lock_state s1)) (csv_path_for cfg y m)).1
             (default [] (dates_in_month y m)) planned = d1 :: rest ->
  (get_historical_for_date cfg E d1 (lock_state s1)).1 = Raise e ->
  let s2 := (get_historical_for_date cfg E d1 (lock_state s1)).2 in
  main cfg E s = (Ok 1, s2) /\
  fs s2 = fs (lock_state s1) /\
  fs_hist s2 = fs_hist (lock_state s1) /\
  exists evs, log s2 = log (lock_state s1) ++ evs /\
              Forall (net_event "/historical") evs.
Proof.
  intros Hpre Hlock Hreval Hfail s2.
  destruct (pre_lock_valid _ _ _ _ _ Hpre) as [[all_dates Hdates] _].
  rewrite Hdates in Hreval. change (default [] (Some all_dates)) with all_dates in Hreval.
  pose proof (get_historical_net d1 (lock_state s1)) as (Hfs & Hh & _ & Hlog).
  fold s2 in Hfs, Hh, Hlog. split_and!; try done.
  rewrite main_eval, Hpre, under_lock_eval, Hlock, locked_section_eval, Hdates, Hreval.
  rewrite fetch_loop_cons. subst s2.
  destruct (get_historical_for_date cfg E d1 (lock_state s1)) as [[row|e'] s2'];
    simpl in *; [done|].
  by rewrite map_size_empty.
Qed.


(** * Further properties of the script *)

(** ** Status query and exit codes *)

Lemma get_status_eval (s : state) :
  get_status cfg E s =
    match do_request cfg E "/status" None false s with
    | (Raise _, s1) => (Ok None, s1)
    | (Ok resp, s1) =>
        if negb (status_code resp =? 200) then (Ok None, s1)
        else match resp_body resp with
             | BodyInvalid => (Raise JSONDecodeError, s1)
             | BodyObject remaining _ => (Ok (Some remaining), s1)
             end
    end.
Proof.
  unfold get_status. rewrite bind_unfold. unfold try_except. rewrite bind_unfold.
  destruct (do_request cfg E "/status" None false s) as [[resp|e] s1]; [|done].
  unfold ret. cbv beta iota.
  destruct (negb (status_code resp =? 200)); [done|].
  by destruct (resp_body resp).
Qed.

(** When the status request ends in an exception or in an answer
    other than 200, [main] returns 1 having done nothing but query the
    status endpoint; when the answer is a 200 whose body cannot be
    decoded, the exception of [r.json()] leaves [main] uncaught. *)
Theorem status_unavailable_fails_closed (s : state) :
  let r := do_request cfg E "/status" None false s in
  ((exists e, r.1 = Raise e) \/
   (exists resp, r.1 = Ok resp /\ status_code resp <> 200) ->
     main cfg E s = (Ok 1, r.2)) /\
  (forall resp, r.1 = Ok resp -> status_code resp = 200 ->
     resp_body resp = BodyInvalid ->
     main cfg E s = (Raise JSONDecodeError, r.2)) /\
  net_only "/status" s r.2.
Proof.
  intros r. subst r. split_and!.
  - intros Hbad. rewrite main_eval, pre_lock_eval, get_status_eval.
    destruct (do_request cfg E "/status" None false s) as [[resp|e] s1]; simpl in *;
      [|done].
    destruct Hbad as [[e [=]]|(resp' & [= <-] & Hne)].
    destruct (Z.eqb_spec (status_code resp) 200); [done|]. done.
  - intros resp Hr H200 Hbody. rewrite main_eval, pre_lock_eval, get_status_eval.
    destruct (do_request cfg E "/status" None false s) as [[resp'|e] s1]; simpl in *;
      [|done].
    injection Hr as ->. rewrite H200, Hbody. done.
  - apply do_request_net.
Qed.

Lemma plan_stop_code (remaining : option Z) (missing : list string) (code : Z) :
  plan cfg remaining missing = Stop code -> code = 0 \/ code = 1.
Proof.
  unfold plan, budget. destruct remaining as [remaining|]; [|intros [= <-]; by right].
  repeat match goal with
         | |- context [if ?b then _ else _] => destruct b
         end; intros [= <-]; auto.
Qed.

(** [main] returns only 0 or 1; an exception leaves it only from the
    part before the lock, and then it is the decoding error of the
    status body or the [ValueError] of a year [date] rejects. *)
Theorem main_exit_codes (s : state) :
  (forall code, (main cfg E s).1 = Ok code -> code = 0 \/ code = 1) /\
  (forall e, (main cfg E s).1 = Raise e ->
     (pre_lock cfg E s).1 = Raise e /\ (e = JSONDecodeError \/ e = ValueError)).
Proof.
  rewrite main_eval.
  assert (Hlocked : forall y m planned s1 code,
    (under_lock cfg E y m planned s1).1 = Ok code -> code = 0 \/ code = 1).
  { intros y m planned s1 code. rewrite under_lock_eval.
    destruct (lock_free E); [|simpl; intros [= <-]; by right].
    rewrite locked_section_eval.
    destruct (dates_in_month y m) as [all_dates|]; [|simpl; intros [= <-]; by right].
    destruct (revalidate _ all_dates planned) as [|d1 rest];
      [simpl; intros [= <-]; by left|].
    destruct (fetch_loop cfg E (d1 :: rest) ∅ _) as [[[[e|] rows]|e] s2].
    - destruct (negb _); [|simpl; intros [= <-]; by right].
      destruct (write_csv_rows cfg E _ _ s2) as [[[]|?] ?]; simpl; intros [= <-]; by right.
    - destruct (write_csv_rows cfg E _ _ s2) as [[[]|?] ?]; simpl; intros [= <-]; auto.
    - simpl; intros [= <-]; by right. }
  assert (Hnoraise : forall y m planned s1 e,
    (under_lock cfg E y m planned s1).1 <> Raise e).
  { intros y m planned s1 e. rewrite under_lock_eval.
    destruct (lock_free E); [|done].
    by destruct (locked_section cfg E y m planned (lock_state s1)) as [[?|?] ?]. }
  rewrite pre_lock_eval, get_status_eval.
  destruct (do_request cfg E "/status" None false s) as [[resp|e0] s1].
  2:{ simpl. split; [intros code [= <-]; by right | done]. }
  destruct (negb (status_code resp =? 200)).
  { simpl. split; [intros code [= <-]; by right | done]. }
  destruct (resp_body resp) as [|remaining data].
  { simpl. split; [done | intros e [= <-]; auto]. }
  destruct (find_target cfg (fs s1) _) as [[[[[y m] missing] existing]|]|] eqn:Hft.
  - destruct (plan cfg remaining missing) as [code|dates] eqn:Hplan.
    + simpl. split; [|done]. intros c [= <-]. by eapply plan_stop_code.
    + split; [by apply Hlocked|]. intros e He. by apply Hnoraise in He.
  - simpl. split; [intros code [= <-]; by left | done].
  - simpl. split; [done|]. intros e' [= <-]. split; [done|]. right.
    clear -Hft. revert Hft. generalize (months_since E (START_YEAR cfg)).
    intros months. induction months as [|[y m] months IH]; simpl; [done|].
    destruct (dates_in_month y m); [|by intros [= <-]].
    by destruct (missing_in _ _).
Qed.

(** When the lock cannot be taken within its timeout, [main] returns 1
    having only queried the status endpoint: no rate is fetched and
    no file is touched. *)
Theorem lock_timeout_fails_cleanly (s s1 : state) (y m : Z) (planned : list string) :
  pre_lock cfg E s = (Ok (inr (y, m, planned)), s1) ->
  lock_free E = false ->
  main cfg E s = (Ok 1, s1) /\ net_only "/status" s s1.
Proof.
  intros Hpre Hlock. destruct (pre_lock_valid _ _ _ _ _ Hpre) as [_ Hnet].
  split; [|done]. by rewrite main_eval, Hpre, under_lock_eval, Hlock.
Qed.

(** ** What a run plans and what it touches *)

Lemma find_target_missing (files : gmap string file) (months : list (Z * Z)) :
  forall y m missing existing,
  find_target cfg files months = Ok (Some (y, m, missing, existing)) ->
  missing = month_missing files y m /\ missing <> [] /\
  existing = (read_csv_rows cfg files (csv_path_for cfg y m)).1.
Proof.
  induction months as [|[y0 m0] months IH]; intros y m missing existing; simpl; [done|].
  destruct (dates_in_month y0 m0) as [all_dates|] eqn:Hd; [|done].
  destruct (missing_in _ all_dates) as [|d0 l] eqn:Hmiss; [by apply IH|].
  intros [= <- <- <- <-]. unfold month_missing. by rewrite Hd.
Qed.

(** The dates planned for a run are missing dates of the target month
    in ascending order, at least one and never more than the quota the
    status endpoint reported minus the safety buffer. *)
Theorem plan_within_quota (s s1 : state) (y m : Z) (planned : list string) :
  pre_lock cfg E s = (Ok (inr (y, m, planned)), s1) ->
  exists remaining,
    get_status cfg E s = (Ok (Some (Some remaining)), s1) /\
    planned <> [] /\
    Z.of_nat (length planned) <= remaining - SAFETY_BUFFER cfg /\
    StronglySorted String.le planned /\
    (forall d, d ∈ planned -> d ∈ month_missing (fs s1) y m).
Proof.
  intros Hpre. rewrite pre_lock_eval in Hpre.
  destruct (get_status cfg E s) as [[[remaining|]|e] s1']; [|done|done].
  destruct (find_target cfg (fs s1') _) as [[[[[y' m'] missing] existing]|]|] eqn:Hft;
    [|done|done].
  destruct (plan cfg remaining missing) as [code|dates] eqn:Hplan; [done|].
  injection Hpre as -> -> -> ->.
  apply find_target_missing in Hft as (-> & Hne & _).
  destruct remaining as [remaining|]; [|done].
  exists remaining. split; [done|].
  set (missing := month_missing (fs s1) y m) in *.
  rewrite plan_cases in Hplan.
  assert (0 < length missing)%nat by (destruct missing; [done | simpl; lia]).
  pose proof (sort_strings_length missing) as Hlen.
  pose proof (sort_strings_sorted missing) as Hsorted.
  assert (Hsub : forall n d, d ∈ take n (sort_strings missing) -> d ∈ missing).
  { intros n d Hd. apply (subseteq_take n) in Hd. by rewrite (sort_strings_perm _) in Hd. }
  repeat case_decide; try done.
  - injection Hplan as <-. split_and!.
    + intros Hnil. rewrite Hnil in Hlen. simpl in Hlen. lia.
    + lia.
    + done.
    + intros d Hd. by rewrite (sort_strings_perm _) in Hd.
  - destruct (ALLOW_PARTIAL_MONTH cfg); [|done]. injection Hplan as <-. split_and!.
    + intros Hnil. apply (f_equal length) in Hnil.
      rewrite length_take in Hnil. simpl in Hnil. lia.
    + rewrite length_take. lia.
    + rewrite <- (take_drop (Z.to_nat (remaining - SAFETY_BUFFER cfg))
                   (sort_strings missing)) in Hsorted.
      by apply StronglySorted_app_1_l in Hsorted.
    + apply Hsub.
Qed.

Lemma write_csv_rows_others (path : Path)
    (rows : gmap string (gmap string value)) (s : state) (p : string) :
  suffix path <> ".tmp" ->
  p <> path_str path -> p <> path_str (with_suffix path ".tmp") ->
  fs (write_csv_rows cfg E path rows s).2 !! p = fs s !! p.
Proof.
  intros Hsfx Hp Hp'.
  destruct (write_csv_rows_cases path rows s Hsfx)
    as [(recs & s1 & _ & (Hoff & _) & _ & Hfs & _)|(e & _ & (Hoff & _) & _)].
  - rewrite Hfs, lookup_insert_ne, lookup_delete_ne by done. by apply Hoff.
  - by apply Hoff.
Qed.

(** A run changes no file but the target month's CSV and its
    temporary file: every other path is as it was when the lock was
    taken (or as at the start, when the run never took the lock). *)
Theorem main_touches_target_only (s s1 : state) (y m : Z) (planned : list string)
    (p : string) :
  pre_lock cfg E s = (Ok (inr (y, m, planned)), s1) ->
  p <> path_str (csv_path_for cfg y m) ->
  p <> path_str (with_suffix (csv_path_for cfg y m) ".tmp") ->
  fs s1 = fs s /\
  fs (main cfg E s).2 !! p =
    (if lock_free E then interfere E (fs s) else fs s) !! p.
Proof.
  intros Hpre Hp Hp'. destruct (pre_lock_valid _ _ _ _ _ Hpre) as [_ (Hfs & _)].
  split; [done|]. rewrite main_eval, Hpre, under_lock_eval.
  destruct (lock_free E); [|simpl; by rewrite Hfs].
  assert (Hlock : fs (lock_state s1) = interfere E (fs s)) by (simpl; by rewrite Hfs).
  rewrite <- Hlock. rewrite locked_section_eval.
  destruct (dates_in_month y m) as [all_dates|]; [|done].
  destruct (revalidate _ all_dates planned) as [|d1 rest]; [done|].
  pose proof (fetch_loop_net (d1 :: rest) ∅ (lock_state s1)) as (Hfs2 & _).
  assert (Hsfx : suffix (csv_path_for cfg y m) <> ".tmp") by done.
  destruct (fetch_loop cfg E (d1 :: rest) ∅ _) as [[[[e|] rows]|e] s2]; simpl in Hfs2.
  - destruct (negb _); [|simpl; by rewrite Hfs2].
    pose proof (write_csv_rows_others (csv_path_for cfg y m)
      (rows ∪ (read_csv_rows cfg (fs (lock_state s1)) (csv_path_for cfg y m)).1)
      s2 p Hsfx Hp Hp') as Hw.
    destruct (write_csv_rows cfg E _ _ s2) as [[[]|?] s3]; simpl in *;
      by rewrite Hw, Hfs2.
  - pose proof (write_csv_rows_others (csv_path_for cfg y m)
      (rows ∪ (read_csv_rows cfg (fs (lock_state s1)) (csv_path_for cfg y m)).1)
      s2 p Hsfx Hp Hp') as Hw.
    destruct (write_csv_rows cfg E _ _ s2) as [[[]|?] s3]; simpl in *;
      by rewrite Hw, Hfs2.
  - simpl. by rewrite Hfs2.
Qed.

(** ** The requests of a run *)

(** The dates asked of the historical endpoint in a piece of trace. *)
Definition hist_dates (evs : list event) : list string :=
  omap (fun ev => match ev with EvGet _ (Some d) => Some d | _ => None end) evs.

Lemma hist_dates_app evs evs' : hist_dates (evs ++ evs') = hist_dates evs ++ hist_dates evs'.
Proof. apply omap_app. Qed.

(** Steps whose requests all go to [path] with parameter [date]. *)
Definition net_event_for (path : string) (date : option string) (ev : event) : Prop :=
  match ev with
  | EvGet p d => p = path /\ d = date
  | EvSleep _ _ => True
  | EvWriteCsv _ _ => False
  end.

Definition net_for (path : string) (date : option string) (s s' : state) : Prop :=
  exists evs, log s' = log s ++ evs /\ Forall (net_event_for path date) evs.

#[local] Instance net_for_preorder path date : PreOrder (net_for path date).
Proof.
  split.
  - intros s. exists []. by rewrite app_nil_r.
  - intros s1 s2 s3 (evs & H12 & Hf) (evs' & H23 & Hf').
    exists (evs ++ evs'). rewrite H23, H12, app_assoc. split; [done|].
    by apply Forall_app.
Qed.

Lemma net_for_quiet path date (s s' : state) : log s' = log s -> net_for path date s s'.
Proof. intros Hl. exists []. by rewrite app_nil_r. Qed.

Lemma time_time_for path date : steps (net_for path date) (time_time E).
Proof. intros s. by apply net_for_quiet. Qed.

Lemma time_sleep_for path date why secs : steps (net_for path date) (time_sleep why secs).
Proof.
  intros s. unfold time_sleep. destruct (Qlt_le_dec secs 0); simpl; [reflexivity|].
  exists [EvSleep why secs]. split; [done | by constructor].
Qed.

Lemma set_stamps_for path date l : steps (net_for path date) (set_stamps l).
Proof. intros s. by apply net_for_quiet. Qed.

Lemma get_stamps_for path date : steps (net_for path date) get_stamps.
Proof. intros s. by apply net_for_quiet. Qed.

Lemma append_stamp_for path date t : steps (net_for path date) (append_stamp t).
Proof. intros s. by apply net_for_quiet. Qed.

Lemma requests_get_for path date : steps (net_for path date) (requests_get E path date).
Proof. intros s. exists [EvGet path date]. split; [done | by constructor]. Qed.

Hint Resolve time_time_for time_sleep_for set_stamps_for get_stamps_for
  append_stamp_for requests_get_for : frame.

Lemma wait_for_rate_slot_for path date :
  steps (net_for path date) (wait_for_rate_slot cfg E).
Proof. unfold wait_for_rate_slot. frame. Qed.

Lemma record_request_timestamp_for path date :
  steps (net_for path date) (record_request_timestamp E).
Proof. unfold record_request_timestamp. frame. Qed.

Hint Resolve wait_for_rate_slot_for record_request_timestamp_for : frame.

Lemma do_request_loop_for fuel : forall attempt path date count,
  steps (net_for path date) (do_request_loop cfg E fuel attempt path date count).
Proof.
  induction fuel as [|fuel IH]; intros attempt path date count; simpl; frame.
Qed.

Lemma do_request_for path date count :
  steps (net_for path date) (do_request cfg E path date count).
Proof. apply do_request_loop_for. Qed.

Hint Resolve do_request_for : frame.

Lemma get_status_for : steps (net_for "/status" None) (get_status cfg E).
Proof. unfold get_status. frame. Qed.

Lemma get_historical_for date_iso :
  steps (net_for "/historical" (Some date_iso)) (get_historical_for_date cfg E date_iso).
Proof. unfold get_historical_for_date. frame. Qed.

Lemma hist_dates_for_date (d : string) (evs : list event) :
  Forall (net_event_for "/historical" (Some d)) evs -> Forall (eq d) (hist_dates evs).
Proof.
  induction 1 as [|ev evs Hev _ IH]; [constructor|].
  destruct ev as [p [d'|]| |]; simpl in *; try done.
  destruct Hev as [_ [= ->]]. by constructor.
Qed.

Lemma hist_dates_for_status (evs : list event) :
  Forall (net_event_for "/status" None) evs -> hist_dates evs = [].
Proof.
  induction 1 as [|ev evs Hev _ IH]; [done|].
  destruct ev as [p [d'|]| |]; simpl in *; try done. by destruct Hev.
Qed.

Lemma all_equal_sorted (d : string) (l : list string) :
  Forall (eq d) l -> StronglySorted String.le l.
Proof.
  induction 1 as [|x l <- Hl IH]; constructor; [done|].
  eapply Forall_impl; [exact Hl|]. by intros ? <-.
Qed.

(** The fetch loop asks for the dates in the order of its list, one
    date after the other (a date again only when a request is
    retried), stops at the first date whose fetch raises without
    asking for any later date, and returns one row for each date
    fetched before. *)
Theorem fetch_loop_stops_at_failure (dates : list string) :
  forall (rows0 : gmap string (gmap string value)) (s : state),
  exists err rows fetched pending evs,
    (fetch_loop cfg E dates rows0 s).1 = Ok (err, rows) /\
    dates = fetched ++ pending /\
    (err = None <-> pending = []) /\
    (forall d, is_Some (rows !! d) <-> d ∈ fetched \/ is_Some (rows0 !! d)) /\
    log (fetch_loop cfg E dates rows0 s).2 = log s ++ evs /\
    Forall (fun d => d ∈ fetched ++ take 1 pending) (hist_dates evs) /\
    (StronglySorted String.le dates -> StronglySorted String.le (hist_dates evs)).
Proof.
  induction dates as [|dt dates IH]; intros rows0 s.
  { exists None, rows0, [], [], []. split_and!; try done.
    - intros d. split; [by right | by intros [?%elem_of_nil|?]].
    - simpl. by rewrite app_nil_r. }
  rewrite fetch_loop_cons.
  pose proof (get_historical_for dt s) as (evs1 & Hlog1 & Hev1).
  apply hist_dates_for_date in Hev1.
  destruct (get_historical_for_date cfg E dt s) as [[row|e] s1] eqn:Hget; simpl in Hlog1.
  - destruct (IH (<[dt := row]> rows0) s1)
      as (err & rows & fetched & pending & evs & Hres & -> & Herr & Hrows & Hlog & Hin & Hsorted).
    exists err, rows, (dt :: fetched), pending, (evs1 ++ evs). split_and!; try done.
    + intros d. rewrite Hrows, elem_of_cons, lookup_insert_is_Some.
      destruct (decide (dt = d)) as [->|Hne].
      { split; intros _; [by left; left | by right; left]. }
      split.
      * intros [?|[?|[_ ?]]]; [left; by right | done | by right].
      * intros [[->|?]|?]; [done | by left | right; right; done].
    + by rewrite Hlog, Hlog1, app_assoc.
    + rewrite hist_dates_app. apply Forall_app. split.
      * eapply Forall_impl; [exact Hev1|]. intros ? <-. by left.
      * eapply Forall_impl; [exact Hin|]. intros d Hd. by right.
    + intros Hs. apply StronglySorted_inv in Hs as [Hs Hall].
      rewrite hist_dates_app. apply StronglySorted_app_2; [|by eapply all_equal_sorted|auto].
      intros x1 x2 Hx1 Hx2.
      apply (proj1 (Forall_forall _ _) Hev1) in Hx1 as <-.
      apply (proj1 (Forall_forall _ _) Hin) in Hx2.
      apply (proj1 (Forall_forall _ _) Hall).
      apply elem_of_app in Hx2 as [?|Hx2]; apply elem_of_app; [by left | right].
      by apply (subseteq_take 1).
  - exists (Some e), rows0, [], (dt :: dates), evs1. split_and!; try done.
    + intros d. split; [by right | by intros [?%elem_of_nil|?]].
    + simpl. eapply Forall_impl; [exact Hev1|]. intros ? <-. by left.
    + intros _. by eapply all_equal_sorted.
Qed.

Lemma get_fs_for path date : steps (net_for path date) get_fs.
Proof. intros s. by apply net_for_quiet. Qed.

Hint Resolve get_fs_for get_status_for : frame.

Lemma pre_lock_for : steps (net_for "/status" None) (pre_lock cfg E).
Proof. unfold pre_lock, locate. frame. Qed.

(** The historical requests of a run are made in ascending date order
    and only for dates that were planned, belong to the target month
    and are absent from the month file as re-read under the lock. *)
Theorem main_requests_only_missing_planned (s s1 : state) (y m : Z)
    (planned : list string) :
  pre_lock cfg E s = (Ok (inr (y, m, planned)), s1) ->
  exists evs,
    log (main cfg E s).2 = log s ++ evs /\
    StronglySorted String.le (hist_dates evs) /\
    (lock_free E = false -> hist_dates evs = []) /\
    forall d, d ∈ hist_dates evs ->
      d ∈ planned /\ d ∈ default [] (dates_in_month y m) /\
      (read_csv_rows cfg (fs (lock_state s1)) (csv_path_for cfg y m)).1 !! d = None.
Proof.
  intros Hpre.
  pose proof (pre_lock_for s) as (evs0 & Hlog0 & Hev0). rewrite Hpre in Hlog0.
  simpl in Hlog0. apply hist_dates_for_status in Hev0.
  assert (Hquiet : forall s2, log s2 = log s1 ->
    exists evs, log s2 = log s ++ evs /\ StronglySorted String.le (hist_dates evs) /\
      (lock_free E = false -> hist_dates evs = []) /\
      forall d, d ∈ hist_dates evs ->
        d ∈ planned /\ d ∈ default [] (dates_in_month y m) /\
        (read_csv_rows cfg (fs (lock_state s1)) (csv_path_for cfg y m)).1 !! d = None).
  { intros s2 Hl. exists evs0. rewrite Hl, Hev0. split_and!; try done.
    - constructor.
    - by intros d ?%elem_of_nil. }
  rewrite main_eval, Hpre, under_lock_eval.
  destruct (lock_free E) eqn:Hlock; [|by apply Hquiet].
  rewrite locked_section_eval.
  destruct (dates_in_month y m) as [all_dates|]; [|by apply Hquiet].
  destruct (revalidate _ all_dates planned) as [|d1 rest] eqn:Hreval; [by apply Hquiet|].
  destruct (fetch_loop_stops_at_failure (d1 :: rest) ∅ (lock_state s1))
    as (err & rows & fetched & pending & evs & Hres & Hsplit & _ & _ & Hlog & Hin & Hsorted).
  assert (Hresult : forall s3 tail, log s3 = log (fetch_loop cfg E (d1 :: rest) ∅
                                                    (lock_state s1)).2 ++ tail ->
    hist_dates tail = [] ->
    exists evs, log s3 = log s ++ evs /\ StronglySorted String.le (hist_dates evs) /\
      (true = false -> hist_dates evs = []) /\
      forall d, d ∈ hist_dates evs ->
        d ∈ planned /\ d ∈ all_dates /\
        (read_csv_rows cfg (fs (lock_state s1)) (csv_path_for cfg y m)).1 !! d = None).
  { intros s3 tail Hl Htail. exists (evs0 ++ evs ++ tail).
    rewrite Hl, Hlog. cbn [lock_state log]. rewrite Hlog0, <- !app_assoc.
    rewrite !hist_dates_app, Hev0, Htail, app_nil_r. cbn [app].
    split_and!; try done.
    - apply Hsorted. rewrite <- Hreval. apply sort_strings_sorted.
    - intros d Hd. apply (proj1 (Forall_forall _ _) Hin) in Hd.
      assert (Hd' : d ∈ d1 :: rest).
      { rewrite Hsplit. apply elem_of_app in Hd as [?|Hd]; apply elem_of_app;
          [by left | right]. by apply (subseteq_take 1). }
      rewrite <- Hreval in Hd'. by apply revalidate_elem in Hd'. }
  destruct (fetch_loop cfg E (d1 :: rest) ∅ (lock_state s1)) as [[[[e|] rows']|e] s2];
    simpl in Hresult.
  - destruct (negb _).
    + pose proof (write_csv_rows_log (csv_path_for cfg y m)
        (rows' ∪ (read_csv_rows cfg (fs (lock_state s1)) (csv_path_for cfg y m)).1) s2)
        as Hw.
      destruct (write_csv_rows cfg E _ _ s2) as [[[]|?] s3]; simpl in *;
        by eapply Hresult.
    + apply (Hresult s2 []); [by rewrite app_nil_r | done].
  - pose proof (write_csv_rows_log (csv_path_for cfg y m)
      (rows' ∪ (read_csv_rows cfg (fs (lock_state s1)) (csv_path_for cfg y m)).1) s2)
      as Hw.
    destruct (write_csv_rows cfg E _ _ s2) as [[[]|?] s3]; simpl in *;
      by eapply Hresult.
  - apply (Hresult s2 []); [by rewrite app_nil_r | done].
Qed.

(** ** More on the archive read *)

Lemma fill_none_lookup_ne (keys : list string) :
  forall (d : gmap string (option string)) (k : string),
  k ∉ keys -> foldl (fun d key => <[key := None]> d) d keys !! k = d !! k.
Proof.
  induction keys as [|key keys IH]; intros d k Hk; simpl; [done|].
  rewrite IH by (intros ?; apply Hk; by right).
  apply lookup_insert_ne. intros ->. apply Hk. by left.
Qed.

(** A field name that is not in the header is in no row. *)
Lemma dict_row_not_in_header (fieldnames row : list string) (k : string) :
  k ∉ fieldnames -> dict_row fieldnames row !! k = None.
Proof.
  intros Hk. unfold dict_row. rewrite fill_none_lookup_ne.
  - apply not_elem_of_list_to_map_1. rewrite fmap_reverse, elem_of_reverse.
    intros Hin. apply list_elem_of_fmap in Hin as ([k' v] & -> & Hin).
    by apply elem_of_zip_l in Hin.
  - intros Hin. apply Hk. by eapply subseteq_drop.
Qed.

(** An empty file, or one whose header has no "date" column, reads as
    the empty dict: every row is skipped. *)
Theorem read_without_date_column (files : gmap string file) (path : Path) (f : file) :
  files !! path_str path = Some f ->
  (records f = [] \/ exists header rows, records f = header :: rows /\ "date" ∉ header) ->
  (read_csv_rows cfg files path).1 = ∅.
Proof.
  intros Hf Hrec. unfold read_csv_rows. rewrite Hf. simpl.
  destruct Hrec as [-> | (header & rows & -> & Hno)]; [done|].
  unfold dict_reader.
  generalize (List.filter (fun r : list string => negb (bool_decide (r = []))) rows).
  intros rows'. generalize (∅ : gmap string (gmap string value)).
  induction rows' as [|r rows' IH]; intros acc; simpl; [done|].
  rewrite <- (IH acc) at 2. f_equal.
  unfold read_step. by rewrite dict_row_not_in_header.
Qed.

Lemma read_fold_other (rows : list (gmap string (option string))) (d : string) :
  forall acc : gmap string (gmap string value),
  Forall (fun r => mjoin (r !! "date") <> Some d) rows ->
  foldl (read_step cfg) acc rows !! d = acc !! d.
Proof.
  induction rows as [|r rows IH]; intros acc Hall; simpl; [done|].
  apply Forall_cons in Hall as [Hr Hall]. rewrite IH by done.
  unfold read_step. destruct (mjoin (r !! "date")) as [d'|]; [|done].
  case_bool_decide; [done|]. apply lookup_insert_ne. congruence.
Qed.

(** When several rows of a file carry the same date, the last one is
    the one returned. *)
Theorem read_last_row_wins (files : gmap string file) (path : Path) (f : file)
    (before after : list (gmap string (option string)))
    (r : gmap string (option string)) (d : string) :
  files !! path_str path = Some f ->
  dict_reader (records f) = before ++ r :: after ->
  mjoin (r !! "date") = Some d -> d <> "" ->
  Forall (fun r' => mjoin (r' !! "date") <> Some d) after ->
  (read_csv_rows cfg files path).1 !! d = Some (normalize_row cfg d r).
Proof.
  intros Hf Hrows Hd Hne Hafter. unfold read_csv_rows. rewrite Hf. simpl.
  rewrite Hrows, foldl_app. simpl. rewrite read_fold_other by done.
  unfold read_step. rewrite Hd. rewrite bool_decide_eq_false_2 by done.
  apply lookup_insert_eq.
Qed.

(** ** Write, then read *)

Lemma zip_with_image {A B} (g : A -> B) (l : list A) :
  zip l (g <$> l) = (fun x => (x, g x)) <$> l.
Proof. induction l as [|x l IH]; [done|]. rewrite !fmap_cons. simpl. by f_equal. Qed.

(** A record printed from a dict reads back as that dict, cell by cell. *)
Lemma dict_row_written (header : list string) (g : string -> string) (k : string) :
  dict_row header (g <$> header) !! k =
    if decide (k ∈ header) then Some (Some (g k)) else None.
Proof.
  destruct (decide (k ∈ header)) as [Hin|Hnin]; [|by apply dict_row_not_in_header].
  unfold dict_row. rewrite length_fmap, drop_all. simpl.
  rewrite <- list_fmap_compose, zip_with_image.
  apply elem_of_list_to_map_1'.
  - intros y. rewrite elem_of_reverse. intros Hy.
    apply list_elem_of_fmap in Hy as (k' & [= <- ->] & _). done.
  - rewrite elem_of_reverse. apply list_elem_of_fmap. by exists k.
Qed.

(** The rows of a dict that [write_csv_rows] can print and
    [read_csv_rows] gives back unchanged: keyed by their own non-empty
    date, with exactly the header's columns, each currency cell blank,
    a float that [float] recovers from its [repr], or a text [float]
    rejects. *)
Definition storable_cell (v : value) : Prop :=
  v = blank \/
  (exists x, v = VFloat x /\ float_repr x <> "" /\
             float_of_string (float_repr x) = Some x) \/
  (exists t, v = VStr t /\ t <> "" /\ float_of_string t = None).

Definition dated (rows : gmap string (gmap string value)) : Prop :=
  forall d row, rows !! d = Some row ->
    d <> "" /\ row !! "date" = Some (VStr d).

Definition storable (rows : gmap string (gmap string value)) : Prop :=
  forall d row, rows !! d = Some row ->
    wf_row row /\
    forall c v, c ∈ CURRENCIES cfg -> row !! c = Some v -> storable_cell v.

Lemma read_written_fold (rows : gmap string (gmap string value)) (ds : list string) :
  dated rows ->
  Forall (fun d => is_Some (rows !! d)) ds ->
  forall acc : gmap string (gmap string value),
  foldl (read_step cfg) acc
    ((fun d => dict_row ("date" :: CURRENCIES cfg)
                 ((fun key => render (rows !! d ≫= (.!! key)))
                    <$> ("date" :: CURRENCIES cfg))) <$> ds) =
  foldl (fun acc d =>
           <[d := normalize_row cfg d
                    (dict_row ("date" :: CURRENCIES cfg)
                       ((fun key => render (rows !! d ≫= (.!! key)))
                          <$> ("date" :: CURRENCIES cfg)))]> acc) acc ds.
Proof.
  intros Hdated. induction 1 as [|d ds [row Hrow] _ IH]; intros acc; [done|].
  rewrite fmap_cons. cbn [foldl]. rewrite IH. f_equal.
  destruct (Hdated d row Hrow) as [Hne Hdate].
  unfold read_step. rewrite dict_row_written, decide_True by (by left).
  rewrite Hrow. simpl. rewrite Hdate. simpl.
  by rewrite bool_decide_eq_false_2.
Qed.

Lemma insert_fold_lookup {A} (g : string -> A) (ds : list string) :
  forall (acc : gmap string A) (k : string),
  foldl (fun acc d => <[d := g d]> acc) acc ds !! k =
    if decide (k ∈ ds) then Some (g k) else acc !! k.
Proof.
  induction ds as [|d ds IH]; intros acc k; cbn [foldl].
  { by rewrite decide_False by apply not_elem_of_nil. }
  rewrite IH. destruct (decide (k ∈ ds)) as [Hin|Hnin].
  - by rewrite decide_True by (by right).
  - destruct (decide (k = d)) as [->|Hne].
    + rewrite decide_True by (by left). by rewrite lookup_insert_eq.
    + rewrite decide_False by (by intros [?|?]%elem_of_cons).
      by rewrite lookup_insert_ne.
Qed.

Lemma written_records_nonempty (g : string -> list string) (ds : list string) :
  (forall d, g d <> []) ->
  List.filter (fun r : list string => negb (bool_decide (r = []))) (g <$> ds) = g <$> ds.
Proof.
  intros Hg. induction ds as [|d ds IH]; [done|].
  rewrite fmap_cons. cbn [List.filter].
  rewrite bool_decide_eq_false_2 by apply Hg. cbn [negb]. by rewrite IH.
Qed.

(** What reading the month file gives once a write has returned:
    under each key of the written dict, the row normalised from the
    printed cells. *)
Lemma read_after_write (path : Path) (rows : gmap string (gmap string value))
    (s : state) (k : string) :
  suffix path <> ".tmp" -> dated rows ->
  (write_csv_rows cfg E path rows s).1 = Ok tt ->
  (read_csv_rows cfg (fs (write_csv_rows cfg E path rows s).2) path).1 !! k =
    if decide (is_Some (rows !! k)) then
      Some (normalize_row cfg k
              (dict_row ("date" :: CURRENCIES cfg)
                 ((fun key => render (rows !! k ≫= (.!! key)))
                    <$> ("date" :: CURRENCIES cfg))))
    else None.
Proof.
  intros Hsfx Hdated Hok.
  destruct (write_csv_rows_returns path rows s Hsfx) as [Hret _].
  destruct (Hret Hok) as (recs & Hrecs & Hfile).
  apply rendered_rows_shape in Hrecs.
  unfold read_csv_rows. rewrite Hfile. simpl.
  rewrite Hrecs, written_records_nonempty by done.
  rewrite <- list_fmap_compose.
  assert (Hkeys : forall d, d ∈ sort_strings (map_to_list rows).*1 <-> is_Some (rows !! d)).
  { intros d. rewrite (sort_strings_perm _). split.
    - intros Hd. apply list_elem_of_fmap in Hd as ([d' row] & -> & Hin).
      apply elem_of_map_to_list in Hin. by eexists.
    - intros [row Hrow]. apply list_elem_of_fmap. exists (d, row).
      split; [done|]. by apply elem_of_map_to_list. }
  etrans.
  { apply (f_equal (fun m : gmap string (gmap string value) => m !! k)).
    apply (read_written_fold rows _ Hdated).
    apply Forall_forall. intros d Hd. by apply Hkeys. }
  rewrite (insert_fold_lookup
    (fun d => normalize_row cfg d
                (dict_row ("date" :: CURRENCIES cfg)
                   ((fun key => render (rows !! d ≫= (.!! key)))
                      <$> ("date" :: CURRENCIES cfg))))).
  rewrite lookup_empty.
  destruct (decide (is_Some (rows !! k))) as [Hs|Hn].
  - by rewrite decide_True by (by apply Hkeys).
  - by rewrite decide_False by (by rewrite Hkeys).
Qed.

(** Round trip: a dict of storable rows, written and read back, is
    the dict that was written. *)
Theorem write_read_round_trip (path : Path) (rows : gmap string (gmap string value))
    (s : state) :
  suffix path <> ".tmp" -> "date" ∉ CURRENCIES cfg ->
  dated rows -> storable rows ->
  (write_csv_rows cfg E path rows s).1 = Ok tt ->
  (read_csv_rows cfg (fs (write_csv_rows cfg E path rows s).2) path).1 = rows.
Proof.
  intros Hsfx Hnodate Hdated Hstor Hok. apply map_eq. intros d.
  rewrite (read_after_write path rows s d Hsfx Hdated Hok).
  destruct (decide (is_Some (rows !! d))) as [[row Hrow]|Hn];
    [|symmetry; by apply eq_None_not_Some].
  rewrite Hrow. f_equal. apply map_eq. intros k.
  destruct (Hdated d row Hrow) as [Hne Hdate].
  destruct (Hstor d row Hrow) as [Hwf Hcells].
  rewrite normalize_row_lookup.
  destruct (decide (k ∈ CURRENCIES cfg)) as [Hk|Hk].
  - assert (is_Some (row !! k)) as [v Hv] by (apply Hwf; by left).
    rewrite Hv. f_equal. unfold normalize_cell.
    rewrite dict_row_written, decide_True by (by right).
    simpl. rewrite Hv.
    destruct (Hcells k v Hk Hv) as [->|[(x & -> & Hrepr & Hback)|(t & -> & Ht & Hrej)]]; simpl.
    + done.
    + rewrite bool_decide_eq_false_2 by done. by rewrite Hback.
    + rewrite bool_decide_eq_false_2 by done. by rewrite Hrej.
  - destruct (decide (k = "date")) as [->|Hkd]; [done|].
    symmetry. apply eq_None_not_Some. intros Hs. apply Hwf in Hs. by destruct Hs.
Qed.

(** ** A run that fetches everything it planned *)

Lemma isoformat_nonempty (y m d : Z) (str : string) :
  isoformat y m d = Some str -> str <> "".
Proof.
  unfold isoformat. destruct (_ && _); [|done]. intros [= <-].
  by destruct (fmt_int 4 y).
Qed.

Lemma dates_in_month_nonempty (y m : Z) (all_dates : list string) (d : string) :
  dates_in_month y m = Some all_dates -> d ∈ all_dates -> d <> "".
Proof.
  unfold dates_in_month. intros Hall Hd. apply mapM_Some in Hall.
  apply list_elem_of_lookup_1 in Hd as [i Hi].
  destruct (Forall2_lookup_r _ _ _ _ _ Hall Hi) as (day & _ & Hiso).
  by eapply isoformat_nonempty.
Qed.

Lemma historical_dated (date_iso : string) (s : state) (row : gmap string value) :
  "date" ∉ CURRENCIES cfg ->
  (get_historical_for_date cfg E date_iso s).1 = Ok row ->
  row !! "date" = Some (VStr date_iso).
Proof.
  intros Hno. destruct (get_historical_for_date cfg E date_iso s) as [r s'] eqn:Hget.
  simpl. intros ->. destruct (historical_fill _ _ _ _ Hget) as [day Hfill].
  rewrite (fill_row_lookup _ _ _ _ "date" Hfill), decide_False by done.
  apply lookup_singleton_eq.
Qed.

Lemma read_csv_rows_dated (files : gmap string file) (path : Path) :
  "date" ∉ CURRENCIES cfg -> dated (read_csv_rows cfg files path).1.
Proof.
  intros Hno d row. unfold read_csv_rows.
  destruct (files !! path_str path) as [f|]; simpl; [|by rewrite lookup_empty].
  intros Hl. apply read_fold_lookup in Hl as [Hl|(r & _ & _ & Hne & ->)].
  { by rewrite lookup_empty in Hl. }
  split; [done|]. rewrite normalize_row_lookup, decide_False by done.
  by rewrite decide_True.
Qed.

(** When every planned date is fetched and no I/O fault occurs, the
    run returns 0 and the month file, read again, holds exactly the
    dates it held under the lock together with the dates fetched; none
    of the fetched dates is missing any more. *)
Theorem full_fetch_fills_month (s s1 s2 : state) (y m : Z)
    (planned : list string) (d1 : string) (rest : list string)
    (rows_fetched : gmap string (gmap string value)) :
  pre_lock cfg E s = (Ok (inr (y, m, planned)), s1) ->
  lock_free E = true ->
  "date" ∉ CURRENCIES cfg ->
  (forall n, io_fault E n = false) ->
  let path := csv_path_for cfg y m in
  let existing_rows := (read_csv_rows cfg (fs (lock_state s1)) path).1 in
  revalidate existing_rows (default [] (dates_in_month y m)) planned = d1 :: rest ->
  fetch_loop cfg E (d1 :: rest) ∅ (lock_state s1) = (Ok (None, rows_fetched), s2) ->
  let out := write_csv_rows cfg E path (rows_fetched ∪ existing_rows) s2 in
  main cfg E s = (Ok 0, out.2) /\
  (forall d, is_Some ((read_csv_rows cfg (fs out.2) path).1 !! d) <->
             d ∈ d1 :: rest \/ is_Some (existing_rows !! d)) /\
  (forall d, d ∈ d1 :: rest -> d ∉ month_missing (fs out.2) y m).
Proof.
  intros Hpre Hlock Hno Hnf path existing_rows Hreval Hloop out.
  destruct (pre_lock_valid _ _ _ _ _ Hpre) as [[all_dates Hdates] _].
  rewrite Hdates in Hreval. change (default [] (Some all_dates)) with all_dates in Hreval.
  destruct (fetch_loop_spec (d1 :: rest) ∅ (lock_state s1))
    as (err & rows & fetched & pending & Hres & Hsplit & Hout & Hin & Herr).
  rewrite Hloop in Hres. simpl in Hres. injection Hres as <- <-. subst pending.
  rewrite app_nil_r in Hsplit. subst fetched.
  assert (Hdom : forall d, is_Some (rows_fetched !! d) <-> d ∈ d1 :: rest).
  { intros d. split.
    - intros Hs. destruct (decide (d ∈ d1 :: rest)) as [|Hn]; [done|].
      rewrite (Hout d Hn), lookup_empty in Hs. by destruct Hs.
    - intros Hd. destruct (Hin d Hd) as (row & _ & _ & ->). by eexists. }
  set (merged := rows_fetched ∪ existing_rows) in *.
  assert (Hmerged : forall d, is_Some (merged !! d) <->
                              d ∈ d1 :: rest \/ is_Some (existing_rows !! d)).
  { intros d. subst merged. rewrite lookup_union_is_Some, Hdom. done. }
  assert (Hwf : forall d row, merged !! d = Some row -> wf_row row).
  { intros d row. subst merged. rewrite lookup_union_Some_raw.
    intros [Hf|[_ Hex]]; [|by eapply read_csv_rows_wf].
    assert (Hd : d ∈ d1 :: rest) by (apply Hdom; by eexists).
    destruct (Hin d Hd) as (row' & sa & Hget & Hrow).
    assert (row' = row) as -> by congruence. by eapply historical_wf. }
  assert (Hdated : dated merged).
  { intros d row. subst merged. rewrite lookup_union_Some_raw.
    intros [Hf|[_ Hex]]; [|by eapply read_csv_rows_dated].
    assert (Hd : d ∈ d1 :: rest) by (apply Hdom; by eexists).
    destruct (Hin d Hd) as (row' & sa & Hget & Hrow).
    assert (row' = row) as -> by congruence. split.
    - rewrite <- Hreval in Hd. apply revalidate_elem in Hd as (_ & Hd & _).
      by eapply dates_in_month_nonempty.
    - by eapply historical_dated. }
  assert (Hsfx : suffix path <> ".tmp") by done.
  destruct (write_csv_rows_returns path merged s2 Hsfx) as [_ Hret].
  fold out in Hret.
  assert (Hok : out.1 = Ok tt) by (apply Hret; [done | by apply rendered_rows_wf]).
  assert (Hread : forall d, is_Some ((read_csv_rows cfg (fs out.2) path).1 !! d) <->
                            d ∈ d1 :: rest \/ is_Some (existing_rows !! d)).
  { intros d. subst out. rewrite (read_after_write path merged s2 d Hsfx Hdated Hok).
    rewrite <- Hmerged. destruct (decide (is_Some (merged !! d))) as [Hs|Hn].
    - split; [done | by eexists].
    - split; [by intros [? ?] | done]. }
  split_and!.
  - unfold existing_rows, path in Hreval.
    rewrite main_eval, Hpre, under_lock_eval, Hlock, locked_section_eval, Hdates, Hreval.
    fold path. fold existing_rows. rewrite Hloop. fold merged. fold out.
    destruct out as [[[]|?] ?]; [done | discriminate Hok].
  - done.
  - intros d Hd Hmiss. unfold month_missing in Hmiss.
    apply missing_in_elem in Hmiss as [_ Hnone]. fold path in Hnone.
    assert (Hs : is_Some ((read_csv_rows cfg (fs out.2) path).1 !! d))
      by (apply Hread; by left).
    rewrite Hnone in Hs. by destruct Hs.
Qed.

(** ** What a run never does *)

Lemma read_csv_rows_ext (files files' : gmap string file) (p p' : Path) :
  files !! path_str p = files' !! path_str p' ->
  read_csv_rows cfg files p = read_csv_rows cfg files' p'.
Proof. intros Heq. unfold read_csv_rows. by rewrite Heq. Qed.

Lemma merged_rows_dated (dates : list string) (s : state) (err : option exn)
    (rows existing : gmap string (gmap string value)) :
  "date" ∉ CURRENCIES cfg -> (forall d, d ∈ dates -> d <> "") ->
  (fetch_loop cfg E dates ∅ s).1 = Ok (err, rows) ->
  dated existing -> dated (rows ∪ existing).
Proof.
  intros Hno Hne Hloop Hex d row.
  destruct (fetch_loop_spec dates ∅ s)
    as (err' & rows' & fetched & pending & Hres & Hsplit & Hout & Hin & _).
  rewrite Hloop in Hres. injection Hres as <- <-.
  rewrite lookup_union_Some_raw. intros [Hf|[_ Hrow]]; [|by apply Hex].
  destruct (decide (d ∈ fetched)) as [Hd|Hd].
  - destruct (Hin d Hd) as (row' & sa & Hget & Hrow).
    assert (row' = row) as -> by congruence. split.
    + apply Hne. rewrite Hsplit. apply elem_of_app. by left.
    + by eapply historical_dated.
  - by rewrite (Hout d Hd), lookup_empty in Hf.
Qed.

Lemma write_keeps_dates (path : Path) (rows : gmap string (gmap string value))
    (s : state) (d : string) :
  suffix path <> ".tmp" ->
  let existing := (read_csv_rows cfg (fs s) path).1 in
  dated (rows ∪ existing) -> is_Some (existing !! d) ->
  is_Some ((read_csv_rows cfg (fs (write_csv_rows cfg E path (rows ∪ existing) s).2)
              path).1 !! d).
Proof.
  intros Hsfx existing Hdated Hd.
  assert (Hne : path_str (with_suffix path ".tmp") <> path_str path)
    by (by apply tmp_path_ne).
  destruct (write_csv_rows_cases path (rows ∪ existing) s Hsfx)
    as [(recs & s1 & _ & _ & Hok & _)|(e & _ & (Hoff & _) & _)].
  - rewrite (read_after_write path _ s d Hsfx Hdated Hok).
    rewrite decide_True; [by eexists|].
    apply lookup_union_is_Some. by right.
  - rewrite (read_csv_rows_ext _ (fs s) path path); [done|].
    apply Hoff. by intros Heq.
Qed.

(** A run never loses a date: whatever date an archive file held when
    the lock was taken (or at the start, when the lock was never
    taken), that file still holds when [main] ends, whether the run
    fetched everything, stopped early, or failed while writing. *)
Theorem main_keeps_archived_dates (s s1 : state) (y m : Z) (planned : list string)
    (p : Path) (d : string) :
  pre_lock cfg E s = (Ok (inr (y, m, planned)), s1) ->
  "date" ∉ CURRENCIES cfg ->
  path_str p <> path_str (with_suffix (csv_path_for cfg y m) ".tmp") ->
  let before := if lock_free E then interfere E (fs s) else fs s in
  is_Some ((read_csv_rows cfg before p).1 !! d) ->
  is_Some ((read_csv_rows cfg (fs (main cfg E s).2) p).1 !! d).
Proof.
  intros Hpre Hno Hp before Hd.
  destruct (pre_lock_valid _ _ _ _ _ Hpre) as [[all_dates Hdates] (Hfs & _)].
  set (path := csv_path_for cfg y m) in *.
  assert (Hsfx : suffix path <> ".tmp") by done.
  destruct (decide (path_str p = path_str path)) as [Hdst|Hother].
  2:{ (* another file: untouched *)
      rewrite (read_csv_rows_ext _ before p p); [done|].
      subst before. rewrite main_eval, Hpre, under_lock_eval.
      destruct (lock_free E); [|simpl; by rewrite Hfs].
      assert (Hlock : fs (lock_state s1) = interfere E (fs s)) by (simpl; by rewrite Hfs).
      rewrite <- Hlock, locked_section_eval. fold path. rewrite Hdates.
      destruct (revalidate _ all_dates planned) as [|d1 rest]; [done|].
      pose proof (fetch_loop_net (d1 :: rest) ∅ (lock_state s1)) as (Hfs2 & _).
      destruct (fetch_loop cfg E (d1 :: rest) ∅ _) as [[[[e|] rows]|e] s2]; simpl in Hfs2.
      - destruct (negb _); [|simpl; by rewrite Hfs2].
        pose proof (write_csv_rows_others path
          (rows ∪ (read_csv_rows cfg (fs (lock_state s1)) path).1)
          s2 (path_str p) Hsfx Hother Hp) as Hw.
        destruct (write_csv_rows cfg E _ _ s2) as [[[]|?] s3]; simpl in *;
          by rewrite Hw, Hfs2.
      - pose proof (write_csv_rows_others path
          (rows ∪ (read_csv_rows cfg (fs (lock_state s1)) path).1)
          s2 (path_str p) Hsfx Hother Hp) as Hw.
        destruct (write_csv_rows cfg E _ _ s2) as [[[]|?] s3]; simpl in *;
          by rewrite Hw, Hfs2.
      - simpl. by rewrite Hfs2. }
  (* the target month's file *)
  rewrite (read_csv_rows_ext before before p path) in Hd by (by rewrite Hdst).
  rewrite (read_csv_rows_ext _ (fs (main cfg E s).2) p path) by (by rewrite Hdst).
  subst before. rewrite main_eval, Hpre, under_lock_eval.
  destruct (lock_free E); [|simpl; by rewrite Hfs].
  assert (Hlock : fs (lock_state s1) = interfere E (fs s)) by (simpl; by rewrite Hfs).
  rewrite <- Hlock in Hd. rewrite locked_section_eval. fold path. rewrite Hdates.
  destruct (revalidate _ all_dates planned) as [|d1 rest] eqn:Hreval; [done|].
  pose proof (fetch_loop_net (d1 :: rest) ∅ (lock_state s1)) as (Hfs2 & _).
  assert (Hnonempty : forall d', d' ∈ d1 :: rest -> d' <> "").
  { intros d' Hd'. rewrite <- Hreval in Hd'. apply revalidate_elem in Hd' as (_ & Hd' & _).
    by eapply dates_in_month_nonempty. }
  destruct (fetch_loop cfg E (d1 :: rest) ∅ (lock_state s1))
    as [[[err rows]|e] s2] eqn:Hloop; simpl in Hfs2;
    change (interfere E (fs s1)) with (fs (lock_state s1)) in Hfs2.
  2:{ simpl. by rewrite Hfs2. }
  assert (Hdated : dated (rows ∪ (read_csv_rows cfg (fs s2) path).1)).
  { eapply merged_rows_dated; [done | exact Hnonempty | by rewrite Hloop |].
    by apply read_csv_rows_dated. }
  rewrite <- Hfs2 in Hd.
  pose proof (write_keeps_dates path rows s2 d Hsfx Hdated Hd) as Hkeep.
  rewrite Hfs2 in Hkeep, Hd.
  destruct err as [e|].
  - destruct (negb _); [|simpl; by rewrite Hfs2].
    by destruct (write_csv_rows cfg E path _ s2) as [[[]|?] s3].
  - by destruct (write_csv_rows cfg E path _ s2) as [[[]|?] s3].
Qed.

(** ** Requests outside the rate limiter *)

(** Steps that leave the rate limiter alone: no clock read, no
    timestamp recorded or dropped, no rate-limit sleep. *)
Definition unmetered (s s' : state) : Prop :=
  stamps s' = stamps s /\ issued s' = issued s /\ ticks s' = ticks s /\
  exists evs, log s' = log s ++ evs /\
    Forall (fun ev => forall secs, ev <> EvSleep RateLimitSleep secs) evs.

#[local] Instance unmetered_preorder : PreOrder unmetered.
Proof.
  split.
  - intros s. unfold unmetered. split_and!; try done.
    exists []. by rewrite app_nil_r.
  - intros s1 s2 s3 (? & ? & ? & evs & ? & ?) (? & ? & ? & evs' & ? & ?).
    unfold unmetered. split_and!; try congruence.
    exists (evs ++ evs'). split; [|by apply Forall_app].
    rewrite app_assoc. congruence.
Qed.

Lemma unmetered_emit (s s' : state) (ev : event) :
  stamps s' = stamps s -> issued s' = issued s -> ticks s' = ticks s ->
  log s' = log s ++ [ev] -> (forall secs, ev <> EvSleep RateLimitSleep secs) ->
  unmetered s s'.
Proof.
  intros. unfold unmetered. split_and!; try done.
  exists [ev]. split; [done | by constructor].
Qed.

Lemma requests_get_unmetered path date : steps unmetered (requests_get E path date).
Proof. intros s. by eapply unmetered_emit. Qed.

Lemma retry_sleep_unmetered secs : steps unmetered (time_sleep RetrySleep secs).
Proof.
  intros s. unfold time_sleep. destruct (Qlt_le_dec secs 0); simpl.
  - reflexivity.
  - by eapply unmetered_emit.
Qed.

Lemma get_fs_unmetered : steps unmetered get_fs.
Proof. intros s. reflexivity. Qed.

Hint Resolve requests_get_unmetered retry_sleep_unmetered get_fs_unmetered : frame.

Lemma do_request_loop_unmetered fuel : forall attempt path date,
  steps unmetered (do_request_loop cfg E fuel attempt path date false).
Proof.
  induction fuel as [|fuel IH]; intros attempt path date; simpl; frame.
Qed.

Lemma do_request_unmetered path date :
  steps unmetered (do_request cfg E path date false).
Proof. apply do_request_loop_unmetered. Qed.

Hint Resolve do_request_unmetered : frame.

Lemma get_status_unmetered : steps unmetered (get_status cfg E).
Proof. unfold get_status. frame. Qed.

Hint Resolve get_status_unmetered : frame.

Lemma uncounted_frame : steps unmetered (pre_lock cfg E).
Proof. unfold pre_lock, locate. frame. Qed.

(** A request made with [count_against_rate=False] bypasses the rate
    limiter altogether: it reads no clock, records and drops no
    timestamp, and never sleeps for a rate slot (only for retries).
    The status call is such a request, so everything [main] does
    before taking the lock leaves the limiter as it found it. *)
Theorem uncounted_request_skips_limiter (path : string) (date : option string)
    (s : state) :
  unmetered s (do_request cfg E path date false s).2 /\
  unmetered s (get_status cfg E s).2 /\
  unmetered s (pre_lock cfg E s).2.
Proof.
  split; [apply do_request_unmetered|]. split; [apply get_status_unmetered|].
  apply uncounted_frame.
Qed.

(** ** A complete archive *)

Lemma find_target_complete (files : gmap string file) (months : list (Z * Z)) :
  Forall (fun ym : Z * Z => is_Some (dates_in_month ym.1 ym.2) /\
                            month_missing files ym.1 ym.2 = []) months ->
  find_target cfg files months = Ok None.
Proof.
  induction 1 as [|[y m] months [[all_dates Hd] Hmiss] _ IH]; simpl in *; [done|].
  unfold month_missing in Hmiss. rewrite Hd in *. simpl in Hmiss. by rewrite Hmiss.
Qed.

(** When no month since the start year misses a date, a run whose
    status call succeeds returns 0 having sent nothing but its status
    request: no file is changed, no historical request is made, and
    the rate limiter is untouched. *)
Theorem complete_archive_is_noop (s s0 : state) (remaining : option Z) :
  get_status cfg E s = (Ok (Some remaining), s0) ->
  Forall (fun ym : Z * Z => is_Some (dates_in_month ym.1 ym.2) /\
                            month_missing (fs s) ym.1 ym.2 = [])
         (months_since E (START_YEAR cfg)) ->
  main cfg E s = (Ok 0, s0) /\ fs s0 = fs s /\ fs_hist s0 = fs_hist s /\
  stamps s0 = stamps s /\ hist_dates (drop (length (log s)) (log s0)) = [].
Proof.
  intros Hst Hall. pose proof (get_status_net s) as (Hfs & Hh & _).
  pose proof (get_status_for s) as (evs' & Hlog' & Hevs').
  pose proof (get_status_unmetered s) as (Hstamps & _).
  rewrite Hst in *. simpl in *.
  split_and!; try done.
  - rewrite main_eval, pre_lock_eval, Hst, Hfs.
    by rewrite (find_target_complete _ _ Hall).
  - rewrite Hlog', drop_app_length. by apply hist_dates_for_status.
Qed.

(** ** Calendar and file names *)

Lemma append_length (a b : string) :
  String.length (a +:+ b) = (String.length a + String.length b)%nat.
Proof. induction a as [|c a IH]; simpl; [done | by rewrite IH]. Qed.

Lemma append_inj_length (a a' b b' : string) :
  String.length a = String.length a' -> a +:+ b = a' +:+ b' -> a = a' /\ b = b'.
Proof.
  revert a'. induction a as [|c a IH]; intros [|c' a']; simpl; try done.
  intros [= Hlen] [= -> Heq]. by destruct (IH a' Hlen Heq) as [-> ->].
Qed.

(** Strictly ascending order on strings (by code points). *)
Definition str_lt (a b : string) : Prop := String.compare a b = Lt.

Lemma compare_append (a x y : string) :
  String.compare (a +:+ x) (a +:+ y) = String.compare x y.
Proof.
  induction a as [|c a IH]; simpl; [done|].
  unfold Ascii.compare. by rewrite N.compare_refl.
Qed.

Lemma str_lt_irrefl (a : string) : ~ str_lt a a.
Proof.
  unfold str_lt. intros Hlt. pose proof (String.compare_antisym a a) as Ha.
  rewrite Hlt in Ha. done.
Qed.

Lemma str_lt_le (a b : string) : str_lt a b -> String.le a b.
Proof. unfold str_lt, String.le, String.leb. by intros ->. Qed.

Lemma str_lt_NoDup (l : list string) : StronglySorted str_lt l -> NoDup l.
Proof.
  induction 1 as [|a l _ IH Hall]; constructor; [|done].
  intros Hin. rewrite Forall_forall in Hall. by apply (str_lt_irrefl a), Hall.
Qed.

(** [int(s)] on a string of decimal digits. *)
Definition int_of_string (s : string) : Z :=
  match NilEmpty.uint_of_string s with
  | Some u => Z.of_N (N.of_uint u)
  | None => 0
  end.

Lemma fmt_int_small (w : nat) (bound : Z) (z : Z) :
  forallb (fun i => (String.length (fmt_int w (Z.of_nat i)) =? w)%nat &&
                    (int_of_string (fmt_int w (Z.of_nat i)) =? Z.of_nat i))
          (seq 1 (Z.to_nat bound)) = true ->
  1 <= z <= bound ->
  String.length (fmt_int w z) = w /\ int_of_string (fmt_int w z) = z.
Proof.
  intros Hall Hz. rewrite forallb_forall in Hall.
  specialize (Hall (Z.to_nat z)). rewrite Z2Nat.id in Hall by lia.
  assert (Hin : In (Z.to_nat z) (seq 1 (Z.to_nat bound))) by (apply in_seq; lia).
  apply Hall, andb_true_iff in Hin as [Hlen Hint].
  split; [by apply Nat.eqb_eq | by apply Z.eqb_eq].
Qed.

Lemma fmt_year (y : Z) :
  1 <= y <= 9999 ->
  String.length (fmt_int 4 y) = 4%nat /\ int_of_string (fmt_int 4 y) = y.
Proof. apply (fmt_int_small 4 9999). vm_compute. reflexivity. Qed.

Lemma fmt_two (d : Z) :
  1 <= d <= 31 ->
  String.length (fmt_int 2 d) = 2%nat /\ int_of_string (fmt_int 2 d) = d.
Proof. apply (fmt_int_small 2 31). vm_compute. reflexivity. Qed.

Lemma day_strings_sorted : StronglySorted str_lt (fmt_int 2 <$> range1 31).
Proof.
  let l := eval vm_compute in (fmt_int 2 <$> range1 31) in
  change (fmt_int 2 <$> range1 31) with l.
  repeat constructor.
Qed.

Lemma range1_take (nd : Z) : nd <= 31 -> range1 nd = take (Z.to_nat nd) (range1 31).
Proof.
  intros Hnd. unfold range1. rewrite <- fmap_take, take_seq. do 2 f_equal. lia.
Qed.

Lemma monthrange_days_bounds (y m : Z) :
  1 <= m <= 12 -> 28 <= monthrange_days y m <= 31.
Proof.
  intros Hm. unfold monthrange_days.
  assert (m = 1 \/ m = 2 \/ m = 3 \/ m = 4 \/ m = 5 \/ m = 6 \/ m = 7 \/ m = 8 \/
          m = 9 \/ m = 10 \/ m = 11 \/ m = 12) as Hcases by lia.
  destruct (isleap y);
    repeat (destruct Hcases as [->|Hcases]; [simpl; lia|]); subst; simpl; lia.
Qed.

(** For a month of the calendar ([date] accepts years 1..9999),
    [dates_in_month] returns one ISO date per day of the month (28 to
    31 of them), each ten characters long, pairwise distinct and in
    strictly ascending order, so that sorting them changes nothing. *)
Theorem dates_in_month_calendar (y m : Z) :
  1 <= y <= 9999 -> 1 <= m <= 12 ->
  exists dates, dates_in_month y m = Some dates /\
    Z.of_nat (length dates) = monthrange_days y m /\
    28 <= monthrange_days y m <= 31 /\
    (forall i d, dates !! i = Some d ->
       isoformat y m (Z.of_nat (S i)) = Some d /\ String.length d = 10%nat) /\
    StronglySorted str_lt dates /\ NoDup dates /\
    sort_strings dates = dates.
Proof.
  intros Hy Hm. pose proof (monthrange_days_bounds y m Hm) as Hnd.
  set (pre := fun x : string =>
         fmt_int 4 y +:+ "-" +:+ fmt_int 2 m +:+ "-" +:+ x).
  set (dates := pre <$> (fmt_int 2 <$> range1 (monthrange_days y m))).
  assert (Hiso : forall d, isoformat y m d = Some (pre (fmt_int 2 d))).
  { intros d. unfold isoformat.
    destruct (Z.leb_spec 1 y); [|lia]. destruct (Z.leb_spec y 9999); [|lia]. done. }
  assert (Hsorted : StronglySorted str_lt dates).
  { subst dates. apply (StronglySorted_fmap pre str_lt).
    - intros a b Hab. unfold str_lt, pre.
      by rewrite !compare_append.
    - rewrite range1_take, fmap_take by lia.
      eapply StronglySorted_app_1_l. rewrite take_drop. apply day_strings_sorted. }
  exists dates. split_and!.
  - unfold dates_in_month. apply mapM_Some. subst dates.
    rewrite <- list_fmap_compose. apply Forall2_fmap_r, Forall_Forall2_diag, Forall_forall.
    intros d _. apply Hiso.
  - subst dates. rewrite !length_fmap. unfold range1. rewrite length_fmap, length_seq. lia.
  - lia.
  - lia.
  - intros i d Hi. subst dates. rewrite <- list_fmap_compose in Hi.
    apply list_lookup_fmap_Some in Hi as (day & -> & Hday).
    unfold range1 in Hday. apply list_lookup_fmap_Some in Hday as (j & -> & Hj).
    apply lookup_seq in Hj as [-> Hlt]. simpl plus.
    split; [apply Hiso|]. unfold compose, pre.
    rewrite !append_length.
    destruct (fmt_year y Hy) as [-> _]. destruct (fmt_two m ltac:(lia)) as [-> _].
    destruct (fmt_two (Z.of_nat (S i)) ltac:(lia)) as [-> _]. done.
  - done.
  - by apply str_lt_NoDup.
  - eapply (StronglySorted_unique String.le).
    + apply sort_strings_sorted.
    + rewrite <- (list_fmap_id dates).
      apply (StronglySorted_fmap id str_lt String.le); [apply str_lt_le | done].
    + apply sort_strings_perm.
Qed.

(** Distinct months of the calendar have distinct archive files, and
    no month's archive file is the temporary file of a month. *)
Theorem csv_path_for_injective (y m y' m' : Z) :
  1 <= y <= 9999 -> 1 <= m <= 12 -> 1 <= y' <= 9999 -> 1 <= m' <= 12 ->
  (path_str (csv_path_for cfg y m) = path_str (csv_path_for cfg y' m') ->
     y = y' /\ m = m') /\
  path_str (csv_path_for cfg y m) <>
    path_str (with_suffix (csv_path_for cfg y' m') ".tmp").
Proof.
  intros Hy Hm Hy' Hm'.
  destruct (fmt_year y Hy) as [Hly Hiy]. destruct (fmt_year y' Hy') as [Hly' Hiy'].
  destruct (fmt_two m ltac:(lia)) as [Hlm Him].
  destruct (fmt_two m' ltac:(lia)) as [Hlm' Him'].
  assert (Hsplit : forall sfx sfx',
    path_str (MkPath (DATA_DIR cfg) (fmt_int 4 y +:+ "-" +:+ fmt_int 2 m) sfx) =
    path_str (MkPath (DATA_DIR cfg) (fmt_int 4 y' +:+ "-" +:+ fmt_int 2 m') sfx') ->
    y = y' /\ m = m' /\ sfx = sfx').
  { intros sfx sfx'. unfold path_str. simpl. intros Heq.
    apply (append_inj_length (DATA_DIR cfg) (DATA_DIR cfg)) in Heq as [_ Heq]; [|done].
    injection Heq as Heq.
    apply (append_inj_length (fmt_int 4 y +:+ "-" +:+ fmt_int 2 m)
                             (fmt_int 4 y' +:+ "-" +:+ fmt_int 2 m'))
      in Heq as [Hstem Hsfx].
    2:{ rewrite !append_length, Hly, Hly', Hlm, Hlm'. done. }
    apply (append_inj_length (fmt_int 4 y) (fmt_int 4 y')) in Hstem as [Hyy Hmm];
      [|congruence].
    injection Hmm as Hmm. change (fmt_int 2 m = fmt_int 2 m') in Hmm.
    split_and!; [congruence | congruence | done]. }
  split.
  - intros Heq. apply Hsplit in Heq as (? & ? & _). done.
  - intros Heq. apply Hsplit in Heq as (_ & _ & Hsfx). done.
Qed.

(** ** The months of a run *)

Lemma months_loop_length (ty tm : Z) (fuel : nat) : forall y0 m0,
  1 <= m0 <= 12 -> 1 <= tm <= 12 ->
  (ty - y0) * 12 + tm - m0 + 1 <= Z.of_nat fuel ->
  Z.of_nat (length (months_loop fuel ty tm y0 m0)) =
    Z.max 0 ((ty - y0) * 12 + tm - m0 + 1).
Proof.
  induction fuel as [|fuel IH]; intros y0 m0 Hm0 Htm Hfuel; simpl; [lia|].
  destruct ((y0 <? ty) || ((y0 =? ty) && (m0 <=? tm))) eqn:Hc.
  - cbn [length]. destruct (Z.eqb_spec m0 12).
    + rewrite Nat2Z.inj_succ, IH by lia. lia.
    + rewrite Nat2Z.inj_succ, IH by lia. lia.
  - simpl. lia.
Qed.

(** [months_since] yields exactly the months from January of the
    start year through the current month, each once and in calendar
    order: twelve per year elapsed plus the months of the current year,
    and none when the start year lies in the future. *)
Theorem months_since_enumerates (year_start : Z) :
  1 <= (today E).2 <= 12 ->
  (forall y m, (y, m) ∈ months_since E year_start <->
     year_start <= y /\ 1 <= m <= 12 /\ month_le (y, m) (today E)) /\
  StronglySorted month_lt (months_since E year_start) /\
  Z.of_nat (length (months_since E year_start)) =
    Z.max 0 (((today E).1 - year_start) * 12 + (today E).2).
Proof.
  intros Htm. destruct (months_since_spec year_start Htm) as [Hin Hsorted].
  split; [done|]. split; [done|].
  unfold months_since. destruct (today E) as [ty tm]; simpl in *.
  destruct (decide (year_start <= ty)).
  - rewrite months_loop_length by lia. lia.
  - replace (Z.to_nat ((ty - year_start + 1) * 12)) with 0%nat by lia. simpl. lia.
Qed.

(** ** Waiting for a rate slot *)

Lemma qmin_fold_le (l : list Q) : forall t,
  (fold_left qmin l t <= t)%Q /\ forall u, In u l -> (fold_left qmin l t <= u)%Q.
Proof.
  induction l as [|a l IH]; intros t; simpl.
  { split; [lra | done]. }
  destruct (IH (qmin t a)) as [Hle Hall].
  assert (Hq : (qmin t a <= t)%Q /\ (qmin t a <= a)%Q).
  { unfold qmin. destruct (Qlt_le_dec a t); lra. }
  split; [lra|]. intros u [<-|Hu]; [lra | by apply Hall].
Qed.

Lemma min_list_least (l : list Q) (oldest : Q) :
  min_list l = Some oldest -> forall t, In t l -> (oldest <= t)%Q.
Proof.
  destruct l as [|a l]; simpl; [done|]. intros [= <-] t.
  destruct (qmin_fold_le l a) as [Hle Hall]. intros [<-|Ht]; [done | by apply Hall].
Qed.

(** The admission, with a positive cap.  It sends nothing and touches
    no file.  When fewer than [MAX_PER_MINUTE] timestamps lie within
    the last 60 seconds it returns at once, having only dropped the
    older timestamps.  Otherwise it sleeps exactly once, for
    [60 - (now - oldest) + 0.05] seconds where [oldest] is the least
    timestamp of the window -- more than 0.05 seconds -- and then drops
    what has left the window, the oldest timestamp included. *)
Theorem wait_for_rate_slot_sleeps (s : state) :
  1 <= MAX_PER_MINUTE cfg ->
  let now := (clock s + drift E (ticks s))%Q in
  let live := List.filter (in_window now) (stamps s) in
  let out := wait_for_rate_slot cfg E s in
  out.1 = Ok tt /\ sent out.2 = sent s /\ fs out.2 = fs s /\
  issued out.2 = issued s /\
  (Z.of_nat (length live) < MAX_PER_MINUTE cfg ->
     log out.2 = log s /\ stamps out.2 = live /\ clock out.2 = now) /\
  (MAX_PER_MINUTE cfg <= Z.of_nat (length live) ->
     exists oldest, In oldest live /\ (forall t, In t live -> (oldest <= t)%Q) /\
       let wait_seconds := (60 - (now - oldest) + (5 # 100))%Q in
       let now' := (now + wait_seconds + drift E (S (ticks s)))%Q in
       ((5 # 100) < wait_seconds)%Q /\
       log out.2 = log s ++ [EvSleep RateLimitSleep wait_seconds] /\
       clock out.2 = now' /\
       stamps out.2 = List.filter (in_window now') live /\
       ((0 <= drift E (S (ticks s)))%Q -> ~ In oldest (stamps out.2))).
Proof.
  intros Hmax now live out. subst out. unfold wait_for_rate_slot.
  unfold mbind, M_bind, bind, time_time, get_stamps, set_stamps. simpl.
  fold now. fold live.
  destruct (Z.ltb_spec (Z.of_nat (length live)) (MAX_PER_MINUTE cfg)) as [Hlt|Hge]; simpl.
  { split_and!; try done. intros ?. lia. }
  destruct (min_list live) as [oldest|] eqn:Hmin.
  2:{ exfalso. destruct live; [simpl in Hge; lia | done]. }
  pose proof (min_list_in _ _ Hmin) as Hin.
  pose proof (filter_in_window _ _ _ Hin) as Hold.
  unfold time_sleep. destruct (Qlt_le_dec _ 0) as [Hneg|_]; [exfalso; lra|]. simpl.
  split_and!; try done; [intros ?; lia|].
  intros _. exists oldest. split; [done|]. split; [by apply min_list_least|].
  split_and!; try done; [lra|].
  intros Hdrift [_ Hw]%filter_In. apply in_window_true in Hw. lra.
Qed.

Lemma wait_blocked (s : state) :
  MAX_PER_MINUTE cfg <= 0 -> stamps s = [] ->
  exists s', wait_for_rate_slot cfg E s = (Raise ValueError, s') /\
    log s' = log s /\ fs s' = fs s /\ fs_hist s' = fs_hist s /\ sent s' = sent s.
Proof.
  intros Hmax Hst. unfold wait_for_rate_slot.
  unfold mbind, M_bind, bind, time_time, get_stamps, set_stamps. simpl.
  rewrite Hst. simpl. change (Z.of_nat 0) with 0.
  destruct (Z.ltb_spec 0 (MAX_PER_MINUTE cfg)); [lia|].
  eexists. split; [reflexivity|]. done.
Qed.

Lemma historical_blocked (date_iso : string) (s : state) :
  MAX_PER_MINUTE cfg <= 0 -> stamps s = [] ->
  exists s', get_historical_for_date cfg E date_iso s = (Raise ValueError, s') /\
    log s' = log s /\ fs s' = fs s /\ fs_hist s' = fs_hist s /\ sent s' = sent s.
Proof.
  intros Hmax Hst. unfold get_historical_for_date, do_request.
  rewrite bind_unfold. cbn [do_request_loop]. rewrite bind_unfold. unfold when_.
  destruct (wait_blocked s Hmax Hst) as (s' & -> & Hs'). by exists s'.
Qed.

(** With [MAX_PER_MINUTE] at zero or below, a fresh process can fetch
    nothing: the first admission finds an empty window that is already
    "full" and fails on the minimum of no timestamps; the fetch loop
    takes that for a failed fetch.  The run sends no historical
    request, writes nothing, and returns 1 -- or 0 when the re-check
    under the lock leaves nothing to fetch. *)
Theorem nonpositive_cap_fetches_nothing (s s1 : state) (y m : Z)
    (planned : list string) :
  pre_lock cfg E s = (Ok (inr (y, m, planned)), s1) ->
  MAX_PER_MINUTE cfg <= 0 -> stamps s = [] ->
  let existing_rows :=
    (read_csv_rows cfg (interfere E (fs s)) (csv_path_for cfg y m)).1 in
  let todo := revalidate existing_rows (default [] (dates_in_month y m)) planned in
  (main cfg E s).1 =
    Ok (if lock_free E && bool_decide (todo = []) then 0
        else 1) /\
  log (main cfg E s).2 = log s1 /\
  fs (main cfg E s).2 = (if lock_free E then interfere E (fs s) else fs s).
Proof.
  intros Hpre Hmax Hst existing_rows todo.
  destruct (pre_lock_valid _ _ _ _ _ Hpre) as [[all_dates Hdates] (Hfs & _)].
  destruct (uncounted_frame s) as (Hstamps & _). rewrite Hpre in Hstamps. simpl in Hstamps.
  rewrite main_eval, Hpre, under_lock_eval.
  destruct (lock_free E); [|simpl; by rewrite Hfs].
  rewrite locked_section_eval. subst todo existing_rows.
  assert (Hlock : fs (lock_state s1) = interfere E (fs s)) by (simpl; by rewrite Hfs).
  rewrite Hlock, Hdates. simpl default.
  destruct (revalidate _ all_dates planned) as [|d1 rest].
  { simpl. by rewrite Hfs. }
  rewrite fetch_loop_cons.
  destruct (historical_blocked d1 (lock_state s1) Hmax) as (s' & -> & Hlog & Hfs' & _).
  { simpl. congruence. }
  rewrite map_size_empty. simpl. rewrite Hlog, Hfs'. simpl. by rewrite Hfs.
Qed.

End Properties.









(** * Concrete runs *)

#[local] Existing Instance LiteralFloat.

(** USD base, two currency columns, partial months allowed. *)
Definition demo_config : config :=
  Config "USD" 2023 "/data" 10 1 true 4 1%Q ["USD"; "EUR"].

Definition status_body (remaining : Z) : http_result :=
  Answered (Response 200 (BodyObject (Some remaining) ∅)).

(** The API quoting the base currency at 7 and EUR at 0.9 for any date. *)
Definition rates_body (date : option string) : http_result :=
  Answered (Response 200
    (BodyObject None
       {[ default "" date := {[ "EUR" := JNumber "0.9"; "USD" := JNumber "7" ]} ]})).

Definition quota_exceeded : http_result := Answered (Response 429 BodyInvalid).

Definition january : list string := default [] (dates_in_month 2023 1).

Definition full_january : file :=
  File (["date"; "USD"; "EUR"] :: ((fun d : string => [d; "1.0"; "0.9"]) <$> january)) false.

(** A world where another run completes January before the lock is held. *)
Definition env_race : env :=
  Env (2023, 1) (fun _ => 1%Q)
      (fun _ path date => if String.eqb path "/status" then status_body 100
                          else rates_body date)
      true
      (fun files => <["/data/2023-01.csv" := full_january]> files)
      (fun _ => false).

(** A world where the quota is already exhausted. *)
Definition env_exhausted : env :=
  Env (2023, 1) (fun _ => 1%Q)
      (fun _ path date => if String.eqb path "/status" then status_body 100
                          else quota_exceeded)
      true (fun files => files) (fun _ => false).

(** A world with quota for three days, where the API answers two
    historical requests and then refuses. *)
Definition env_partial : env :=
  Env (2023, 1) (fun _ => 1%Q)
      (fun n path date => if String.eqb path "/status" then status_body 4
                          else if (n <? 3)%nat then rates_body date
                          else quota_exceeded)
      true (fun files => files) (fun _ => false).

(** A world where the connection fails twice before the API answers. *)
Definition env_flaky : env :=
  Env (2023, 1) (fun _ => 1%Q)
      (fun n path date => if (n <? 2)%nat then TransportFailure else status_body 100)
      true (fun files => files) (fun _ => false).

(** A world whose file system turns read-only after the temporary file
    is written: the rename and the removal both fail. *)
Definition env_readonly : env :=
  Env (2023, 1) (fun _ => 1%Q)
      (fun _ path date => status_body 100)
      true (fun files => files) (fun n => (4 <=? n)%nat).

(** An archive with nothing for January, one day of February. *)
Definition february_started : gmap string file :=
  {[ "/data/2023-02.csv" :=
       File [["date"; "USD"; "EUR"]; ["2023-02-01"; "1.0"; "0.9"]] false ]}.

Definition env_march : env :=
  Env (2023, 3) (fun _ => 1%Q)
      (fun _ path date => status_body 100)
      true (fun files => files) (fun _ => false).

Definition start : state := initial_state 0 ∅.

Example partial_run_exit : (main demo_config env_partial start).1 = Ok 1.
Proof. vm_compute. reflexivity. Qed.

Example partial_run_file :
  fs (main demo_config env_partial start).2 !! "/data/2023-01.csv" =
    Some (File [["date"; "USD"; "EUR"];
                ["2023-01-01"; "1.0"; "0.9"];
                ["2023-01-02"; "1.0"; "0.9"]] false).
Proof. vm_compute. reflexivity. Qed.

Example partial_run_requests :
  requests_in (log (main demo_config env_partial start).2) =
    [("/status", None); ("/historical", Some "2023-01-01");
     ("/historical", Some "2023-01-02"); ("/historical", Some "2023-01-03")].
Proof. vm_compute. reflexivity. Qed.

Example race_run : (main demo_config env_race start).1 = Ok 0 /\
  requests_in (log (main demo_config env_race start).2) = [("/status", None)].
Proof. vm_compute. split; reflexivity. Qed.

Example flaky_sleeps :
  retry_sleeps (log (do_request demo_config env_flaky "/status" None false start).2)
    = [1%Q; (1 * 2)%Q].
Proof. vm_compute. reflexivity. Qed.

(** ** The theorems at work, and where the stated claims fail *)

(** Ten missing dates given out of order, remaining 5, buffer 1:
    the four earliest are planned. *)
Lemma budget_witness :
  plan demo_config (Some 5)
       ["2023-01-10"; "2023-01-09"; "2023-01-08"; "2023-01-07"; "2023-01-06";
        "2023-01-05"; "2023-01-04"; "2023-01-03"; "2023-01-02"; "2023-01-01"]
    = Fetch ["2023-01-01"; "2023-01-02"; "2023-01-03"; "2023-01-04"].
Proof.
  pose proof (budget_decides_as_specified demo_config env_partial 5
    ["2023-01-10"; "2023-01-09"; "2023-01-08"; "2023-01-07"; "2023-01-06";
     "2023-01-05"; "2023-01-04"; "2023-01-03"; "2023-01-02"; "2023-01-01"]) as Hb.
  cbv zeta in Hb. destruct Hb as (_ & _ & _ & _ & _ & Hten & _).
  rewrite Hten by reflexivity. vm_compute. reflexivity.
Defined.

(** In March 2023 with start year 2023 the scan enumerates three
    months in ascending order. *)
Lemma locate_witness :
  1 <= START_YEAR demo_config /\ (today env_march).1 <= 9999 /\
  1 <= (today env_march).2 <= 12 /\
  StronglySorted month_lt (months_since env_march (START_YEAR demo_config)).
Proof.
  assert (H1 : 1 <= START_YEAR demo_config) by (simpl; lia).
  assert (H2 : (today env_march).1 <= 9999) by (simpl; lia).
  assert (H3 : 1 <= (today env_march).2 <= 12) by (simpl; lia).
  split_and!; try done.
  exact (proj1 (proj2 (locate_selects_earliest_missing_month demo_config env_march H1 H2 H3))).
Defined.

(** A month with records and a missing date. *)
Definition gap_month (cfg : config) (files : gmap string file) (y m : Z) : Prop :=
  (read_csv_rows cfg files (csv_path_for cfg y m)).1 <> ∅ /\
  month_missing cfg files y m <> [].

(** The last sentence of the claim on month location, as stated: the
    earliest month that has some records and a missing date is the one
    selected. *)
Definition earliest_gap_month_selected (cfg : config) (E : env)
    (files : gmap string file) : Prop :=
  forall y m, (y, m) ∈ months_since E (START_YEAR cfg) ->
    gap_month cfg files y m ->
    (forall y' m', (y', m') ∈ months_since E (START_YEAR cfg) ->
       month_lt (y', m') (y, m) -> ~ gap_month cfg files y' m') ->
    exists missing existing,
      find_target cfg files (months_since E (START_YEAR cfg))
        = Ok (Some (y, m, missing, existing)).

(** With no file for January and one day of February on disk,
    February is the earliest month with records and a missing date,
    and the scan selects January. *)
Lemma locate_counterexample :
  ~ earliest_gap_month_selected demo_config env_march february_started.
Proof.
  intros Hclaim.
  assert (Hmonths : months_since env_march (START_YEAR demo_config)
                    = [(2023, 1); (2023, 2); (2023, 3)]) by (vm_compute; reflexivity).
  destruct (Hclaim 2023 2) as (missing & existing & Hsel).
  - rewrite Hmonths. apply list_elem_of_lookup_2 with 1%nat. reflexivity.
  - split.
    + intros He.
      apply (f_equal (fun rows : gmap string (gmap string value) =>
                        bool_decide (is_Some (rows !! "2023-02-01")))) in He.
      vm_compute in He. discriminate.
    + vm_compute. discriminate.
  - intros y' m' Hin Hlt [Hrec _]. rewrite Hmonths in Hin.
    apply elem_of_cons in Hin as [[= -> ->]|Hin].
    { apply Hrec. vm_compute. reflexivity. }
    apply elem_of_cons in Hin as [[= -> ->]|Hin].
    { unfold month_lt in Hlt. simpl in Hlt. lia. }
    apply elem_of_cons in Hin as [[= -> ->]|Hin].
    { unfold month_lt in Hlt. simpl in Hlt. lia. }
    by apply elem_of_nil in Hin.
  - vm_compute in Hsel. discriminate.
Qed.

(** No file, empty dict. *)
Lemma read_witness :
  read_csv_rows demo_config ∅ (csv_path_for demo_config 2023 1) = (∅, false).
Proof.
  apply (proj1 (read_csv_rows_cells demo_config ∅ (csv_path_for demo_config 2023 1))).
  reflexivity.
Defined.

(** The claim on the cells of a row read back, as stated: a float or
    the blank sentinel, nothing else. *)
Definition cells_float_or_blank (cfg : config) (files : gmap string file)
    (path : Path) : Prop :=
  forall d row c v,
    (read_csv_rows cfg files path).1 !! d = Some row ->
    c ∈ CURRENCIES cfg -> row !! c = Some v ->
    v = blank \/ exists f, v = VFloat f.

Definition january_garbled : gmap string file :=
  {[ "/data/2023-01.csv" :=
       File [["date"; "USD"; "EUR"]; ["2023-01-05"; "1.0"; "abc"]] false ]}.

(** A cell holding "abc", which [float] rejects, is returned as the
    string "abc". *)
Lemma read_counterexample :
  ~ cells_float_or_blank demo_config january_garbled (csv_path_for demo_config 2023 1).
Proof.
  intros Hclaim.
  set (rows := (read_csv_rows demo_config january_garbled
                  (csv_path_for demo_config 2023 1)).1).
  destruct (Hclaim "2023-01-05" (default ∅ (rows !! "2023-01-05")) "EUR" (VStr "abc"))
    as [Hblank|[f Hf]].
  - vm_compute. reflexivity.
  - apply list_elem_of_lookup_2 with 1%nat. reflexivity.
  - vm_compute. reflexivity.
  - discriminate Hblank.
  - discriminate Hf.
Qed.

(** A fetch with the base currency among the columns: the API's 7 for
    USD is replaced by 1.0. *)
Lemma historical_witness :
  exists row s',
    get_historical_for_date demo_config env_race "2023-01-01" start = (Ok row, s') /\
    row !! "USD" = Some (VFloat float_one).
Proof.
  set (out := get_historical_for_date demo_config env_race "2023-01-01" start).
  assert (Hout : out = (Ok (match out.1 with Ok row => row | Raise _ => ∅ end), out.2))
    by (vm_compute; reflexivity).
  eexists _, _. split; [exact Hout|].
  apply (proj1 (historical_base_rate demo_config env_race "2023-01-01" start _ _ Hout)).
  apply list_elem_of_lookup_2 with 0%nat. reflexivity.
Defined.

(** The claim on the base currency's rate, as stated. *)
Definition base_rate_is_one (cfg : config) (E : env) (date_iso : string)
    (s : state) : Prop :=
  forall row s',
    get_historical_for_date cfg E date_iso s = (Ok row, s') ->
    row !! BASE_CURRENCY cfg = Some (VFloat float_one).

(** USD base with only EUR and GBP configured as columns. *)
Definition config_without_base : config :=
  Config "USD" 2023 "/data" 10 1 true 4 1%Q ["EUR"; "GBP"].

(** The record of a successful fetch then has no USD entry at all. *)
Lemma historical_counterexample :
  ~ base_rate_is_one config_without_base env_race "2023-01-01" start.
Proof.
  intros Hclaim.
  set (out := get_historical_for_date config_without_base env_race "2023-01-01" start).
  assert (Hout : out = (Ok (match out.1 with Ok row => row | Raise _ => ∅ end), out.2))
    by (vm_compute; reflexivity).
  specialize (Hclaim _ _ Hout). vm_compute in Hclaim. discriminate.
Qed.



Definition one_row : gmap string (gmap string value) :=
  {[ "2023-01-01" :=
       {[ "date" := VStr "2023-01-01"; "USD" := VFloat "1.0"; "EUR" := VFloat "0.9" ]} ]}.

(** Without I/O faults the write returns and the month file holds the
    header and the row. *)
Lemma write_witness :
  (write_csv_rows demo_config env_partial (csv_path_for demo_config 2023 1)
                  one_row start).1 = Ok tt.
Proof.
  assert (Hsfx : suffix (csv_path_for demo_config 2023 1) <> ".tmp") by discriminate.
  destruct (write_csv_rows_atomic demo_config env_partial
              (csv_path_for demo_config 2023 1) one_row start Hsfx)
    as (_ & _ & _ & _ & _ & _ & _ & Hok).
  apply Hok; [reflexivity|]. vm_compute. eexists. reflexivity.
Defined.

Example write_content :
  fs (write_csv_rows demo_config env_partial (csv_path_for demo_config 2023 1)
                     one_row start).2 !! "/data/2023-01.csv"
    = Some (File [["date"; "USD"; "EUR"]; ["2023-01-01"; "1.0"; "0.9"]] false).
Proof. vm_compute. reflexivity. Qed.

(** The claim on the temporary file, as stated: whenever the write
    fails after the temporary file has come into being, the temporary
    file is gone when the call ends. *)
Definition tmp_removed_on_failure (cfg : config) (E : env) (path : Path)
    (rows : gmap string (gmap string value)) (s : state) : Prop :=
  let out := write_csv_rows cfg E path rows s in
  let tmp := path_str (with_suffix path ".tmp") in
  forall e, out.1 = Raise e ->
    Exists (fun files : gmap string file => is_Some (files !! tmp))
           (drop (length (fs_hist s)) (fs_hist out.2)) ->
    fs out.2 !! tmp = None.

(** When the rename fails and the removal fails too, the temporary
    file stays. *)
Lemma write_counterexample :
  ~ tmp_removed_on_failure demo_config env_readonly
      (csv_path_for demo_config 2023 1) one_row start.
Proof.
  intros Hclaim. specialize (Hclaim OSError).
  cbv zeta in Hclaim.
  assert (Hraise :
    (write_csv_rows demo_config env_readonly (csv_path_for demo_config 2023 1)
                    one_row start).1 = Raise OSError) by (vm_compute; reflexivity).
  specialize (Hclaim Hraise).
  assert (Hnone : fs (write_csv_rows demo_config env_readonly
                        (csv_path_for demo_config 2023 1) one_row start).2
                    !! path_str (with_suffix (csv_path_for demo_config 2023 1) ".tmp")
                  = None).
  { apply Hclaim. apply Exists_exists.
    exists {[ "/data/2023-01.tmp" := File [] false ]}. split.
    - apply list_elem_of_lookup_2 with 0%nat. vm_compute. reflexivity.
    - vm_compute. eexists. reflexivity. }
  vm_compute in Hnone. discriminate.
Qed.

(** Another run fills January before the lock is held: nothing is
    fetched, nothing written, exit code 0. *)
Lemma revalidation_witness :
  main demo_config env_race start
    = (Ok 0, lock_state env_race (pre_lock demo_config env_race start).2).
Proof.
  assert (Hpre : pre_lock demo_config env_race start
                 = (Ok (inr (2023, 1, january)), (pre_lock demo_config env_race start).2))
    by (vm_compute; reflexivity).
  assert (Hlock : lock_free env_race = true) by reflexivity.
  assert (Hpresent : forall d, d ∈ january ->
    is_Some ((read_csv_rows demo_config
                (interfere env_race (fs (pre_lock demo_config env_race start).2))
                (csv_path_for demo_config 2023 1)).1 !! d)).
  { assert (Hall : forallb (fun d : string => bool_decide (is_Some
        ((read_csv_rows demo_config
            (interfere env_race (fs (pre_lock demo_config env_race start).2))
            (csv_path_for demo_config 2023 1)).1 !! d))) january = true)
      by (vm_compute; reflexivity).
    intros d Hd. apply list_elem_of_In in Hd.
    rewrite forallb_forall in Hall. apply Hall in Hd.
    by apply bool_decide_eq_true in Hd. }
  exact (proj1 (lock_revalidation_noop demo_config env_race start _ 2023 1 january
                  Hpre Hlock Hpresent)).
Defined.

(** The API refuses the first date: exit code 1 and an untouched
    archive. *)
Lemma no_row_witness :
  main demo_config env_exhausted start
    = (Ok 1, (get_historical_for_date demo_config env_exhausted "2023-01-01"
                (lock_state env_exhausted (pre_lock demo_config env_exhausted start).2)).2).
Proof.
  assert (Hpre : pre_lock demo_config env_exhausted start
                 = (Ok (inr (2023, 1, january)),
                    (pre_lock demo_config env_exhausted start).2))
    by (vm_compute; reflexivity).
  assert (Hlock : lock_free env_exhausted = true) by reflexivity.
  exact (proj1 (fetch_failure_before_any_row demo_config env_exhausted start _ 2023 1
                  january "2023-01-01" (tail january) (RuntimeError 429)
                  Hpre Hlock
                  ltac:(vm_compute; reflexivity) ltac:(vm_compute; reflexivity))).
Defined.

Example no_row_archive :
  fs (main demo_config env_exhausted start).2 = ∅.
Proof. vm_compute. reflexivity. Qed.

